(** * NodeTypeEdgeFeatureGraphCRF: layout, validation and joint features

    A shallow embedding of
    [pystruct/models/node_type_edge_feature_graph_crf.py]
    (Python 2 with numpy) and the properties of its layout computation,
    instance validation, block ravel, pairwise potentials and
    joint-feature assembly. *)

From Stdlib Require Import String.
From Stdlib Require Import List ZArith Lia Bool Arith PeanoNat.
Import ListNotations.

Set Implicit Arguments.

(** ** Exceptions and the error monad *)

(** The messages of the [ValueError]s raised by the module itself are kept
    as constructors, so that a theorem can say which one was raised and
    which type pair it names. *)
Inductive value_error : Type :=
| Expected_edge_arrays (n : nat)
| Expected_edge_feature_arrays (n : nat)
| Empty_edge_array_but_non_empty_edge_feature_array
| Empty_edge_feature_array_but_non_empty_edge_array
| Expected_2_dimensions_edge_feature_arrays
| Edge_and_edge_feature_same_size_in_1st_dimension
| Bad_number_of_edge_features (typ1 typ2 : nat)
| Got_w_of_wrong_shape (expected : Z) (got : nat)
| Numpy_value_error (msg : string)
| Base_value_error (msg : string).

Inductive exn : Type :=
| ValueError (e : value_error)
| IndexError
| AttributeError
| TypeError
| AssertionError.

Definition result (A : Type) : Type := (exn + A)%type.

Definition OK {A} (a : A) : result A := inr a.
Definition raise {A} (e : exn) : result A := inl e.

Definition bind {A B} (r : result A) (k : A -> result B) : result B :=
  match r with
  | inl e => inl e
  | inr a => k a
  end.

Declare Scope py_scope.
Delimit Scope py_scope with py.
Notation "x <- e ;; k" := (bind e (fun x => k))
  (at level 61, e at next level, right associativity) : py_scope.
Notation "' p <- e ;; k" := (bind e (fun p => k))
  (at level 61, p pattern, e at next level, right associativity) : py_scope.
Notation "e ;;; k" := (bind e (fun _ => k))
  (at level 61, right associativity) : py_scope.
Open Scope py_scope.

Definition raises {A} (r : result A) : Prop := exists e, r = inl e.

(** A Python [for] loop whose body may raise, threading the loop state. *)
Fixpoint for_each {A S} (body : S -> A -> result S) (l : list A) (s : S)
  : result S :=
  match l with
  | [] => OK s
  | a :: l' => s' <- body s a ;; for_each body l' s'
  end.

Fixpoint mapM {A B} (f : A -> result B) (l : list A) : result (list B) :=
  match l with
  | [] => OK []
  | a :: l' => b <- f a ;; bs <- mapM f l' ;; OK (b :: bs)
  end.

(** [assert c]. *)
Definition py_assert (c : bool) : result unit :=
  if c then OK tt else raise AssertionError.

(** [l[i]] on a Python list or tuple, for an index that is not negative. *)
Definition py_index {A} (l : list A) (i : nat) : result A :=
  match nth_error l i with
  | Some a => OK a
  | None => raise IndexError
  end.

(** Truth value of a Python list. *)
Definition truthy {A} (l : list A) : bool :=
  match l with [] => false | _ :: _ => true end.

(** Python's three-argument [zip]. *)
Fixpoint zip3 {A B C} (la : list A) (lb : list B) (lc : list C)
  : list (A * B * C) :=
  match la, lb, lc with
  | a :: la', b :: lb', c :: lc' => (a, b, c) :: zip3 la' lb' lc'
  | _, _, _ => []
  end.

(** [np.cumsum] of a list of counts. *)
Fixpoint cumsum_from (acc : nat) (l : list nat) : list nat :=
  match l with
  | [] => []
  | n :: l' => (acc + n) :: cumsum_from (acc + n) l'
  end.

Definition cumsum (l : list nat) : list nat := cumsum_from 0 l.

(** ** Arrays *)

(** A numpy array of any number of axes: its shape and its elements in
    row-major order. *)
Record ndarray (A : Type) : Type := NDArray {
  shape : list nat;
  adata : list A
}.

(** A two-dimensional array. *)
Record matrix (A : Type) : Type := Matrix {
  nrows : nat;
  ncols : nat;
  mdata : list A
}.

Definition wf_ndarray {A} (a : ndarray A) : Prop :=
  length (adata a) = fold_right Nat.mul 1 (shape a).

Definition wf_matrix {A} (a : matrix A) : Prop :=
  length (mdata a) = nrows a * ncols a.

Definition ndim {A} (a : ndarray A) : nat := length (shape a).

(** [len(a)]: a zero-dimensional array has no length. *)
Definition len {A} (a : ndarray A) : result nat :=
  match shape a with
  | [] => raise TypeError
  | n :: _ => OK n
  end.

(** [a.shape[k]]. *)
Definition shape_at {A} (a : ndarray A) (k : nat) : result nat :=
  py_index (shape a) k.

Section Matrices.

Context {A : Type}.
Variable d : A.

(** The matrix with [r] rows and [c] columns whose entry [(i, j)] is
    [f i j]. *)
Definition mk_matrix (r c : nat) (f : nat -> nat -> A) : matrix A :=
  Matrix r c (flat_map (fun i => map (f i) (seq 0 c)) (seq 0 r)).

Definition mget (a : matrix A) (i j : nat) : A :=
  nth (i * ncols a + j) (mdata a) d.

(** [a.T] *)
Definition transpose (a : matrix A) : matrix A :=
  mk_matrix (ncols a) (nrows a) (fun i j => mget a j i).

(** [a[i0:i1, j0:j1]] for bounds that are not negative: each bound is
    clipped to the axis, and a stop before the start gives no rows (or
    columns). *)
Definition slice2 (a : matrix A) (i0 i1 j0 j1 : nat) : matrix A :=
  let r0 := Nat.min i0 (nrows a) in
  let r1 := Nat.min i1 (nrows a) in
  let c0 := Nat.min j0 (ncols a) in
  let c1 := Nat.min j1 (ncols a) in
  mk_matrix (r1 - r0) (c1 - c0) (fun i j => mget a (r0 + i) (c0 + j)).

(** [a.ravel()] *)
Definition ravel (a : matrix A) : list A := mdata a.

(** [a[:, k]] *)
Definition column (a : matrix A) (k : nat) : result (list A) :=
  if k <? ncols a
  then OK (map (fun i => mget a i k) (seq 0 (nrows a)))
  else raise IndexError.

End Matrices.

(** [np.hstack] of one-dimensional arrays: it refuses an empty sequence. *)
Definition hstack {A} (l : list (list A)) : result (list A) :=
  match l with
  | [] => raise (ValueError (Numpy_value_error
                   "need at least one array to concatenate"))
  | _ :: _ => OK (concat l)
  end.

(** ** The model *)

(** The attributes of a constructed model that the module reads:
    the constructor's arguments, with [a_n_edge_features] already an array
    of shape [(n_types, n_types)].  The state and feature counts are
    Python integers and the edge-feature counts the elements of an
    [int64] array; all of them are counts, held as natural numbers. *)
Record NodeTypeEdgeFeatureGraphCRF : Type := CRF {
  n_types : nat;
  l_n_states : list nat;
  l_n_features : list nat;
  a_n_edge_features : matrix nat
}.

(** *** Machine integers *)

(** A numpy [int64] is an integer of [-2^63 .. 2^63 - 1]; its sums and
    products wrap around.  A Python integer that meets an [int64] is
    converted to one: the model takes it within the [int64] range, beyond
    which numpy leaves the integers. *)
Definition wrap64 (z : Z) : Z := ((z + 2 ^ 63) mod 2 ^ 64 - 2 ^ 63)%Z.

Definition int64_add (a b : Z) : Z := wrap64 (a + b).
Definition int64_mul (a b : Z) : Z := wrap64 (a * b).

(** A dimension given to [np.zeros]. *)
Definition np_dim (d : Z) : result nat :=
  if (d <? 0)%Z
  then raise (ValueError (Numpy_value_error
                "negative dimensions are not allowed"))
  else OK (Z.to_nat d).

Section Layout.

Variable self : NodeTypeEdgeFeatureGraphCRF.

(** [self._n_edge_features = self.a_n_edge_features.sum(axis=None)], the
    sum of an [int64] array. *)
Definition _n_edge_features : Z :=
  fold_left int64_add (map Z.of_nat (mdata (a_n_edge_features self))) 0%Z.

(** Modelled from the spec: [TypedCRF._iter_type_pairs] is not in this
    module; the Type-Pair Iterator enumerates the ordered pairs
    [(t1, t2)] over the types in row-major order, [t1] outer and [t2]
    inner. *)
Definition _iter_type_pairs : list (nat * nat) :=
  flat_map (fun typ1 => map (pair typ1) (seq 0 (n_types self)))
           (seq 0 (n_types self)).

(** [self.a_n_edge_features[typ1, typ2]] *)
Definition edge_feature_count (typ1 typ2 : nat) : result nat :=
  let a := a_n_edge_features self in
  if (typ1 <? nrows a) && (typ2 <? ncols a)
  then OK (mget 0 a typ1 typ2)
  else raise IndexError.

(** [_set_size_joint_feature]: [None] when the guard on
    [self.l_n_features] leaves the three sizes unset, otherwise
    [(size_unaries, size_pairwise, size_joint_feature)].  The unary size
    is a sum of products of Python integers; each term of the pairwise
    size is the product of an [int64] count with two state counts, so
    that the pairwise size and the total are [int64] values. *)
Definition _set_size_joint_feature : result (option (nat * Z * Z)) :=
  if truthy (l_n_features self) then
    let size_unaries :=
      list_sum (map (fun '(n_states, n_features) => n_states * n_features)
                    (combine (l_n_states self) (l_n_features self))) in
    size_pairwise <-
      for_each (fun size_pairwise '(typ1, typ2) =>
                  a <- edge_feature_count typ1 typ2 ;;
                  s1 <- py_index (l_n_states self) typ1 ;;
                  s2 <- py_index (l_n_states self) typ2 ;;
                  OK (int64_add size_pairwise
                        (int64_mul (int64_mul (Z.of_nat a) (Z.of_nat s1))
                                   (Z.of_nat s2))))
               _iter_type_pairs 0%Z ;;
    OK (Some (size_unaries, size_pairwise,
              int64_add (Z.of_nat size_unaries) size_pairwise))
  else OK None.

(** Reading [self.size_unaries], [self.size_pairwise] and
    [self.size_joint_feature]: attributes that exist only once
    [_set_size_joint_feature] has set them. *)
Definition size_attr {A : Type} (proj : nat * Z * Z -> A) : result A :=
  sizes <- _set_size_joint_feature ;;
  match sizes with
  | Some s => OK (proj s)
  | None => raise AttributeError
  end.

Definition size_unaries : result nat := size_attr (fun s => fst (fst s)).
Definition size_pairwise : result Z := size_attr (fun s => snd (fst s)).
Definition size_joint_feature : result Z := size_attr snd.

End Layout.

(** ** Scalars *)

(** The numbers held by feature arrays, marginals and weights.  The
    encoder only stores zeros and ones and forms sums of products, so the
    embedding is over any type with these operations; [np.dot] sums the
    products of a row and a column from left to right. *)
Class Scalar (R : Type) : Type := {
  zero : R;
  one : R;
  add : R -> R -> R;
  mul : R -> R -> R
}.

#[global] Instance Scalar_Z : Scalar Z :=
  {| zero := 0%Z; one := 1%Z; add := Z.add; mul := Z.mul |}.

Section Numpy.

Context {R : Type} `{Scalar R}.

(** [np.zeros((r, c))] *)
Definition zeros (r c : nat) : matrix R := mk_matrix r c (fun _ _ => zero).

(** [np.dot(a, b)] of two matrices. *)
Definition np_dot (a b : matrix R) : result (matrix R) :=
  if ncols a =? nrows b
  then OK (mk_matrix (nrows a) (ncols b)
             (fun i j =>
                fold_left add
                  (map (fun k => mul (mget zero a i k) (mget zero b k j))
                       (seq 0 (ncols a)))
                  zero))
  else raise (ValueError (Numpy_value_error "shapes not aligned")).

(** [a.reshape(r, c)] *)
Definition reshape2 (a : ndarray R) (r c : nat) : result (matrix R) :=
  if length (adata a) =? r * c
  then OK (Matrix r c (adata a))
  else raise (ValueError (Numpy_value_error "cannot reshape array")).

(** [v.reshape(r, -1)] of a one-dimensional array. *)
Definition reshape_rows (v : list R) (r : nat) : result (matrix R) :=
  if (r =? 0) || negb (length v mod r =? 0)
  then raise (ValueError (Numpy_value_error "cannot reshape array"))
  else OK (Matrix r (length v / r) v).

(** [a.reshape(n, r, c)] *)
Definition reshape3 (a : ndarray R) (n r c : nat) : result (ndarray R) :=
  if length (adata a) =? n * (r * c)
  then OK (NDArray [n; r; c] (adata a))
  else raise (ValueError (Numpy_value_error "cannot reshape array")).

(** [nb_rows, nb_cols = a.shape] *)
Definition unpack_shape2 (a : ndarray R) : result (nat * nat) :=
  match shape a with
  | [r; c] => OK (r, c)
  | _ => raise (ValueError (Numpy_value_error "wrong number of values to unpack"))
  end.

(** Broadcasting of the right-hand side of a slice assignment to a
    target of [r] rows and [c] columns: leading axes of length one are
    dropped, then every axis has the target's length or length one. *)
Fixpoint strip_leading_ones (s : list nat) : list nat :=
  match s with
  | 1 :: ((_ :: _ :: _) as s') => strip_leading_ones s'
  | _ => s
  end.

Definition broadcast_to (src : ndarray R) (r c : nat)
  : result (nat -> nat -> R) :=
  let at_ k := nth k (adata src) zero in
  match strip_leading_ones (shape src) with
  | [] => OK (fun _ _ => at_ 0)
  | [n] =>
      if (n =? c) || (n =? 1)
      then OK (fun _ j => at_ (if n =? 1 then 0 else j))
      else raise (ValueError (Numpy_value_error "could not broadcast"))
  | [m; n] =>
      if ((m =? r) || (m =? 1)) && ((n =? c) || (n =? 1))
      then OK (fun i j => at_ ((if m =? 1 then 0 else i) * n
                               + (if n =? 1 then 0 else j)))
      else raise (ValueError (Numpy_value_error "could not broadcast"))
  | _ => raise (ValueError (Numpy_value_error "could not broadcast"))
  end.

(** [dst[i0:i1, j0:j1] = src] *)
Definition slice_assign (dst : matrix R) (i0 i1 j0 j1 : nat)
  (src : ndarray R) : result (matrix R) :=
  let r0 := Nat.min i0 (nrows dst) in
  let r1 := Nat.min i1 (nrows dst) in
  let c0 := Nat.min j0 (ncols dst) in
  let c1 := Nat.min j1 (ncols dst) in
  f <- broadcast_to src (r1 - r0) (c1 - c0) ;;
  OK (mk_matrix (nrows dst) (ncols dst)
        (fun i j =>
           if (r0 <=? i) && (i <? r1) && (c0 <=? j) && (j <? c1)
           then f (i - r0) (j - c0)
           else mget zero dst i j)).

(** An index into an axis of length [n]: negative indices count from
    the end. *)
Definition normalize_index (n : nat) (i : Z) : result nat :=
  if ((0 <=? i) && (i <? Z.of_nat n))%Z then OK (Z.to_nat i)
  else if ((- Z.of_nat n <=? i) && (i <? 0))%Z
       then OK (Z.to_nat (i + Z.of_nat n))
       else raise IndexError.

(** Two one-dimensional index arrays broadcast against each other. *)
Definition broadcast_indices (rows cols : list Z) : result (list (Z * Z)) :=
  if length rows =? length cols then OK (combine rows cols)
  else match rows, cols with
       | [r], _ => OK (map (pair r) cols)
       | _, [c] => OK (map (fun r => (r, c)) rows)
       | _, _ => raise IndexError
       end.

(** [np.ogrid[i_start:i_stop]] *)
Definition ogrid (i_start i_stop : nat) : list Z :=
  map Z.of_nat (seq i_start (i_stop - i_start)).

(** [dst[rows, cols] = v] with two integer index arrays. *)
Definition fancy_assign (dst : matrix R) (rows cols : list Z) (v : R)
  : result (matrix R) :=
  idx <- broadcast_indices rows cols ;;
  idx <- mapM (fun '(r, c) =>
                 r' <- normalize_index (nrows dst) r ;;
                 c' <- normalize_index (ncols dst) c ;;
                 OK (r', c')) idx ;;
  OK (mk_matrix (nrows dst) (ncols dst)
        (fun i j =>
           if existsb (fun '(r, c) => (r =? i) && (c =? j)) idx
           then v
           else mget zero dst i j)).

(** [y[idx]]: a one-dimensional integer array indexed by an integer
    array. *)
Definition take (y : list Z) (idx : list Z) : result (list Z) :=
  mapM (fun i => k <- normalize_index (length y) i ;; OK (nth k y 0%Z)) idx.

(** [block_ravel]: ravel the array block by block. *)
Definition block_ravel (a : matrix R) (lij : list (nat * nat))
  : result (list R) :=
  '(li, lj) <- match lij with
               | [] => raise (ValueError
                          (Numpy_value_error "need more than 0 values to unpack"))
               | _ :: _ => OK (split lij)
               end ;;
  hstack (map (fun '((i0, i1), (j0, j1)) => ravel (slice2 zero a i0 i1 j0 j1))
              (combine (combine li (tl li)) (combine lj (tl lj)))).

End Numpy.

(** ** Instances and labelings *)

Section Data.

Variable R : Type.

(** An instance [x = (node_features, edges, edge_features)]: one slot
    per type, respectively per ordered type pair; a slot holds an array
    or [None].  The edge arrays are two-dimensional integer arrays. *)
Record instance : Type := Instance {
  x_node_features : list (option (ndarray R));
  x_edges : list (option (matrix Z));
  x_edge_features : list (option (ndarray R))
}.

(** A labeling [y]: a list of one integer array per type, or the tuple
    [(unary_marginals, pairwise_marginals)] of a relaxation. *)
Inductive labeling : Type :=
| Discrete (y : list (list Z))
| Relaxed (unary_marginals : ndarray R) (pw : matrix R).

End Data.

Arguments Instance {R} _ _ _.
Arguments x_node_features {R} _.
Arguments x_edges {R} _.
Arguments x_edge_features {R} _.
Arguments Discrete {R} _.
Arguments Relaxed {R} _ _.

(** Start offsets of consecutive blocks of the given sizes. *)
Fixpoint offsets_from (acc : nat) (l : list nat) : list nat :=
  match l with
  | [] => []
  | n :: l' => acc :: offsets_from (acc + n) l'
  end.

(** The [slice(start, stop)] of each of consecutive blocks of the given
    sizes. *)
Fixpoint slices_from (acc : nat) (l : list nat) : list (nat * nat) :=
  match l with
  | [] => []
  | n :: l' => (acc, acc + n) :: slices_from (acc + n) l'
  end.

Section Encoder.

Context {R : Type} `{Scalar R}.

Variable self : NodeTypeEdgeFeatureGraphCRF.

(** The validators of the base class, which this module calls and does
    not define: [TypedCRF._check_size_x] and [_check_size_y]. *)
Variable TypedCRF_check_size_x : instance R -> result unit.
Variable _check_size_y : instance R -> labeling R -> result unit.

(** *** Tables of the base class *)

(** Modelled from the spec: [self._n_states], the total state count
    aggregated across types, is set by the base class. *)
Definition _n_states : nat := list_sum (l_n_states self).

(** Modelled from the spec: [self._n_features], the total feature count
    aggregated across types, is set by the base class. *)
Definition _n_features : nat := list_sum (l_n_features self).

(** Modelled from the spec: [self._l_type_startindex], the cumulative
    state-count offsets per type, where each type's columns begin in the
    global state space. *)
Definition _l_type_startindex : list nat := offsets_from 0 (l_n_states self).

(** Modelled from the spec: [self._a_feature_slice_by_typ], the column
    range of each type given by the cumulative feature-count offsets. *)
Definition _a_feature_slice_by_typ : list (nat * nat) :=
  slices_from 0 (l_n_features self).

(** The state product [l_n_states[typ1] * l_n_states[typ2]] of each type
    pair, in iteration order. *)
Definition state_products : result (list nat) :=
  mapM (fun '(typ1, typ2) =>
          s1 <- py_index (l_n_states self) typ1 ;;
          s2 <- py_index (l_n_states self) typ2 ;;
          OK (s1 * s2))
       (_iter_type_pairs self).

(** Modelled from the spec: [self._l_edgetype_start_index], the
    cumulative state-product offsets per type pair, in the iteration
    order of the type pairs. *)
Definition _l_edgetype_start_index : list nat :=
  offsets_from 0
    (map (fun '(typ1, typ2) =>
            nth typ1 (l_n_states self) 0 * nth typ2 (l_n_states self) 0)
         (_iter_type_pairs self)).

(** *** Accessors *)

(** Modelled from the spec: [TypedCRF._get_node_features(x, bClean)] is
    not in this module; with [bClean] an absent or empty block counts as
    zero nodes, as in [_get_edge_features] below. *)
Definition _get_node_features (x : instance R) (bClean : bool)
  : result (list (option (ndarray R))) :=
  if bClean then
    mapM (fun o =>
            match o with
            | None => OK (Some (NDArray [0; 0] []))
            | Some a =>
                n <- len a ;;
                OK (Some (if n =? 0 then NDArray [0; 0] [] else a))
            end) (x_node_features x)
  else OK (x_node_features x).

(** Modelled from the spec: [TypedCRF._get_edges(x, bClean)] is not in
    this module; with [bClean] an absent or empty block counts as zero
    edges. *)
Definition _get_edges (x : instance R) (bClean : bool)
  : list (option (matrix Z)) :=
  if bClean then
    map (fun o =>
           match o with
           | None => Some (Matrix 0 2 [])
           | Some a => Some (if nrows a =? 0 then Matrix 0 2 [] else a)
           end) (x_edges x)
  else x_edges x.

(** [_get_edge_features(x, bClean)] *)
Definition _get_edge_features (x : instance R) (bClean : bool)
  : result (list (option (ndarray R))) :=
  if bClean then
    mapM (fun o =>
            match o with
            | None => OK (Some (NDArray [0; 0] []))
            | Some a =>
                n <- len a ;;
                OK (Some (if n =? 0 then NDArray [0; 0] [] else a))
            end) (x_edge_features x)
  else OK (x_edge_features x).

(** [_get_edge_features_by_type(x, typ1, typ2)] *)
Definition _get_edge_features_by_type (x : instance R) (typ1 typ2 : nat)
  : result (option (ndarray R)) :=
  py_index (x_edge_features x) (typ1 * n_types self + typ2).

(** *** Validation *)

(** The body of the first loop of [_check_size_x]: one edge block and
    its edge-feature block. *)
Definition check_edge_pair (edges : option (matrix Z))
  (edge_features : option (ndarray R)) : result unit :=
  match edges, edge_features with
  | None, None => OK tt
  | None, Some _ =>
      raise (ValueError Empty_edge_array_but_non_empty_edge_feature_array)
  | Some _, None =>
      raise (ValueError Empty_edge_feature_array_but_non_empty_edge_array)
  | Some edges, Some edge_features =>
      if negb (ndim edge_features =? 2)
      then raise (ValueError Expected_2_dimensions_edge_feature_arrays)
      else
        n <- len edge_features ;;
        if negb (nrows edges =? n)
        then raise (ValueError
                      Edge_and_edge_feature_same_size_in_1st_dimension)
        else OK tt
  end.

(** The body of the second loop of [_check_size_x]: the column count of
    the edge-feature block of one type pair. *)
Definition check_edge_feature_size (x : instance R) (typ1 typ2 : nat)
  : result unit :=
  edge_features <- _get_edge_features_by_type x typ1 typ2 ;;
  match edge_features with
  | None => OK tt
  | Some edge_features =>
      c <- shape_at edge_features 1 ;;
      a <- edge_feature_count self typ1 typ2 ;;
      if negb (c =? a)
      then raise (ValueError (Bad_number_of_edge_features typ1 typ2))
      else OK tt
  end.

Definition _check_size_x (x : instance R) : result unit :=
  let l_edges := _get_edges x false in
  (if negb (length l_edges =? n_types self ^ 2)
   then raise (ValueError (Expected_edge_arrays (n_types self ^ 2)))
   else OK tt) ;;;
  l_edge_features <- _get_edge_features x false ;;
  (if negb (length l_edge_features =? n_types self ^ 2)
   then raise (ValueError (Expected_edge_feature_arrays (n_types self ^ 2)))
   else OK tt) ;;;
  TypedCRF_check_size_x x ;;;
  for_each (fun _ '(edges, edge_features) =>
              check_edge_pair edges edge_features)
           (combine l_edges l_edge_features) tt ;;;
  for_each (fun _ '(typ1, typ2) => check_edge_feature_size x typ1 typ2)
           (_iter_type_pairs self) tt.

(** *** Pairwise potentials *)

(** Modelled from the spec: [_check_size_w] is the weight-vector length
    validator of the base class; it fails when the length of [w] is not
    [size_joint_feature]. *)
Definition _check_size_w (w : list R) : result unit :=
  size <- size_joint_feature self ;;
  if negb (Z.of_nat (length w) =? size)%Z
  then raise (ValueError (Got_w_of_wrong_shape size (length w)))
  else OK tt.

(** Reading [self.n_states], [self.n_features] and
    [self.n_edge_features]: this module never sets these attributes, so
    a read gives whatever the base class stored, or raises. *)
Variables self_n_states self_n_features self_n_edge_features : result nat.

(** [np.dot] applied to the Python list of edge-feature blocks: numpy's
    coercion of such a list is left open. *)
Variable np_dot_list :
  list (option (ndarray R)) -> matrix R -> result (ndarray R).

(** [l.shape] on a Python list: a list has no such attribute. *)
Definition list_shape {A} (l : list A) : result (list nat) :=
  raise AttributeError.

Definition _get_pairwise_potentials (x : instance R) (w : list R)
  : result (ndarray R) :=
  _check_size_w w ;;;
  _check_size_x x ;;;
  edge_features <- _get_edge_features x false ;;
  n_states <- self_n_states ;;
  n_features <- self_n_features ;;
  let pairwise := skipn (n_states * n_features) w in
  n_edge_features <- self_n_edge_features ;;
  pairwise <- reshape_rows pairwise n_edge_features ;;
  product <- np_dot_list edge_features pairwise ;;
  s <- list_shape edge_features ;;
  n <- py_index s 0 ;;
  n_states <- self_n_states ;;
  reshape3 product n n_states n_states.

(** *** Joint feature *)

(** The class attribute [bPW_std]. *)
Definition bPW_std : bool := true.

(** [len(o)] and [edges.shape[0]] on a slot that may hold [None]. *)
Definition py_len (o : option (ndarray R)) : result nat :=
  match o with
  | None => raise TypeError
  | Some a => len a
  end.

Definition shape0 (o : option (matrix Z)) : result nat :=
  match o with
  | None => raise AttributeError
  | Some a => OK (nrows a)
  end.

(** The body of the loop that builds the one-hot unary marginals. *)
Definition unary_step (st : nat * matrix R)
  (it : option (ndarray R) * nat * list Z) : result (nat * matrix R) :=
  let '(i_start, unary_marginals) := st in
  let '(node_features, typ_start_index, y_typ) := it in
  match node_features with
  | None => OK st
  | Some node_features =>
      n <- shape_at node_features 0 ;;
      let i_stop := i_start + n in
      unary_marginals <-
        fancy_assign unary_marginals (ogrid i_start i_stop)
          (map (Z.add (Z.of_nat typ_start_index)) y_typ) one ;;
      OK (i_stop, unary_marginals)
  end.

(** The body of the loop that builds the one-hot pairwise marginals. *)
Definition pairwise_step (y : list (list Z)) (st : nat * matrix R)
  (it : (nat * nat) * option (matrix Z) * nat) : result (nat * matrix R) :=
  let '(i_start, pw) := st in
  let '((typ1, typ2), edges, edgetype_start_index) := it in
  match edges with
  | None => OK st
  | Some edges =>
      y_typ1 <- py_index y typ1 ;;
      y_typ2 <- py_index y typ2 ;;
      e0 <- column 0%Z edges 0 ;;
      y1 <- take y_typ1 e0 ;;
      e1 <- column 0%Z edges 1 ;;
      y2 <- take y_typ2 e1 ;;
      let i_stop := i_start + nrows edges in
      s2 <- py_index (l_n_states self) typ2 ;;
      pw <- fancy_assign pw (ogrid i_start i_stop)
              (map (fun '(a, b) =>
                      (Z.of_nat edgetype_start_index + Z.of_nat s2 * a + b)%Z)
                   (combine y1 y2)) one ;;
      OK (i_stop, pw)
  end.

(** The body of the loop that stacks the node features. *)
Definition stack_node_step (st : nat * matrix R)
  (it : (nat * nat) * option (ndarray R)) : result (nat * matrix R) :=
  let '(i_start, all_node_features) := st in
  let '((f0, f1), node_features) := it in
  match node_features with
  | None => raise AttributeError
  | Some node_features =>
      n <- shape_at node_features 0 ;;
      let i_stop := i_start + n in
      all_node_features <-
        slice_assign all_node_features i_start i_stop f0 f1 node_features ;;
      OK (i_stop, all_node_features)
  end.

(** The body of the loop that stacks the edge features. *)
Definition stack_edge_step (st : nat * nat * matrix R)
  (edge_features : option (ndarray R)) : result (nat * nat * matrix R) :=
  let '(i_start, i_col_start, all_edge_features) := st in
  match edge_features with
  | None => OK st
  | Some edge_features =>
      '(nb_edges, nb_features) <- unpack_shape2 edge_features ;;
      let i_stop := i_start + nb_edges in
      let i_col_stop := i_col_start + nb_features in
      all_edge_features <-
        slice_assign all_edge_features i_start i_stop i_col_start i_col_stop
          edge_features ;;
      OK (i_stop, i_col_stop, all_edge_features)
  end.

(** The marginals of a labeling: the reshaped relaxation, or the one-hot
    encoding of a discrete labeling. *)
Definition marginals (x : instance R) (y : labeling R) (n_nodes n_edges : nat)
  : result (matrix R * matrix R) :=
  match y with
  | Relaxed unary_marginals pw =>
      unary_marginals <- reshape2 unary_marginals n_nodes _n_states ;;
      OK (unary_marginals, pw)
  | Discrete y =>
      l_node_features <- _get_node_features x false ;;
      '(_, unary_marginals) <-
        for_each unary_step
          (zip3 l_node_features _l_type_startindex y)
          (0, zeros n_nodes _n_states) ;;
      '(i_start, pw) <-
        for_each (pairwise_step y)
          (zip3 (_iter_type_pairs self) (_get_edges x false)
                _l_edgetype_start_index)
          (0, zeros n_edges (_n_states ^ 2)) ;;
      py_assert (i_start =? n_edges) ;;;
      OK (unary_marginals, pw)
  end.

(** The rest of [joint_feature], from the marginals on. *)
Definition assemble (x : instance R) (n_nodes n_edges : nat)
  (unary_marginals pw : matrix R) : result (list R) :=
  l_node_features <- _get_node_features x false ;;
  l_edge_features <- _get_edge_features x false ;;
  '(i_start, all_node_features) <-
    for_each stack_node_step
      (combine _a_feature_slice_by_typ l_node_features)
      (0, zeros n_nodes _n_features) ;;
  py_assert (i_start =? n_nodes) ;;;
  unaries_acc <- np_dot (transpose zero unary_marginals) all_node_features ;;
  n_edge_features <- np_dim (_n_edge_features self) ;;
  '(_, _, all_edge_features) <-
    for_each stack_edge_step l_edge_features
      (0, 0, zeros n_edges n_edge_features) ;;
  pairwise_acc <-
    (if bPW_std
     then np_dot (transpose zero all_edge_features) pw
     else np_dot (transpose zero pw) all_edge_features) ;;
  unaries_acc_ravelled <-
    block_ravel unaries_acc
      ((0, 0) :: combine (cumsum (l_n_states self))
                         (cumsum (l_n_features self))) ;;
  su <- size_unaries self ;;
  py_assert (length unaries_acc_ravelled =? su) ;;;
  let L1 := cumsum (ravel (a_n_edge_features self)) in
  sp <- state_products ;;
  let L2 := cumsum sp in
  let '(L1, L2) := if bPW_std then (L1, L2) else (L2, L1) in
  pairwise_acc_ravelled <-
    block_ravel pairwise_acc ((0, 0) :: combine L1 L2) ;;
  sp <- size_pairwise self ;;
  py_assert (Z.of_nat (length pairwise_acc_ravelled) =? sp)%Z ;;;
  joint_feature_vector <-
    hstack [unaries_acc_ravelled; pairwise_acc_ravelled] ;;
  sj <- size_joint_feature self ;;
  py_assert (Z.of_nat (length joint_feature_vector) =? sj)%Z ;;;
  OK joint_feature_vector.

Definition joint_feature (x : instance R) (y : labeling R)
  : result (list R) :=
  _check_size_x x ;;;
  _check_size_y x y ;;;
  cleaned <- _get_node_features x true ;;
  l_n_nodes <- mapM py_len cleaned ;;
  l_n_edges <- mapM shape0 (_get_edges x true) ;;
  let n_nodes := list_sum l_n_nodes in
  let n_edges := list_sum l_n_edges in
  '(unary_marginals, pw) <- marginals x y n_nodes n_edges ;;
  assemble x n_nodes n_edges unary_marginals pw.

End Encoder.

(** ** Reference definitions *)

(** The definitions of this part follow the words of the specification;
    the theorems below compare them with the code. *)

Section Reference.

Context {R : Type} `{Scalar R}.

(** Layout sizes: the sum over the types of [states * features], and the
    sum over the ordered type pairs, row by row, of
    [edgefeat * states(t1) * states(t2)]. *)
Definition unary_size (T : nat) (states features : list nat) : nat :=
  list_sum (map (fun t => nth t states 0 * nth t features 0) (seq 0 T)).

Definition pairwise_size (T : nat) (states : list nat) (edgefeat : matrix nat)
  : nat :=
  list_sum
    (map (fun t1 =>
            list_sum
              (map (fun t2 =>
                      mget 0 edgefeat t1 t2 * nth t1 states 0 * nth t2 states 0)
                   (seq 0 T)))
         (seq 0 T)).

(** Block ravel: block [k] of the rows (columns) is the range between
    cut points [k] and [k + 1]; the diagonal sub-matrix [k] holds the
    entries whose row lies in row block [k] and whose column lies in
    column block [k]. *)
Definition in_block (cuts : list nat) (k idx : nat) : bool :=
  (nth k cuts 0 <=? idx) && (idx <? nth (S k) cuts 0).

Definition diagonal_block (a : matrix R) (li lj : list nat) (k : nat)
  : list R :=
  flat_map (fun i => map (fun j => mget zero a i j)
                         (filter (in_block lj k) (seq 0 (ncols a))))
           (filter (in_block li k) (seq 0 (nrows a))).

Definition diagonal_blocks (a : matrix R) (lij : list (nat * nat)) : list R :=
  flat_map (diagonal_block a (map fst lij) (map snd lij))
           (seq 0 (length lij - 1)).

(** The number of nodes of a type: the rows of its block, none for an
    absent block; likewise the number of edges of a type pair. *)
Definition count_of (o : option (ndarray R)) : nat :=
  match o with
  | None => 0
  | Some a => hd 0 (shape a)
  end.

Definition node_counts (x : instance R) : list nat :=
  map count_of (x_node_features x).

Definition edge_rows (o : option (matrix Z)) : nat :=
  match o with
  | None => 0
  | Some e => nrows e
  end.

(** A matrix of [n] rows and [w] columns with mass one at column
    [cols[i]] of row [i] and zero elsewhere. *)
Definition onehot (cols : list nat) (n w : nat) : matrix R :=
  mk_matrix n w (fun i j =>
                   if (i <? length cols) && (nth i cols 0 =? j)
                   then one else zero).

Variable self : NodeTypeEdgeFeatureGraphCRF.

(** The observed label of node [i] of type [t]. *)
Definition label (y : list (list Z)) (t : nat) (i : Z) : nat :=
  Z.to_nat (nth (Z.to_nat i) (nth t y []) 0%Z).

(** The columns of the nodes of one type in the global state layout:
    the state offset of the type plus the label of the node. *)
Definition unary_block_columns (it : nat * nat * list Z) : list nat :=
  let '(n, start, y_typ) := it in
  map (fun i => start + Z.to_nat (nth i y_typ 0%Z)) (seq 0 n).

(** The column of each node, nodes in the global, type-ordered node
    ordering. *)
Definition unary_columns (x : instance R) (y : list (list Z)) : list nat :=
  flat_map unary_block_columns
           (zip3 (node_counts x) (_l_type_startindex self) y).

(** The columns of the edges of one type pair in the state-product
    layout, the edges in their given order:
    [states(t2) * label(t1 endpoint) + label(t2 endpoint)] within the
    column block of the pair; an absent edge block has no edge. *)
Definition pairwise_block_columns (y : list (list Z))
  (it : (nat * nat) * option (matrix Z) * nat) : list nat :=
  let '((t1, t2), edges, start) := it in
  match edges with
  | None => []
  | Some e =>
      map (fun i => start
                    + nth t2 (l_n_states self) 0 * label y t1 (mget 0%Z e i 0)
                    + label y t2 (mget 0%Z e i 1))
          (seq 0 (nrows e))
  end.

(** The column of each edge, type pairs row by row. *)
Definition pairwise_columns (x : instance R) (y : list (list Z)) : list nat :=
  flat_map (pairwise_block_columns y)
           (zip3 (_iter_type_pairs self) (x_edges x)
                 (_l_edgetype_start_index self)).

(** The marginals that put mass one on the observed labels: the unary
    marginals, a (total node count x total state count) array, and the
    pairwise marginals, with one row per edge and one column per state
    pair of every type pair. *)
Definition onehot_unary_marginals (x : instance R) (y : list (list Z))
  : ndarray R :=
  let n := list_sum (node_counts x) in
  let w := list_sum (l_n_states self) in
  NDArray [n; w] (mdata (onehot (unary_columns x y) n w)).

Definition onehot_pairwise_marginals (x : instance R) (y : list (list Z))
  : matrix R :=
  let cols := pairwise_columns x y in
  onehot cols (length cols)
    (list_sum (map (fun '(t1, t2) =>
                      nth t1 (l_n_states self) 0 * nth t2 (l_n_states self) 0)
                   (_iter_type_pairs self))).

(** *** Well-formed models, instances and labelings *)

(** A count below [2^63], and a model whose layout fits the [int64]
    range: the totals that the layout is cut by, which are the number of
    state pairs, of node features and of edge features, and the total
    size of the layout. *)
Definition below_int64 (n : nat) : bool := (Z.of_nat n <? 2 ^ 63)%Z.

Definition layout_fits : bool :=
  below_int64 (list_sum (l_n_states self) ^ 2)
  && below_int64 (list_sum (l_n_features self))
  && below_int64 (list_sum (mdata (a_n_edge_features self)))
  && below_int64 (unary_size (n_types self) (l_n_states self)
                             (l_n_features self)
                  + pairwise_size (n_types self) (l_n_states self)
                                  (a_n_edge_features self)).

Definition wf_model : bool :=
  (length (l_n_states self) =? n_types self)
  && (length (l_n_features self) =? n_types self)
  && (nrows (a_n_edge_features self) =? n_types self)
  && (ncols (a_n_edge_features self) =? n_types self)
  && (length (mdata (a_n_edge_features self)) =? n_types self * n_types self).

(** One node-feature block per type; a block that is present has shape
    (nodes, features of its type). *)
Definition valid_nodes (x : instance R) : bool :=
  (length (x_node_features x) =? n_types self)
  && forallb (fun '(o, f) =>
                match o with
                | None => true
                | Some a =>
                    match shape a with
                    | [n; c] => (c =? f) && (length (adata a) =? n * c)
                    | _ => false
                    end
                end)
             (combine (x_node_features x) (l_n_features self)).

Definition in_range (n : nat) (i : Z) : bool :=
  ((0 <=? i) && (i <? Z.of_nat n))%Z.

(** One edge block per ordered type pair; a block that is present has
    two columns, which index nodes of the pair's two types. *)
Definition valid_edges (x : instance R) : bool :=
  (length (x_edges x) =? n_types self ^ 2)
  && forallb (fun '((t1, t2), o) =>
                match o with
                | None => true
                | Some e =>
                    (ncols e =? 2)
                    && (length (mdata e) =? nrows e * 2)
                    && forallb (fun i =>
                                  in_range (nth t1 (node_counts x) 0)
                                           (mget 0%Z e i 0)
                                  && in_range (nth t2 (node_counts x) 0)
                                              (mget 0%Z e i 1))
                               (seq 0 (nrows e))
                end)
             (combine (_iter_type_pairs self) (x_edges x)).

(** One edge-feature block per ordered type pair, present together with
    the edge block, with one row per edge and the declared number of
    columns. *)
Definition valid_edge_features (x : instance R) : bool :=
  (length (x_edge_features x) =? n_types self ^ 2)
  && forallb (fun '((t1, t2), (oe, oef)) =>
                match oe, oef with
                | None, None => true
                | Some e, Some ef =>
                    match shape ef with
                    | [n; c] => (n =? nrows e)
                                && (c =? mget 0 (a_n_edge_features self) t1 t2)
                                && (length (adata ef) =? n * c)
                    | _ => false
                    end
                | _, _ => false
                end)
             (combine (_iter_type_pairs self)
                      (combine (x_edges x) (x_edge_features x))).

(** One label array per type, with one label per node, each label a
    state of the type. *)
Definition valid_labels (x : instance R) (y : list (list Z)) : bool :=
  (length y =? n_types self)
  && forallb (fun '(y_typ, (n, s)) =>
                (length y_typ =? n) && forallb (in_range s) y_typ)
             (combine y (combine (node_counts x) (l_n_states self))).

(** Modelled from the spec: [TypedCRF._check_size_x], the node-only
    validator of the base class, is not in this module; the instance
    must hold one node-feature block per type, of the type's feature
    dimensionality, and edge blocks of two columns that index nodes. *)
Definition spec_check_size_x (x : instance R) : result unit :=
  if valid_nodes x && valid_edges x then OK tt
  else raise (ValueError (Base_value_error "instance of wrong shape")).

(** Modelled from the spec: [_check_size_y] of the base class is not in
    this module; it fails if the per-type label arrays or the marginals
    disagree in shape with the node and edge counts of the instance. *)
Definition spec_check_size_y (x : instance R) (y : labeling R) : result unit :=
  match y with
  | Discrete y =>
      if (length y =? n_types self)
         && forallb (fun '(y_typ, n) => length y_typ =? n)
                    (combine y (node_counts x))
      then OK tt
      else raise (ValueError (Base_value_error "labels of wrong shape"))
  | Relaxed unary_marginals pw =>
      if list_eq_dec Nat.eq_dec (shape unary_marginals)
           [list_sum (node_counts x); list_sum (l_n_states self)]
      then OK tt
      else raise (ValueError (Base_value_error "marginals of wrong shape"))
  end.

(** *** What the one-hot loops need of an item *)

(** A node-feature block that is present is two-dimensional. *)
Definition node_ok (o : option (ndarray R)) : Prop :=
  match o with
  | None => True
  | Some a => exists n c, shape a = [n; c]
  end.

(** A node-feature block, its column offset and its labels, for a
    marginals matrix of [w] columns. *)
Definition unary_item_ok (w : nat) (it : option (ndarray R) * nat * list Z)
  : Prop :=
  let '(o, start, y_typ) := it in
  length y_typ = count_of o
  /\ (forall a, o = Some a -> shape_at a 0 = OK (count_of o))
  /\ Forall (fun l => (0 <= l)%Z /\ start + Z.to_nat l < w) y_typ.

(** A type pair, its edge block and its column offset, for a marginals
    matrix of [w] columns and the labels [y]. *)
Definition pairwise_item_ok (y : list (list Z)) (w : nat)
  (it : (nat * nat) * option (matrix Z) * nat) : Prop :=
  let '((t1, t2), edges, start) := it in
  match edges with
  | None => True
  | Some e =>
      t1 < length y /\ t2 < length y /\ t2 < length (l_n_states self)
      /\ ncols e = 2
      /\ (forall i, i < nrows e ->
             in_range (length (nth t1 y [])) (mget 0%Z e i 0) = true
             /\ in_range (length (nth t2 y [])) (mget 0%Z e i 1) = true
             /\ (0 <= nth (Z.to_nat (mget 0%Z e i 0)) (nth t1 y []) 0)%Z
             /\ (0 <= nth (Z.to_nat (mget 0%Z e i 1)) (nth t2 y []) 0)%Z
             /\ start
                + nth t2 (l_n_states self) 0 * label y t1 (mget 0%Z e i 0)
                + label y t2 (mget 0%Z e i 1) < w)
  end.

End Reference.

(** ** Instances of the declared shapes *)

(** Every node-feature block is present. *)
Definition nodes_present {R : Type} (x : instance R) : bool :=
  forallb (fun o : option (ndarray R) =>
             match o with None => false | Some _ => true end)
          (x_node_features x).

(** An edge block and an edge-feature block that go together, for a type
    pair that declares [d] edge features. *)
Definition edge_item_ok {R : Type}
  (it : nat * (option (matrix Z) * option (ndarray R))) : bool :=
  let '(d, (oe, oef)) := it in
  match oe, oef with
  | None, None => true
  | Some e, Some ef =>
      match shape ef with
      | [n; c] => (n =? nrows e) && (c =? d)
      | _ => false
      end
  | _, _ => false
  end.

(** ** Cleaned blocks *)

(** The array that stands for a slot of edge features after cleaning: the
    empty array of shape (0, 0) for an absent or empty block, the block
    itself otherwise. *)
Definition cleaned_block {R : Type} (o : option (ndarray R)) : ndarray R :=
  match o with
  | None => NDArray [0; 0] []
  | Some a => if hd 0 (shape a) =? 0 then NDArray [0; 0] [] else a
  end.

(** ** Stacked blocks *)

(** The number of columns of a block, none for an absent block. *)
Definition width_of {R : Type} (o : option (ndarray R)) : nat :=
  match o with
  | None => 0
  | Some a => nth 1 (shape a) 0
  end.

Section Stacked.

Context {R : Type} `{Scalar R}.

(** Entry [(i, j)] of a two-dimensional block. *)
Definition entry (a : ndarray R) (i j : nat) : R :=
  nth (i * nth 1 (shape a) 0 + j) (adata a) zero.

(** Entry [(i, j)] of a matrix in which the blocks lie one under the
    other, each to the right of the one before, starting at row [i_start]
    and column [i_col_start], over the entries [base]; an absent block
    takes no row and no column. *)
Fixpoint stacked (blocks : list (option (ndarray R)))
  (i_start i_col_start : nat) (base : nat -> nat -> R) (i j : nat) : R :=
  match blocks with
  | [] => base i j
  | None :: rest => stacked rest i_start i_col_start base i j
  | Some blk :: rest =>
      if (i_start <=? i) && (i <? i_start + count_of (Some blk))
         && (i_col_start <=? j) && (j <? i_col_start + width_of (Some blk))
      then entry blk (i - i_start) (j - i_col_start)
      else stacked rest (i_start + count_of (Some blk))
                   (i_col_start + width_of (Some blk)) base i j
  end.

(** A block that is present is two-dimensional. *)
Definition two_dimensional (o : option (ndarray R)) : Prop :=
  match o with
  | None => True
  | Some a => exists n c, shape a = [n; c]
  end.

End Stacked.

(** ** The entries of the joint feature *)

Section Entries.

Context {R : Type} `{Scalar R}.

(** The sum of the products of two columns of [n] rows, as [np.dot]
    forms it. *)
Definition dot_column (n : nat) (a b : nat -> R) : R :=
  fold_left add (map (fun k => mul (a k) (b k)) (seq 0 n)) zero.

Variable self : NodeTypeEdgeFeatureGraphCRF.

(** The number of state pairs of each type pair, in the order of the
    type pairs. *)
Definition pair_state_counts : list nat :=
  map (fun '(t1, t2) => nth t1 (l_n_states self) 0 * nth t2 (l_n_states self) 0)
      (_iter_type_pairs self).

(** Where the block of type [t] starts in the unary part, and where the
    block of the [k]-th type pair starts in the pairwise part. *)
Definition unary_offset (t : nat) : nat :=
  list_sum (map (fun '(s, f) => s * f)
                (firstn t (combine (l_n_states self) (l_n_features self)))).

Definition pairwise_offset (k : nat) : nat :=
  list_sum (map (fun '(a, s) => a * s)
                (firstn k (combine (ravel (a_n_edge_features self))
                                   pair_state_counts))).

(** A labeling fits an instance: a discrete labeling is valid; a
    relaxed one has one unary marginal for each node and state, and one
    row of pairwise marginals for each edge, over the state pairs. *)
Definition labeling_fits (x : instance R) (y : labeling R) : bool :=
  match y with
  | Discrete y => valid_labels self x y
  | Relaxed unary_marginals pw =>
      (length (adata unary_marginals)
       =? list_sum (node_counts x) * _n_states self)
      && (nrows pw =? list_sum (map edge_rows (x_edges x)))
      && (ncols pw =? _n_states self ^ 2)
  end.

End Entries.

(** Every edge-feature block is present. *)
Definition edge_features_present {R : Type} (x : instance R) : bool :=
  forallb (fun o : option (ndarray R) =>
             match o with None => false | Some _ => true end)
          (x_edge_features x).

(** Every type pair whose edge-feature block is absent declares no edge
    feature. *)
Definition absent_pairs_declare_nothing {R : Type}
  (self : NodeTypeEdgeFeatureGraphCRF) (x : instance R) : bool :=
  forallb (fun '(d, o) =>
             match o : option (ndarray R) with
             | None => d =? 0
             | Some _ => true
             end)
          (combine (ravel (a_n_edge_features self)) (x_edge_features x)).

(** ** Example data *)

(** The model of the specification's scenario: two types, with 2 and 3
    states and 3 and 2 features, and edge-feature counts [[1,2],[2,0]]. *)
Definition example_model : NodeTypeEdgeFeatureGraphCRF :=
  CRF 2 [2; 3] [3; 2] (Matrix 2 2 [1; 2; 2; 0]).

(** A model without any type. *)
Definition empty_model : NodeTypeEdgeFeatureGraphCRF :=
  CRF 0 [] [] (Matrix 0 0 []).

(** A 3 x 4 matrix of integers, to be cut into a 1 x 2 and a 2 x 2 diagonal
    block. *)
Definition example_matrix : matrix Z :=
  Matrix 3 4 [1; 2; 3; 4; 5; 6; 7; 8; 9; 10; 11; 12]%Z.

Definition example_cuts : list (nat * nat) := [(0, 0); (1, 2); (3, 4)].

(** An instance of [example_model] over the integers: two nodes of type 0
    and one node of type 1; one edge between the nodes of type 0, two
    edges from type 0 to type 1, no edge from type 1 to type 0 (a block
    of zero rows), and no block for the pair (1, 1). *)
Definition example_instance : instance Z :=
  Instance
    [Some (NDArray [2; 3] [1; 2; 3; 4; 5; 6]%Z); Some (NDArray [1; 2] [7; 8]%Z)]
    [Some (Matrix 1 2 [0; 1]%Z); Some (Matrix 2 2 [0; 0; 1; 0]%Z);
     Some (Matrix 0 2 []); None]
    [Some (NDArray [1; 1] [10]%Z); Some (NDArray [2; 2] [20; 21; 22; 23]%Z);
     Some (NDArray [0; 2] []); None].

Definition example_labels : list (list Z) := [[1; 0]; [2]]%Z.

(** The same instance without the edge-feature block of the pair (0, 1). *)
Definition example_instance_missing_features : instance Z :=
  Instance (x_node_features example_instance) (x_edges example_instance)
    [Some (NDArray [1; 1] [10]%Z); None; Some (NDArray [0; 2] []); None].

(** The same instance with three feature columns for the pair (0, 1),
    which declares two. *)
Definition example_instance_bad_columns : instance Z :=
  Instance (x_node_features example_instance) (x_edges example_instance)
    [Some (NDArray [1; 1] [10]%Z);
     Some (NDArray [2; 3] [20; 21; 22; 23; 24; 25]%Z);
     Some (NDArray [0; 2] []); None].

(** An instance of [example_model] without any node of type 1: the
    node-feature block of type 1 is absent, and the only edge joins the
    two nodes of type 0. *)
Definition example_instance_absent_type : instance Z :=
  Instance
    [Some (NDArray [2; 3] [1; 2; 3; 4; 5; 6]%Z); None]
    [Some (Matrix 1 2 [0; 1]%Z); None; None; None]
    [Some (NDArray [1; 1] [10]%Z); None; None; None].

Definition example_labels_absent_type : list (list Z) := [[1; 0]; []]%Z.

(** A weight vector for [example_model], of the length of the layout. *)
Definition example_weights : list Z := repeat 1%Z 40.

(** Stand-ins for the attributes and for [np.dot] on a list of blocks
    that [_get_pairwise_potentials] reads: the totals of [example_model],
    and a product that gives an empty array. *)
Definition example_attr (n : nat) : result nat := OK n.

Definition example_dot_list (l : list (option (ndarray Z))) (m : matrix Z)
  : result (ndarray Z) := OK (NDArray [0] []).

(** The one-hot pairwise marginals and the stacked edge features of
    [example_instance] after the loops of [joint_feature] have processed
    the type pairs (0, 0) and (0, 1). *)
Definition example_pairs_before
  : list ((nat * nat) * option (matrix Z) * nat) :=
  firstn 2 (zip3 (_iter_type_pairs example_model) (x_edges example_instance)
                 (_l_edgetype_start_index example_model)).

Definition example_pw : matrix Z :=
  match for_each (pairwise_step example_model example_labels)
          example_pairs_before (0, zeros 3 25) with
  | inr (_, pw) => pw
  | inl _ => zeros 0 0
  end.

Definition example_all_edge_features : matrix Z :=
  match for_each stack_edge_step (firstn 2 (x_edge_features example_instance))
          (0, 0, zeros 3 5) with
  | inr (_, _, m) => m
  | inl _ => zeros 0 0
  end.

(** The instance [example_instance] without the blocks of the type pair
    (0, 0), which declares one edge feature. *)
Definition example_instance_absent_pair : instance Z :=
  Instance (x_node_features example_instance)
    [None; Some (Matrix 2 2 [0; 0; 1; 0]%Z); Some (Matrix 0 2 []); None]
    [None; Some (NDArray [2; 2] [20; 21; 22; 23]%Z);
     Some (NDArray [0; 2] []); None].

(** The instance [example_instance] with empty blocks for the type pair
    (1, 1), so that every block is present. *)
Definition example_instance_all_pairs : instance Z :=
  Instance (x_node_features example_instance)
    [Some (Matrix 1 2 [0; 1]%Z); Some (Matrix 2 2 [0; 0; 1; 0]%Z);
     Some (Matrix 0 2 []); Some (Matrix 0 2 [])]
    [Some (NDArray [1; 1] [10]%Z); Some (NDArray [2; 2] [20; 21; 22; 23]%Z);
     Some (NDArray [0; 2] []); Some (NDArray [0; 0] [])].

(** Marginals for [example_instance]: three nodes over five states, and
    three edges over twenty-five state pairs. *)
Definition example_marginals : labeling Z :=
  Relaxed (NDArray [3; 5] [1; 2; 0; 0; 0; 3; 4; 0; 0; 0; 0; 0; 5; 6; 7]%Z)
          (Matrix 3 25 (repeat 1%Z 75)).


(** * Properties *)

Unset Implicit Arguments.

(** ** The error monad and loops *)

Lemma bind_OK {A B} (a : A) (k : A -> result B) : bind (OK a) k = k a.
Proof. reflexivity. Qed.

Lemma bind_inr {A B} (a : A) (k : A -> result B) : bind (inr a) k = k a.
Proof. reflexivity. Qed.

Lemma bind_raise {A B} (e : exn) (k : A -> result B) : bind (inl e) k = inl e.
Proof. reflexivity. Qed.

Lemma bind_inv {A B} (r : result A) (k : A -> result B) (b : B) :
  bind r k = inr b -> exists a, r = inr a /\ k a = inr b.
Proof.
  destruct r as [e | a]; simpl; intros Hb; [discriminate | eauto].
Qed.

Lemma raises_bind_left {A B} (r : result A) (k : A -> result B) :
  raises r -> raises (bind r k).
Proof. intros [e ->]. exists e. reflexivity. Qed.

Lemma raises_bind_right {A B} (r : result A) (k : A -> result B) :
  (forall a, raises (k a)) -> raises (bind r k).
Proof.
  intros Hk. destruct r as [e | a]; simpl; [exists e; reflexivity | apply Hk].
Qed.

Lemma not_OK_raises {A} (r : result A) : (forall a, r <> inr a) -> raises r.
Proof.
  destruct r as [e | a]; intros Hr; [exists e; reflexivity | now elim (Hr a)].
Qed.

Lemma raises_not_OK {A} (r : result A) (a : A) : raises r -> r <> inr a.
Proof. intros [e ->]. discriminate. Qed.

Lemma for_each_app {A S} (body : S -> A -> result S) (l1 l2 : list A) (s : S) :
  for_each body (l1 ++ l2) s = (s1 <- for_each body l1 s ;; for_each body l2 s1).
Proof.
  revert s. induction l1 as [| a l1 IH]; intros s; simpl; [reflexivity |].
  destruct (body s a) as [e | s']; simpl; [reflexivity | apply IH].
Qed.

(** A loop without state succeeds exactly when every iteration does. *)
Lemma for_each_unit_OK {A} (body : A -> result unit) (l : list A) :
  for_each (fun _ a => body a) l tt = OK tt <->
  forall a, In a l -> body a = OK tt.
Proof.
  induction l as [| a l IH]; simpl.
  - split; [intros _ a [] | reflexivity].
  - destruct (body a) as [e | []] eqn:Ha; simpl.
    + split; [discriminate |].
      intros Hall. rewrite (Hall a (or_introl eq_refl)) in Ha. discriminate.
    + rewrite IH. split.
      * intros Hall b [<- | Hb]; [exact Ha | now apply Hall].
      * intros Hall b Hb. apply Hall. now right.
Qed.

(** The first failing iteration of a loop without state gives the error
    of the loop. *)
Lemma for_each_unit_first {A} (body : A -> result unit) (l1 l2 : list A)
  (a : A) (e : exn) :
  (forall b, In b l1 -> body b = OK tt) ->
  body a = inl e ->
  for_each (fun _ a => body a) (l1 ++ a :: l2) tt = inl e.
Proof.
  intros Hl1 Ha. rewrite for_each_app.
  apply for_each_unit_OK in Hl1. rewrite Hl1. simpl. now rewrite Ha.
Qed.

(** A loop raises as soon as its body raises, whatever the state, at some
    element. *)
Lemma for_each_raises {A S} (body : S -> A -> result S) (l : list A) (s : S)
  (a : A) :
  In a l -> (forall s', raises (body s' a)) -> raises (for_each body l s).
Proof.
  revert s. induction l as [| b l IH]; intros s Hin Ha; [contradiction |].
  simpl. destruct Hin as [-> | Hin].
  - now apply raises_bind_left.
  - apply raises_bind_right. intros s'. now apply IH.
Qed.

(** ** Layout *)

Lemma in_iter_type_pairs (self : NodeTypeEdgeFeatureGraphCRF) (t1 t2 : nat) :
  In (t1, t2) (_iter_type_pairs self) <-> t1 < n_types self /\ t2 < n_types self.
Proof.
  unfold _iter_type_pairs. rewrite in_flat_map. split.
  - intros [t [Ht Hin]]. apply in_map_iff in Hin as [t' [Heq Ht']].
    inversion Heq; subst. apply in_seq in Ht, Ht'. lia.
  - intros [H1 H2]. exists t1. split; [apply in_seq; lia |].
    apply in_map_iff. exists t2. split; [reflexivity | apply in_seq; lia].
Qed.

Lemma length_iter_type_pairs (self : NodeTypeEdgeFeatureGraphCRF) :
  length (_iter_type_pairs self) = n_types self ^ 2.
Proof.
  unfold _iter_type_pairs.
  assert (Hlen : forall (T : nat) (l : list nat),
             length (flat_map (fun typ1 => map (pair typ1) (seq 0 T)) l)
             = length l * T).
  { intros T l. induction l as [| a l IH]; simpl; [reflexivity |].
    now rewrite length_app, length_map, length_seq, IH. }
  rewrite Hlen, length_seq. simpl. now rewrite Nat.mul_1_r.
Qed.

Lemma list_sum_flat_map {A B} (f : A -> list B) (g : B -> nat) (l : list A) :
  list_sum (map g (flat_map f l)) =
  list_sum (map (fun a => list_sum (map g (f a))) l).
Proof.
  induction l as [| a l IH]; simpl; [reflexivity |].
  now rewrite map_app, list_sum_app, IH.
Qed.

Lemma list_sum_combine_nth (l1 l2 : list nat) :
  length l1 = length l2 ->
  list_sum (map (fun '(a, b) => a * b) (combine l1 l2)) =
  list_sum (map (fun t => nth t l1 0 * nth t l2 0) (seq 0 (length l1))).
Proof.
  revert l2. induction l1 as [| a l1 IH]; intros [| b l2] Hlen;
    simpl in *; try discriminate; [reflexivity |].
  rewrite <- seq_shift, map_map. f_equal. apply IH. lia.
Qed.

Lemma py_index_nth {A} (l : list A) (i : nat) (d : A) :
  i < length l -> py_index l i = OK (nth i l d).
Proof.
  intros Hi. unfold py_index.
  destruct (nth_error l i) as [a |] eqn:Ha.
  - now rewrite (nth_error_nth _ _ d Ha).
  - apply nth_error_None in Ha. lia.
Qed.

Lemma py_index_OK {A} (l : list A) (i : nat) (a : A) :
  py_index l i = OK a <-> nth_error l i = Some a.
Proof.
  unfold py_index. destruct (nth_error l i); split; intros Heq;
    inversion Heq; reflexivity.
Qed.

Lemma wf_model_spec (self : NodeTypeEdgeFeatureGraphCRF) :
  wf_model self = true ->
  length (l_n_states self) = n_types self
  /\ length (l_n_features self) = n_types self
  /\ nrows (a_n_edge_features self) = n_types self
  /\ ncols (a_n_edge_features self) = n_types self
  /\ length (mdata (a_n_edge_features self)) = n_types self * n_types self.
Proof.
  unfold wf_model. rewrite !andb_true_iff, !Nat.eqb_eq. tauto.
Qed.

Lemma edge_feature_count_OK (self : NodeTypeEdgeFeatureGraphCRF) (t1 t2 : nat) :
  wf_model self = true -> t1 < n_types self -> t2 < n_types self ->
  edge_feature_count self t1 t2 = OK (mget 0 (a_n_edge_features self) t1 t2).
Proof.
  intros Hwf H1 H2. apply wf_model_spec in Hwf as (_ & _ & Hr & Hc & _).
  unfold edge_feature_count. rewrite Hr, Hc.
  apply Nat.ltb_lt in H1, H2. now rewrite H1, H2.
Qed.

(** *** Machine integers *)

Lemma list_sum_cons (a : nat) (l : list nat) :
  list_sum (a :: l) = a + list_sum l.
Proof. reflexivity. Qed.

Lemma wrap64_small (z : Z) : (- 2 ^ 63 <= z < 2 ^ 63)%Z -> wrap64 z = z.
Proof.
  intros Hz. unfold wrap64.
  change (2 ^ 63)%Z with 9223372036854775808%Z in *.
  change (2 ^ 64)%Z with 18446744073709551616%Z.
  rewrite Z.mod_small by lia. lia.
Qed.

Lemma wrap64_of_nat (n : nat) : below_int64 n = true -> wrap64 (Z.of_nat n) = Z.of_nat n.
Proof.
  unfold below_int64. intros Hn. apply Z.ltb_lt in Hn.
  apply wrap64_small.
  change (2 ^ 63)%Z with 9223372036854775808%Z in *. lia.
Qed.

Lemma wrap64_shift (z k : Z) : wrap64 (z + k * 2 ^ 64) = wrap64 z.
Proof.
  unfold wrap64.
  replace (z + k * 2 ^ 64 + 2 ^ 63)%Z with (z + 2 ^ 63 + k * 2 ^ 64)%Z by ring.
  now rewrite Z_mod_plus_full.
Qed.

Lemma wrap64_congr (z : Z) : exists k, wrap64 z = (z + k * 2 ^ 64)%Z.
Proof.
  exists (- ((z + 2 ^ 63) / 2 ^ 64))%Z. unfold wrap64.
  rewrite Z.mod_eq by (change (2 ^ 64)%Z with 18446744073709551616%Z; lia).
  ring.
Qed.

Lemma wrap64_add_l (a b : Z) : wrap64 (wrap64 a + b) = wrap64 (a + b).
Proof.
  destruct (wrap64_congr a) as [k ->].
  replace (a + k * 2 ^ 64 + b)%Z with (a + b + k * 2 ^ 64)%Z by ring.
  apply wrap64_shift.
Qed.

Lemma wrap64_add_r (a b : Z) : wrap64 (a + wrap64 b) = wrap64 (a + b).
Proof. now rewrite Z.add_comm, wrap64_add_l, Z.add_comm. Qed.

Lemma wrap64_mul_l (a b : Z) : wrap64 (wrap64 a * b) = wrap64 (a * b).
Proof.
  destruct (wrap64_congr a) as [k ->].
  replace ((a + k * 2 ^ 64) * b)%Z with (a * b + (k * b) * 2 ^ 64)%Z by ring.
  apply wrap64_shift.
Qed.

(** The [int64] product of a count with two state counts. *)
Lemma int64_product (a s1 s2 : nat) :
  int64_mul (int64_mul (Z.of_nat a) (Z.of_nat s1)) (Z.of_nat s2)
  = wrap64 (Z.of_nat (a * s1 * s2)).
Proof.
  unfold int64_mul. now rewrite wrap64_mul_l, !Nat2Z.inj_mul.
Qed.

(** The [int64] sum of an array of counts is the sum of the counts,
    wrapped. *)
Lemma int64_sum (l : list nat) (acc : Z) :
  fold_left int64_add (map Z.of_nat l) (wrap64 acc)
  = wrap64 (acc + Z.of_nat (list_sum l)).
Proof.
  revert acc. induction l as [| n l IH]; intros acc.
  - simpl. now rewrite Z.add_0_r.
  - cbn [map fold_left]. unfold int64_add at 2.
    rewrite wrap64_add_l, IH, list_sum_cons, Nat2Z.inj_add.
    f_equal. ring.
Qed.

(** A loop that only adds to an [int64] counter. *)
Lemma for_each_int64_sum {A} (body : Z -> A -> result Z) (g : A -> nat)
  (l : list A) (acc : Z) :
  (forall z a, In a l ->
               body z a = OK (int64_add z (wrap64 (Z.of_nat (g a))))) ->
  for_each body l (wrap64 acc)
  = OK (wrap64 (acc + Z.of_nat (list_sum (map g l)))).
Proof.
  revert acc. induction l as [| a l IH]; intros acc Hbody.
  - simpl. now rewrite Z.add_0_r.
  - cbn [for_each map]. rewrite Hbody by now left. rewrite bind_OK.
    unfold int64_add. rewrite wrap64_add_l, wrap64_add_r, IH.
    + rewrite list_sum_cons, Nat2Z.inj_add. do 2 f_equal. ring.
    + intros z b Hb. apply Hbody. now right.
Qed.

(** The total of the edge-feature counts, when it is below [2^63]. *)
Lemma n_edge_features_fits (self : NodeTypeEdgeFeatureGraphCRF) :
  below_int64 (list_sum (mdata (a_n_edge_features self))) = true ->
  _n_edge_features self
  = Z.of_nat (list_sum (mdata (a_n_edge_features self)))
  /\ np_dim (_n_edge_features self)
     = OK (list_sum (mdata (a_n_edge_features self))).
Proof.
  intros Hfit.
  assert (Heq : _n_edge_features self
                = Z.of_nat (list_sum (mdata (a_n_edge_features self)))).
  { unfold _n_edge_features. change 0%Z with (wrap64 0) at 1.
    rewrite int64_sum, Z.add_0_l. now apply wrap64_of_nat. }
  split; [exact Heq |]. unfold np_dim. rewrite Heq.
  replace (Z.of_nat _ <? 0)%Z with false by (symmetry; apply Z.ltb_ge; lia).
  now rewrite Nat2Z.id.
Qed.

(** The sizes that [_set_size_joint_feature] sets for a model with at
    least one type: the pairwise size and the total are the sums of the
    layout, wrapped to [int64]. *)
Lemma set_size_joint_feature_nonempty (self : NodeTypeEdgeFeatureGraphCRF) :
  wf_model self = true ->
  l_n_features self <> [] ->
  _set_size_joint_feature self =
  OK (Some (unary_size (n_types self) (l_n_states self) (l_n_features self),
            wrap64 (Z.of_nat (pairwise_size (n_types self) (l_n_states self)
                                            (a_n_edge_features self))),
            wrap64 (Z.of_nat
                      (unary_size (n_types self) (l_n_states self)
                                  (l_n_features self)
                       + pairwise_size (n_types self) (l_n_states self)
                                       (a_n_edge_features self))))).
Proof.
  intros Hwf Hne. pose proof (wf_model_spec self Hwf) as (Hs & Hf & _).
  set (g := fun '(t1, t2) =>
              mget 0 (a_n_edge_features self) t1 t2
              * nth t1 (l_n_states self) 0 * nth t2 (l_n_states self) 0).
  assert (Hp : list_sum (map g (_iter_type_pairs self))
               = pairwise_size (n_types self) (l_n_states self)
                               (a_n_edge_features self)).
  { unfold pairwise_size, _iter_type_pairs. rewrite list_sum_flat_map.
    apply f_equal, map_ext. intros t1. now rewrite map_map. }
  assert (Hu : list_sum (map (fun '(a, b) => a * b)
                             (combine (l_n_states self) (l_n_features self)))
               = unary_size (n_types self) (l_n_states self)
                            (l_n_features self)).
  { rewrite list_sum_combine_nth by congruence. now rewrite Hs. }
  unfold _set_size_joint_feature.
  assert (Htruthy : truthy (l_n_features self) = true)
    by (destruct (l_n_features self); [congruence | reflexivity]).
  rewrite Htruthy. change 0%Z with (wrap64 0) at 1.
  rewrite (for_each_int64_sum _ g).
  - rewrite bind_OK, Z.add_0_l, Hp, Hu. unfold int64_add.
    now rewrite wrap64_add_r, <- Nat2Z.inj_add.
  - intros n [t1 t2] Hin. apply in_iter_type_pairs in Hin as [H1 H2].
    rewrite edge_feature_count_OK by assumption. rewrite bind_OK.
    rewrite !(py_index_nth _ _ 0) by lia. rewrite !bind_OK.
    now rewrite int64_product.
Qed.

Lemma layout_fits_spec (self : NodeTypeEdgeFeatureGraphCRF) :
  layout_fits self = true ->
  below_int64 (list_sum (mdata (a_n_edge_features self))) = true
  /\ below_int64 (unary_size (n_types self) (l_n_states self)
                             (l_n_features self)
                  + pairwise_size (n_types self) (l_n_states self)
                                  (a_n_edge_features self)) = true.
Proof.
  unfold layout_fits. rewrite !andb_true_iff. tauto.
Qed.

Lemma below_int64_le (n m : nat) :
  n <= m -> below_int64 m = true -> below_int64 n = true.
Proof.
  unfold below_int64. intros Hle Hm. apply Z.ltb_lt in Hm. apply Z.ltb_lt. lia.
Qed.

Lemma size_attributes_nonempty (self : NodeTypeEdgeFeatureGraphCRF) :
  wf_model self = true ->
  l_n_features self <> [] ->
  below_int64 (unary_size (n_types self) (l_n_states self) (l_n_features self)
               + pairwise_size (n_types self) (l_n_states self)
                               (a_n_edge_features self)) = true ->
  size_unaries self
  = OK (unary_size (n_types self) (l_n_states self) (l_n_features self))
  /\ size_pairwise self
     = OK (Z.of_nat (pairwise_size (n_types self) (l_n_states self)
                                   (a_n_edge_features self)))
  /\ size_joint_feature self
     = OK (Z.of_nat
             (unary_size (n_types self) (l_n_states self) (l_n_features self)
              + pairwise_size (n_types self) (l_n_states self)
                              (a_n_edge_features self))).
Proof.
  intros Hwf Hne Hfit.
  unfold size_unaries, size_pairwise, size_joint_feature, size_attr.
  rewrite (set_size_joint_feature_nonempty self Hwf Hne), bind_OK.
  rewrite (wrap64_of_nat _ Hfit).
  rewrite (wrap64_of_nat (pairwise_size _ _ _))
    by (apply (below_int64_le _ _ (Nat.le_add_l _ _) Hfit)).
  repeat split.
Qed.

(** C2, as amended: when the list of per-type feature counts is not
    empty, the state counts and the edge-feature counts are below [2^63]
    and so is the total size, the layout computation yields
    [unary_size = sum_t states[t] * features[t]],
    [pairwise_size = sum_(t1,t2) edgefeat[t1,t2] * states[t1] * states[t2]]
    over the ordered pairs in row-major order, and their sum as the total;
    for 2 types with states (2,3), features (3,2) and edge-feature matrix
    [[1,2],[2,0]] the sizes are 12, 28 and 40. *)
Theorem set_size_joint_feature_sizes :
  (forall self : NodeTypeEdgeFeatureGraphCRF,
      wf_model self = true ->
      l_n_features self <> [] ->
      forallb below_int64 (l_n_states self) = true ->
      forallb below_int64 (mdata (a_n_edge_features self)) = true ->
      let u := unary_size (n_types self) (l_n_states self) (l_n_features self) in
      let p := pairwise_size (n_types self) (l_n_states self)
                             (a_n_edge_features self) in
      below_int64 (u + p) = true ->
      _set_size_joint_feature self
      = OK (Some (u, Z.of_nat p, Z.of_nat (u + p)))
      /\ size_unaries self = OK u
      /\ size_pairwise self = OK (Z.of_nat p)
      /\ size_joint_feature self = OK (Z.of_nat (u + p)))
  /\ _set_size_joint_feature example_model = OK (Some (12, 28%Z, 40%Z)).
Proof.
  split; [| reflexivity].
  intros self Hwf Hne _ _ u p Hfit.
  pose proof (size_attributes_nonempty self Hwf Hne Hfit) as (Hu & Hp & Hj).
  split; [| repeat split; assumption].
  unfold size_unaries, size_pairwise, size_joint_feature, size_attr in *.
  destruct (_set_size_joint_feature self) as [e | [[[u' p'] j'] |]];
    try discriminate.
  cbn in Hu, Hp, Hj. inversion Hu. inversion Hp. inversion Hj. reflexivity.
Qed.

Lemma set_size_joint_feature_sizes_witness :
  _set_size_joint_feature example_model
  = OK (Some (unary_size 2 [2; 3] [3; 2],
              Z.of_nat (pairwise_size 2 [2; 3] (Matrix 2 2 [1; 2; 2; 0])),
              Z.of_nat (unary_size 2 [2; 3] [3; 2]
                        + pairwise_size 2 [2; 3] (Matrix 2 2 [1; 2; 2; 0])))).
Proof.
  apply (proj1 set_size_joint_feature_sizes example_model).
  - reflexivity.
  - discriminate.
  - reflexivity.
  - reflexivity.
  - reflexivity.
Defined.

(** C2, as stated, fails for a model without types: the guard on the
    empty list of feature counts leaves the sizes unset. *)
Lemma set_size_joint_feature_no_types :
  wf_model empty_model = true
  /\ layout_fits empty_model = true
  /\ _set_size_joint_feature empty_model = OK None
  /\ _set_size_joint_feature empty_model <>
     OK (Some (unary_size 0 [] [],
               Z.of_nat (pairwise_size 0 [] (Matrix 0 0 [])),
               Z.of_nat (unary_size 0 [] []
                         + pairwise_size 0 [] (Matrix 0 0 [])))).
Proof.
  repeat split. discriminate.
Qed.

Lemma pairwise_size_beyond_int64 :
  Z.of_nat (pairwise_size 1 [2 ^ 21] (Matrix 1 1 [2 ^ 22])) = (2 ^ 64)%Z.
Proof.
  unfold pairwise_size, mget. cbn [seq map list_sum fold_right nth ncols mdata].
  change (0 * 1 + 0) with 0. cbv iota.
  rewrite !Nat.add_0_r. rewrite !Nat2Z.inj_mul, !Nat2Z.inj_pow. reflexivity.
Qed.

(** C2, as stated, fails as well beyond the [int64] range: for one type
    of [2^21] states and [2^22] edge features the pairwise size,
    [2^22 * 2^21 * 2^21 = 2^64], wraps around to zero. *)
Lemma set_size_joint_feature_wraps :
  let self := CRF 1 [2 ^ 21] [1] (Matrix 1 1 [2 ^ 22]) in
  Z.of_nat (pairwise_size 1 [2 ^ 21] (Matrix 1 1 [2 ^ 22])) = (2 ^ 64)%Z
  /\ size_pairwise self = OK 0%Z
  /\ size_joint_feature self = OK (2 ^ 21)%Z.
Proof.
  intros self.
  pose proof pairwise_size_beyond_int64 as Hp.
  assert (Hu : unary_size 1 [2 ^ 21] [1] = 2 ^ 21).
  { unfold unary_size. cbn [seq map list_sum fold_right nth].
    now rewrite Nat.mul_1_r, Nat.add_0_r. }
  split; [exact Hp |].
  assert (Hwf : wf_model self = true) by reflexivity.
  assert (Hne : l_n_features self <> []) by discriminate.
  unfold size_pairwise, size_joint_feature, size_attr.
  rewrite (set_size_joint_feature_nonempty self Hwf Hne), bind_OK.
  cbn [n_types l_n_states l_n_features a_n_edge_features self fst snd].
  rewrite Nat2Z.inj_add, Hp, Hu, Nat2Z.inj_pow. split; reflexivity.
Qed.

(** ** Matrices *)

Section MatrixFacts.

Context {A : Type}.
Variable d : A.

Lemma length_flat_map_const {B} (f : B -> list A) (c : nat) (l : list B) :
  (forall b, length (f b) = c) -> length (flat_map f l) = length l * c.
Proof.
  intros Hf. induction l as [| b l IH]; simpl; [reflexivity |].
  now rewrite length_app, Hf, IH.
Qed.

Lemma length_mk_matrix (r c : nat) (f : nat -> nat -> A) :
  length (mdata (mk_matrix r c f)) = r * c.
Proof.
  simpl. rewrite (length_flat_map_const _ c) by
    (intros i; now rewrite length_map, length_seq).
  now rewrite length_seq.
Qed.

Lemma wf_mk_matrix (r c : nat) (f : nat -> nat -> A) :
  wf_matrix (mk_matrix r c f).
Proof. apply length_mk_matrix. Qed.

Lemma nth_rows (f : nat -> nat -> A) (c r s i j : nat) :
  i < r -> j < c ->
  nth (i * c + j) (flat_map (fun i => map (f i) (seq 0 c)) (seq s r)) d
  = f (s + i) j.
Proof.
  revert s i. induction r as [| r IH]; intros s i Hi Hj; [lia |].
  simpl. destruct i as [| i].
  - simpl. rewrite app_nth1 by now rewrite length_map, length_seq.
    rewrite (nth_indep _ d (f s 0)) by now rewrite length_map, length_seq.
    rewrite map_nth, seq_nth by assumption. now rewrite Nat.add_0_r.
  - rewrite app_nth2; rewrite length_map, length_seq; [| simpl; lia].
    replace (S i * c + j - c) with (i * c + j) by (simpl; lia).
    rewrite IH by lia. f_equal. lia.
Qed.

Lemma mget_mk_matrix (r c : nat) (f : nat -> nat -> A) (i j : nat) :
  i < r -> j < c -> mget d (mk_matrix r c f) i j = f i j.
Proof.
  intros Hi Hj. unfold mget. simpl. now rewrite nth_rows.
Qed.

Lemma flat_map_ext_in' {B} (f g : B -> list A) (l : list B) :
  (forall b, In b l -> f b = g b) -> flat_map f l = flat_map g l.
Proof.
  induction l as [| b l IH]; intros Hfg; simpl; [reflexivity |].
  rewrite Hfg by now left. f_equal. apply IH. intros b' Hb'. apply Hfg.
  now right.
Qed.

Lemma mk_matrix_ext (r c : nat) (f g : nat -> nat -> A) :
  (forall i j, i < r -> j < c -> f i j = g i j) ->
  mk_matrix r c f = mk_matrix r c g.
Proof.
  intros Hfg. unfold mk_matrix. f_equal.
  apply flat_map_ext_in'. intros i Hi. apply in_seq in Hi.
  apply map_ext_in. intros j Hj. apply in_seq in Hj.
  apply Hfg; lia.
Qed.

(** A matrix is determined by its shape and its entries. *)
Lemma matrix_ext (a b : matrix A) :
  wf_matrix a -> wf_matrix b ->
  nrows a = nrows b -> ncols a = ncols b ->
  (forall i j, i < nrows a -> j < ncols a -> mget d a i j = mget d b i j) ->
  a = b.
Proof.
  destruct a as [ra ca da], b as [rb cb db]. unfold wf_matrix, mget. simpl.
  intros Ha Hb <- <- Hget. f_equal.
  apply (nth_ext _ _ d d); [congruence |].
  intros n Hn. rewrite Ha in Hn.
  assert (Hc : 0 < ca) by (destruct ca; [lia | lia]).
  rewrite (Nat.div_mod_eq n ca), (Nat.mul_comm ca).
  apply Hget.
  - apply Nat.Div0.div_lt_upper_bound. lia.
  - now apply Nat.mod_upper_bound, Nat.neq_0_lt_0.
Qed.

Lemma mk_matrix_mget (a : matrix A) :
  wf_matrix a -> mk_matrix (nrows a) (ncols a) (mget d a) = a.
Proof.
  intros Ha. apply matrix_ext; try reflexivity; [apply wf_mk_matrix | assumption |].
  intros i j Hi Hj. simpl in Hi, Hj. now rewrite mget_mk_matrix.
Qed.

End MatrixFacts.

(** ** Block ravel *)

Lemma split_map {A B} (l : list (A * B)) : split l = (map fst l, map snd l).
Proof.
  induction l as [| [a b] l IH]; simpl; [reflexivity | now rewrite IH].
Qed.

Lemma combine_tl_nth (l : list nat) :
  combine l (tl l) =
  map (fun k => (nth k l 0, nth (S k) l 0)) (seq 0 (length l - 1)).
Proof.
  induction l as [| a [| b l] IH]; [reflexivity | reflexivity |].
  change (combine (a :: b :: l) (tl (a :: b :: l)))
    with ((a, b) :: combine (b :: l) (tl (b :: l))).
  rewrite IH. simpl length.
  replace (S (S (length l)) - 1) with (S (length l)) by lia.
  replace (S (length l) - 1) with (length l) by lia.
  change (seq 0 (S (length l))) with (0 :: seq 1 (length l)).
  rewrite <- seq_shift, !map_cons, map_map. reflexivity.
Qed.

Lemma combine_map_map {A B C} (f : A -> B) (g : A -> C) (l : list A) :
  combine (map f l) (map g l) = map (fun a => (f a, g a)) l.
Proof.
  induction l as [| a l IH]; simpl; [reflexivity | now rewrite IH].
Qed.

(** The indices of an axis of length [n] that lie between two cut points
    are those of the clipped slice. *)
Lemma filter_between (lo hi n : nat) :
  filter (fun idx => (lo <=? idx) && (idx <? hi)) (seq 0 n) =
  seq (Nat.min lo n) (Nat.min hi n - Nat.min lo n).
Proof.
  induction n as [| n IH]; [now rewrite !Nat.min_0_r |].
  rewrite seq_S, filter_app, IH. simpl.
  destruct (lo <=? n) eqn:Hlo; [apply Nat.leb_le in Hlo | apply Nat.leb_gt in Hlo];
    (destruct (n <? hi) eqn:Hhi;
     [apply Nat.ltb_lt in Hhi | apply Nat.ltb_ge in Hhi]); simpl.
  - replace (Nat.min lo n) with lo by lia.
    replace (Nat.min lo (S n)) with lo by lia.
    replace (Nat.min hi n) with n by lia.
    replace (Nat.min hi (S n)) with (S n) by lia.
    replace (S n - lo) with (S (n - lo)) by lia.
    rewrite seq_S. do 2 f_equal. lia.
  - rewrite app_nil_r. f_equal; lia.
  - rewrite app_nil_r.
    replace (Nat.min hi n - Nat.min lo n) with 0 by lia.
    replace (Nat.min hi (S n) - Nat.min lo (S n)) with 0 by lia.
    reflexivity.
  - rewrite app_nil_r.
    replace (Nat.min hi n - Nat.min lo n) with 0 by lia.
    replace (Nat.min hi (S n) - Nat.min lo (S n)) with 0 by lia.
    reflexivity.
Qed.

Lemma seq_from (s n : nat) : seq s n = map (Nat.add s) (seq 0 n).
Proof.
  revert s. induction n as [| n IH]; intros s; simpl; [reflexivity |].
  rewrite Nat.add_0_r. f_equal. rewrite IH, <- (seq_shift n 0), map_map.
  apply map_ext. intros k. lia.
Qed.

Lemma flat_map_map {A B C} (f : A -> B) (g : B -> list C) (l : list A) :
  flat_map g (map f l) = flat_map (fun a => g (f a)) l.
Proof.
  induction l as [| a l IH]; simpl; [reflexivity | now rewrite IH].
Qed.

Lemma concat_map_flat_map {A B} (f : A -> list B) (l : list A) :
  concat (map f l) = flat_map f l.
Proof. symmetry. apply flat_map_concat_map. Qed.

Lemma hstack_OK {A} (l : list (list A)) : l <> [] -> hstack l = OK (concat l).
Proof. destruct l; [congruence | reflexivity]. Qed.

Section BlockRavel.

Context {R : Type} `{Scalar R}.

(** The ravel of a slice holds the entries of the diagonal sub-matrix
    cut out by its bounds. *)
Lemma ravel_slice2 (a : matrix R) (li lj : list nat) (k : nat) :
  ravel (slice2 zero a (nth k li 0) (nth (S k) li 0)
                       (nth k lj 0) (nth (S k) lj 0))
  = diagonal_block a li lj k.
Proof.
  unfold ravel, slice2, diagonal_block, in_block, mk_matrix. cbn [mdata].
  rewrite !filter_between.
  rewrite (seq_from (Nat.min (nth k li 0) (nrows a))), flat_map_map.
  apply flat_map_ext. intros i.
  now rewrite (seq_from (Nat.min (nth k lj 0) (ncols a))), map_map.
Qed.

Lemma block_ravel_blocks (a : matrix R) (lij : list (nat * nat)) :
  2 <= length lij -> block_ravel a lij = OK (diagonal_blocks a lij).
Proof.
  intros Hlen. unfold block_ravel.
  destruct lij as [| p lij']; [simpl in Hlen; lia |].
  remember (p :: lij') as lij eqn:Hlij.
  rewrite split_map, bind_OK. cbv beta iota.
  rewrite (combine_tl_nth (map fst lij)), (combine_tl_nth (map snd lij)).
  rewrite !length_map, combine_map_map, map_map.
  unfold diagonal_blocks.
  rewrite hstack_OK.
  - rewrite concat_map_flat_map. f_equal.
    apply flat_map_ext. intros k. apply ravel_slice2.
  - destruct (length lij - 1) as [| n] eqn:Hn; [lia | discriminate].
Qed.

End BlockRavel.


(** C3, as amended: for every matrix [a] and every list of at least two
    cut-point pairs (at least one block), [block_ravel a lij] is the
    concatenation, in block order, of the row-major flattenings of exactly
    the diagonal sub-matrices: the entries whose row lies in row block [k]
    and whose column lies in column block [k]. *)
Theorem block_ravel_diagonal_blocks :
  forall (R : Type) (SR : Scalar R) (a : matrix R) (lij : list (nat * nat)),
    2 <= length lij ->
    block_ravel a lij = OK (diagonal_blocks a lij).
Proof.
  intros R SR a lij Hlen. now apply block_ravel_blocks.
Qed.

Lemma block_ravel_diagonal_blocks_witness :
  block_ravel example_matrix example_cuts = OK [1; 2; 7; 8; 11; 12]%Z.
Proof.
  rewrite (block_ravel_diagonal_blocks Z Scalar_Z example_matrix example_cuts).
  - reflexivity.
  - simpl. lia.
Defined.

(** C3, as stated, fails for a single cut-point pair, which describes no
    row block and no column block: the concatenation of no block is the
    empty vector, and [np.hstack] refuses an empty sequence. *)
Lemma block_ravel_no_block :
  diagonal_blocks example_matrix [(0, 0)] = []
  /\ block_ravel example_matrix [(0, 0)]
     = raise (ValueError
                (Numpy_value_error "need at least one array to concatenate"))
  /\ block_ravel example_matrix [(0, 0)]
     <> OK (diagonal_blocks example_matrix [(0, 0)]).
Proof.
  repeat split. discriminate.
Qed.

(** ** Instance validation *)

Lemma nth_error_combine {A B} (l1 : list A) (l2 : list B) (k : nat) (a : A)
  (b : B) :
  nth_error (combine l1 l2) k = Some (a, b) <->
  nth_error l1 k = Some a /\ nth_error l2 k = Some b.
Proof.
  revert l2 k. induction l1 as [| a1 l1 IH]; intros [| b1 l2] [| k]; simpl;
    try (split; [discriminate | intros [H1 H2]; discriminate]).
  - split; [intros Heq; inversion Heq; auto | intros [H1 H2]; congruence].
  - apply IH.
Qed.

Lemma in_firstn_nth_error {A} (l : list A) (k : nat) (a : A) :
  In a (firstn k l) -> exists j, j < k /\ nth_error l j = Some a.
Proof.
  revert k. induction l as [| b l IH]; intros [| k] Hin; simpl in *;
    try contradiction.
  destruct Hin as [-> | Hin].
  - exists 0. split; [lia | reflexivity].
  - destruct (IH k Hin) as [j [Hj Hnth]]. exists (S j). split; [lia | exact Hnth].
Qed.

Lemma nth_error_firstn_skipn {A} (l : list A) (k : nat) (a : A) :
  nth_error l k = Some a -> l = firstn k l ++ a :: skipn (S k) l.
Proof.
  revert k. induction l as [| b l IH]; intros [| k] Hnth; simpl in *;
    try discriminate.
  - now inversion Hnth.
  - f_equal. now apply IH.
Qed.

Section Validation.

Context {R : Type} `{Scalar R}.
Variable self : NodeTypeEdgeFeatureGraphCRF.
Variable cx : instance R -> result unit.

(** Validation succeeds exactly when the two counts are right, the
    validator of the base class accepts, and both loops pass. *)
Lemma check_size_x_OK (x : instance R) :
  _check_size_x self cx x = OK tt <->
  length (x_edges x) = n_types self ^ 2
  /\ length (x_edge_features x) = n_types self ^ 2
  /\ cx x = OK tt
  /\ (forall p, In p (combine (x_edges x) (x_edge_features x)) ->
                check_edge_pair (fst p) (snd p) = OK tt)
  /\ (forall p, In p (_iter_type_pairs self) ->
                check_edge_feature_size self x (fst p) (snd p) = OK tt).
Proof.
  unfold _check_size_x, _get_edges, _get_edge_features.
  destruct (length (x_edges x) =? n_types self ^ 2) eqn:He;
    [apply Nat.eqb_eq in He | apply Nat.eqb_neq in He]; cbn -[Nat.pow Nat.eqb];
    [| split; [discriminate | tauto]].
  destruct (length (x_edge_features x) =? n_types self ^ 2) eqn:Hf;
    [apply Nat.eqb_eq in Hf | apply Nat.eqb_neq in Hf]; cbn -[Nat.pow Nat.eqb];
    [| split; [discriminate | tauto]].
  destruct (cx x) as [e | []] eqn:Hcx; cbn -[Nat.pow Nat.eqb];
    [split; [discriminate | intros (_ & _ & Habs & _); discriminate] |].
  pose proof (for_each_unit_OK
                (fun p : option (matrix Z) * option (ndarray R) =>
                   let '(edges, edge_features) := p in
                   check_edge_pair edges edge_features)
                (combine (x_edges x) (x_edge_features x))) as H1.
  pose proof (for_each_unit_OK
                (fun p : nat * nat =>
                   let '(typ1, typ2) := p in
                   check_edge_feature_size self x typ1 typ2)
                (_iter_type_pairs self)) as H2.
  cbv beta in H1, H2.
  destruct (for_each _ (combine _ _) tt) as [e | []] eqn:Hloop1; cbn -[Nat.pow Nat.eqb].
  - split; [discriminate |].
    intros (_ & _ & _ & Hp & _).
    assert (Habs : @inl exn unit e = OK tt).
    { apply H1. intros [oe oef] Hin. exact (Hp _ Hin). }
    discriminate.
  - rewrite H2. split.
    + intros Hq. repeat split; try assumption.
      * intros [oe oef] Hin. exact (proj1 H1 eq_refl _ Hin).
      * intros [t1 t2] Hin. exact (Hq _ Hin).
    + intros (_ & _ & _ & _ & Hq) [t1 t2] Hin. exact (Hq _ Hin).
Qed.

(** The error of validation is that of the first pair that fails the
    first loop, when the checks before the loop pass. *)
Lemma check_size_x_first_pair (x : instance R) (k : nat)
  (oe : option (matrix Z)) (oef : option (ndarray R)) (e : exn) :
  length (x_edges x) = n_types self ^ 2 ->
  length (x_edge_features x) = n_types self ^ 2 ->
  cx x = OK tt ->
  nth_error (x_edges x) k = Some oe ->
  nth_error (x_edge_features x) k = Some oef ->
  (forall p, In p (firstn k (combine (x_edges x) (x_edge_features x))) ->
             check_edge_pair (fst p) (snd p) = OK tt) ->
  check_edge_pair oe oef = inl e ->
  _check_size_x self cx x = inl e.
Proof.
  intros He Hf Hcx Hoe Hoef Hbefore Hfail.
  unfold _check_size_x, _get_edges, _get_edge_features.
  rewrite He, Nat.eqb_refl. cbn -[Nat.pow Nat.eqb].
  rewrite Hf, Nat.eqb_refl. cbn -[Nat.pow Nat.eqb].
  rewrite Hcx. cbn -[Nat.pow Nat.eqb].
  assert (Hk : nth_error (combine (x_edges x) (x_edge_features x)) k
               = Some (oe, oef)) by now apply nth_error_combine.
  rewrite (nth_error_firstn_skipn _ _ _ Hk).
  rewrite (for_each_unit_first
             (fun p : option (matrix Z) * option (ndarray R) =>
                let '(edges, edge_features) := p in
                check_edge_pair edges edge_features) _ _ (oe, oef) e).
  - reflexivity.
  - intros [oe' oef'] Hin. exact (Hbefore _ Hin).
  - exact Hfail.
Qed.

Lemma check_edge_pair_present (e : matrix Z) (ef : ndarray R) :
  check_edge_pair (Some e) (Some ef) = OK tt <->
  ndim ef = 2 /\ len ef = OK (nrows e).
Proof.
  unfold check_edge_pair.
  destruct (ndim ef =? 2) eqn:Hd;
    [apply Nat.eqb_eq in Hd | apply Nat.eqb_neq in Hd]; simpl;
    [| split; [discriminate | tauto]].
  destruct (len ef) as [err | n]; simpl;
    [split; [discriminate | intros [_ Habs]; discriminate] |].
  destruct (nrows e =? n) eqn:Hn;
    [apply Nat.eqb_eq in Hn | apply Nat.eqb_neq in Hn]; simpl.
  - subst n. tauto.
  - split; [discriminate |]. intros [_ Heq]. inversion Heq. congruence.
Qed.

End Validation.

(** C7: for every instance and every type pair (slot [k] of the edge
    blocks and of the edge-feature blocks), the pair check fails with an
    error that tells which side was empty when exactly one of the two
    blocks is [None], passes when both are [None], and when both are
    present passes exactly when the edge-feature block is 2-dimensional
    with the row count of the edge block; validation fails whenever the
    pair check fails, and with the error of the pair when the pair is the
    first failure. *)
Theorem check_size_x_edge_pairing :
  forall (R : Type) (SR : Scalar R) (self : NodeTypeEdgeFeatureGraphCRF)
         (cx : instance R -> result unit) (x : instance R) (k : nat)
         (oe : option (matrix Z)) (oef : option (ndarray R)),
    nth_error (x_edges x) k = Some oe ->
    nth_error (x_edge_features x) k = Some oef ->
    match oe, oef with
    | None, None => check_edge_pair oe oef = OK tt
    | None, Some _ =>
        check_edge_pair oe oef
        = raise (ValueError Empty_edge_array_but_non_empty_edge_feature_array)
    | Some _, None =>
        check_edge_pair oe oef
        = raise (ValueError Empty_edge_feature_array_but_non_empty_edge_array)
    | Some e, Some ef =>
        check_edge_pair oe oef = OK tt <->
        ndim ef = 2 /\ len ef = OK (nrows e)
    end
    /\ Empty_edge_array_but_non_empty_edge_feature_array
       <> Empty_edge_feature_array_but_non_empty_edge_array
    /\ (check_edge_pair oe oef <> OK tt -> raises (_check_size_x self cx x))
    /\ (forall e : exn,
           length (x_edges x) = n_types self ^ 2 ->
           length (x_edge_features x) = n_types self ^ 2 ->
           cx x = OK tt ->
           (forall p, In p (firstn k (combine (x_edges x) (x_edge_features x))) ->
                      check_edge_pair (fst p) (snd p) = OK tt) ->
           check_edge_pair oe oef = inl e ->
           _check_size_x self cx x = inl e).
Proof.
  intros R SR self cx x k oe oef Hoe Hoef. repeat split.
  - destruct oe as [e |], oef as [ef |]; try reflexivity.
    apply check_edge_pair_present.
  - discriminate.
  - intros Hfail. apply not_OK_raises. intros [] Hok.
    apply check_size_x_OK in Hok as (_ & _ & _ & Hpairs & _).
    apply Hfail. apply (Hpairs (oe, oef)).
    apply (nth_error_In _ k). now apply nth_error_combine.
  - intros e He Hf Hcx Hbefore Hfail.
    now apply (check_size_x_first_pair self cx x k oe oef e).
Qed.

Lemma check_size_x_edge_pairing_witness :
  _check_size_x example_model (spec_check_size_x example_model)
    example_instance_missing_features
  = raise (ValueError Empty_edge_feature_array_but_non_empty_edge_array).
Proof.
  apply (proj2 (proj2 (proj2
           (check_size_x_edge_pairing Z Scalar_Z example_model
              (spec_check_size_x example_model)
              example_instance_missing_features 1
              (Some (Matrix 2 2 [0; 0; 1; 0]%Z)) None eq_refl eq_refl)))).
  - reflexivity.
  - reflexivity.
  - reflexivity.
  - intros p [<- | []]. reflexivity.
  - reflexivity.
Defined.

Lemma nth_error_iter_type_pairs (self : NodeTypeEdgeFeatureGraphCRF)
  (t1 t2 : nat) :
  t1 < n_types self -> t2 < n_types self ->
  nth_error (_iter_type_pairs self) (t1 * n_types self + t2) = Some (t1, t2).
Proof.
  intros H1 H2.
  rewrite (nth_error_nth' _ (0, 0)).
  - unfold _iter_type_pairs. now rewrite (nth_rows (0, 0) pair).
  - rewrite length_iter_type_pairs. simpl. nia.
Qed.

Section EdgeFeatureCount.

Context {R : Type} `{Scalar R}.
Variable self : NodeTypeEdgeFeatureGraphCRF.
Variable cx : instance R -> result unit.

Lemma check_edge_feature_size_present (x : instance R) (typ1 typ2 : nat)
  (ef : ndarray R) (c : nat) :
  wf_model self = true ->
  typ1 < n_types self -> typ2 < n_types self ->
  nth_error (x_edge_features x) (typ1 * n_types self + typ2) = Some (Some ef) ->
  shape_at ef 1 = OK c ->
  check_edge_feature_size self x typ1 typ2 =
  if c =? mget 0 (a_n_edge_features self) typ1 typ2
  then OK tt
  else raise (ValueError (Bad_number_of_edge_features typ1 typ2)).
Proof.
  intros Hwf H1 H2 Hef Hc.
  unfold check_edge_feature_size, _get_edge_features_by_type.
  apply py_index_OK in Hef. rewrite Hef. simpl.
  rewrite Hc, edge_feature_count_OK by assumption. simpl.
  now destruct (c =? mget 0 (a_n_edge_features self) typ1 typ2).
Qed.

(** The error of validation is that of the first type pair that fails
    the second loop, when everything before passes. *)
Lemma check_size_x_first_count (x : instance R) (typ1 typ2 : nat) (e : exn) :
  typ1 < n_types self -> typ2 < n_types self ->
  length (x_edges x) = n_types self ^ 2 ->
  length (x_edge_features x) = n_types self ^ 2 ->
  cx x = OK tt ->
  (forall p, In p (combine (x_edges x) (x_edge_features x)) ->
             check_edge_pair (fst p) (snd p) = OK tt) ->
  (forall p, In p (firstn (typ1 * n_types self + typ2) (_iter_type_pairs self)) ->
             check_edge_feature_size self x (fst p) (snd p) = OK tt) ->
  check_edge_feature_size self x typ1 typ2 = inl e ->
  _check_size_x self cx x = inl e.
Proof.
  intros H1 H2 He Hf Hcx Hloop1 Hbefore Hfail.
  unfold _check_size_x, _get_edges, _get_edge_features.
  rewrite He, Nat.eqb_refl. cbn -[Nat.pow Nat.eqb].
  rewrite Hf, Nat.eqb_refl. cbn -[Nat.pow Nat.eqb].
  rewrite Hcx. cbn -[Nat.pow Nat.eqb].
  rewrite (proj2 (for_each_unit_OK
                    (fun p : option (matrix Z) * option (ndarray R) =>
                       let '(edges, edge_features) := p in
                       check_edge_pair edges edge_features) _)).
  - cbn -[Nat.pow Nat.eqb].
    rewrite (nth_error_firstn_skipn _ _ _
               (nth_error_iter_type_pairs self typ1 typ2 H1 H2)).
    apply (for_each_unit_first
             (fun p : nat * nat =>
                let '(t1, t2) := p in check_edge_feature_size self x t1 t2)
             _ _ (typ1, typ2) e).
    + intros [t1 t2] Hin. exact (Hbefore _ Hin).
    + exact Hfail.
  - intros [oe oef] Hin. exact (Hloop1 _ Hin).
Qed.

End EdgeFeatureCount.

(** C8: for every instance in which the edge-feature block of a type
    pair is present with a column count [c], the column check of the pair
    passes when [c] is the declared count and otherwise raises the error
    that names the pair; validation fails whenever [c] differs from the
    declared count, and with the error naming the pair when the pair is
    the first failure. *)
Theorem check_size_x_edge_feature_count :
  forall (R : Type) (SR : Scalar R) (self : NodeTypeEdgeFeatureGraphCRF)
         (cx : instance R -> result unit) (x : instance R)
         (typ1 typ2 : nat) (ef : ndarray R) (c : nat),
    wf_model self = true ->
    typ1 < n_types self -> typ2 < n_types self ->
    nth_error (x_edge_features x) (typ1 * n_types self + typ2) = Some (Some ef) ->
    shape_at ef 1 = OK c ->
    check_edge_feature_size self x typ1 typ2
    = (if c =? mget 0 (a_n_edge_features self) typ1 typ2
       then OK tt
       else raise (ValueError (Bad_number_of_edge_features typ1 typ2)))
    /\ (c <> mget 0 (a_n_edge_features self) typ1 typ2 ->
        raises (_check_size_x self cx x))
    /\ (c <> mget 0 (a_n_edge_features self) typ1 typ2 ->
        length (x_edges x) = n_types self ^ 2 ->
        length (x_edge_features x) = n_types self ^ 2 ->
        cx x = OK tt ->
        (forall p, In p (combine (x_edges x) (x_edge_features x)) ->
                   check_edge_pair (fst p) (snd p) = OK tt) ->
        (forall p, In p (firstn (typ1 * n_types self + typ2)
                                (_iter_type_pairs self)) ->
                   check_edge_feature_size self x (fst p) (snd p) = OK tt) ->
        _check_size_x self cx x
        = raise (ValueError (Bad_number_of_edge_features typ1 typ2))).
Proof.
  intros R SR self cx x typ1 typ2 ef c Hwf H1 H2 Hef Hc.
  pose proof (check_edge_feature_size_present self x typ1 typ2 ef c
                Hwf H1 H2 Hef Hc) as Hcheck.
  split; [exact Hcheck |]. split.
  - intros Hne. apply not_OK_raises. intros [] Hok.
    apply check_size_x_OK in Hok as (_ & _ & _ & _ & Hcounts).
    specialize (Hcounts (typ1, typ2)
                  (proj2 (in_iter_type_pairs self typ1 typ2) (conj H1 H2))).
    simpl in Hcounts. rewrite Hcheck in Hcounts.
    apply Nat.eqb_neq in Hne. rewrite Hne in Hcounts. discriminate.
  - intros Hne He Hf Hcx Hloop1 Hbefore.
    apply (check_size_x_first_count self cx x typ1 typ2); try assumption.
    rewrite Hcheck. apply Nat.eqb_neq in Hne. now rewrite Hne.
Qed.

Lemma check_size_x_edge_feature_count_witness :
  _check_size_x example_model (spec_check_size_x example_model)
    example_instance_bad_columns
  = raise (ValueError (Bad_number_of_edge_features 0 1)).
Proof.
  apply (proj2 (proj2
           (check_size_x_edge_feature_count Z Scalar_Z example_model
              (spec_check_size_x example_model)
              example_instance_bad_columns 0 1
              (NDArray [2; 3] [20; 21; 22; 23; 24; 25]%Z) 3
              eq_refl (le_S 1 1 (le_n 1)) (le_n 2) eq_refl eq_refl))).
  - discriminate.
  - reflexivity.
  - reflexivity.
  - reflexivity.
  - intros p [<- | [<- | [<- | [<- | []]]]]; reflexivity.
  - intros p [<- | []]. reflexivity.
Defined.

(** ** Pairwise potentials *)

(** C6: when the length of the weight vector differs from
    [size_joint_feature], [_get_pairwise_potentials] fails with the error
    of the weight-length check, whatever the instance, the validator of
    the base class, the attributes and the product are: nothing after the
    check is evaluated. *)
Theorem get_pairwise_potentials_checks_w_first :
  forall (R : Type) (SR : Scalar R) (self : NodeTypeEdgeFeatureGraphCRF)
         (cx : instance R -> result unit)
         (n_states n_features n_edge_features : result nat)
         (dot : list (option (ndarray R)) -> matrix R -> result (ndarray R))
         (x : instance R) (w : list R) (size : Z),
    size_joint_feature self = OK size ->
    Z.of_nat (length w) <> size ->
    _check_size_w self w
    = raise (ValueError (Got_w_of_wrong_shape size (length w)))
    /\ _get_pairwise_potentials self cx n_states n_features n_edge_features
         dot x w
       = raise (ValueError (Got_w_of_wrong_shape size (length w))).
Proof.
  intros R SR self cx ns nf nef dot x w size Hsize Hlen.
  assert (Hw : _check_size_w self w
               = raise (ValueError (Got_w_of_wrong_shape size (length w)))).
  { unfold _check_size_w. rewrite Hsize, bind_OK.
    apply Z.eqb_neq in Hlen. now rewrite Hlen. }
  split; [exact Hw |].
  unfold _get_pairwise_potentials. now rewrite Hw.
Qed.

Lemma get_pairwise_potentials_checks_w_first_witness :
  _get_pairwise_potentials example_model (spec_check_size_x example_model)
    (example_attr 5) (example_attr 5) (example_attr 5) example_dot_list
    example_instance [1; 2; 3]%Z
  = raise (ValueError (Got_w_of_wrong_shape 40%Z 3)).
Proof.
  apply (get_pairwise_potentials_checks_w_first Z Scalar_Z example_model
           (spec_check_size_x example_model)
           (example_attr 5) (example_attr 5) (example_attr 5) example_dot_list
           example_instance [1; 2; 3]%Z 40%Z).
  - reflexivity.
  - simpl. lia.
Defined.

(** C5: [_get_pairwise_potentials] never returns the potentials: after
    the product it reads [edge_features.shape] on the Python list of
    edge-feature blocks, which raises, when nothing before did. *)
Theorem get_pairwise_potentials_always_raises :
  forall (R : Type) (SR : Scalar R) (self : NodeTypeEdgeFeatureGraphCRF)
         (cx : instance R -> result unit)
         (n_states n_features n_edge_features : result nat)
         (dot : list (option (ndarray R)) -> matrix R -> result (ndarray R))
         (x : instance R) (w : list R),
    raises (_get_pairwise_potentials self cx n_states n_features
              n_edge_features dot x w)
    /\ _get_pairwise_potentials example_model (spec_check_size_x example_model)
         (example_attr 5) (example_attr 5) (example_attr 5) example_dot_list
         example_instance example_weights
       = raise AttributeError.
Proof.
  intros R SR self cx ns nf nef dot x w. split; [| reflexivity].
  unfold _get_pairwise_potentials.
  do 8 (apply raises_bind_right; intros ?).
  apply raises_bind_left. exists AttributeError. reflexivity.
Qed.

(** ** Joint feature: absent node-feature blocks *)

Lemma length_offsets_from (acc : nat) (l : list nat) :
  length (offsets_from acc l) = length l.
Proof.
  revert acc. induction l as [| n l IH]; intros acc; simpl;
    [reflexivity | now rewrite IH].
Qed.

Lemma length_slices_from (acc : nat) (l : list nat) :
  length (slices_from acc l) = length l.
Proof.
  revert acc. induction l as [| n l IH]; intros acc; simpl;
    [reflexivity | now rewrite IH].
Qed.

Section AbsentNodeFeatures.

Context {R : Type} `{Scalar R}.
Variable self : NodeTypeEdgeFeatureGraphCRF.

(** The loop of the one-hot encoding skips an absent block. *)
Lemma unary_step_None (st : nat * matrix R) (typ_start_index : nat)
  (y_typ : list Z) :
  unary_step st (None, typ_start_index, y_typ) = OK st.
Proof. destruct st as [i_start unary_marginals]. reflexivity. Qed.

(** The loop that stacks the node features reads the shape of the block
    without looking for [None]. *)
Lemma stack_node_step_None (st : nat * matrix R) (sl : nat * nat) :
  stack_node_step st (sl, None) = raise AttributeError.
Proof. destruct st as [i_start m], sl as [f0 f1]. reflexivity. Qed.

Lemma assemble_raises_on_None (x : instance R) (k n_nodes n_edges : nat)
  (unary_marginals pw : matrix R) :
  k < length (l_n_features self) ->
  nth_error (x_node_features x) k = Some None ->
  raises (assemble self x n_nodes n_edges unary_marginals pw).
Proof.
  intros Hk Hnone. unfold assemble, _get_node_features, _get_edge_features.
  rewrite !bind_OK. apply raises_bind_left.
  assert (Hsl : exists sl, nth_error (_a_feature_slice_by_typ self) k = Some sl).
  { destruct (nth_error (_a_feature_slice_by_typ self) k) as [sl |] eqn:Hsl;
      [now exists sl |].
    apply nth_error_None in Hsl. unfold _a_feature_slice_by_typ in Hsl.
    rewrite length_slices_from in Hsl. lia. }
  destruct Hsl as [sl Hsl].
  apply (for_each_raises _ _ _ (sl, None)).
  - apply (nth_error_In _ k). now apply nth_error_combine.
  - intros st. rewrite stack_node_step_None. now exists AttributeError.
Qed.

End AbsentNodeFeatures.

(** C10: for every instance in which the node-feature block of some type
    is [None], [joint_feature] with a discrete labeling raises, whatever
    the validators of the base class answer and so also when the instance
    passes validation: the one-hot loop skips the absent block, and the
    loop that stacks the node features raises on it. *)
Theorem joint_feature_absent_node_features_raises :
  forall (R : Type) (SR : Scalar R) (self : NodeTypeEdgeFeatureGraphCRF)
         (cx : instance R -> result unit)
         (cy : instance R -> labeling R -> result unit)
         (x : instance R) (y : list (list Z)) (k : nat),
    k < length (l_n_features self) ->
    nth_error (x_node_features x) k = Some None ->
    (forall (st : nat * matrix R) (typ_start_index : nat) (y_typ : list Z),
        unary_step st (None, typ_start_index, y_typ) = OK st)
    /\ (forall (st : nat * matrix R) (sl : nat * nat),
           stack_node_step st (sl, None) = raise AttributeError)
    /\ raises (joint_feature self cx cy x (Discrete y)).
Proof.
  intros R SR self cx cy x y k Hk Hnone.
  split; [apply unary_step_None |]. split; [apply stack_node_step_None |].
  unfold joint_feature.
  do 5 (apply raises_bind_right; intros ?).
  apply raises_bind_right. intros [unary_marginals pw].
  now apply (assemble_raises_on_None self x k).
Qed.

Lemma joint_feature_absent_node_features_raises_witness :
  _check_size_x example_model (spec_check_size_x example_model)
    example_instance_absent_type = OK tt
  /\ raises (joint_feature example_model (spec_check_size_x example_model)
               (spec_check_size_y example_model)
               example_instance_absent_type
               (Discrete example_labels_absent_type)).
Proof.
  split; [reflexivity |].
  apply (joint_feature_absent_node_features_raises Z Scalar_Z example_model
           (spec_check_size_x example_model) (spec_check_size_y example_model)
           example_instance_absent_type example_labels_absent_type 1).
  - simpl. lia.
  - reflexivity.
Defined.

(** C1 fails on the code at a valid instance without nodes of one type:
    the instance and its labeling pass the checks, the one-hot encoding
    is built, and the loop that stacks the node features raises
    [AttributeError] instead of returning a vector of length 40. *)
Theorem joint_feature_absent_type_AttributeError :
  wf_model example_model = true
  /\ layout_fits example_model = true
  /\ valid_nodes example_model example_instance_absent_type = true
  /\ valid_edges example_model example_instance_absent_type = true
  /\ valid_edge_features example_model example_instance_absent_type = true
  /\ valid_labels example_model example_instance_absent_type
       example_labels_absent_type = true
  /\ _check_size_x example_model (spec_check_size_x example_model)
       example_instance_absent_type = OK tt
  /\ spec_check_size_y example_model example_instance_absent_type
       (Discrete example_labels_absent_type) = OK tt
  /\ (exists um_pw,
         marginals example_model example_instance_absent_type
           (Discrete example_labels_absent_type) 2 1 = OK um_pw)
  /\ size_joint_feature example_model = OK 40%Z
  /\ joint_feature example_model (spec_check_size_x example_model)
       (spec_check_size_y example_model) example_instance_absent_type
       (Discrete example_labels_absent_type)
     = raise AttributeError.
Proof.
  repeat split. eexists. vm_compute. reflexivity.
Qed.

(** ** One-hot marginals *)

Lemma mapM_map {A B} (f : A -> result B) (g : A -> B) (l : list A) :
  (forall a, In a l -> f a = OK (g a)) -> mapM f l = OK (map g l).
Proof.
  induction l as [| a l IH]; intros Hf; simpl; [reflexivity |].
  rewrite Hf by now left. simpl. rewrite IH; [reflexivity |].
  intros b Hb. apply Hf. now right.
Qed.

Lemma existsb_combine_seq (new : list nat) (a i j : nat) :
  existsb (fun '(r, c) => (r =? i) && (c =? j)) (combine (seq a (length new)) new)
  = (a <=? i) && (i <? a + length new) && (nth (i - a) new 0 =? j).
Proof.
  revert a. induction new as [| c new IH]; intros a.
  - cbn -[Nat.leb Nat.ltb Nat.sub Nat.add]. rewrite Nat.add_0_r.
    destruct (a <=? i) eqn:Hle; [| reflexivity].
    apply Nat.leb_le in Hle.
    replace (i <? a) with false by (symmetry; apply Nat.ltb_ge; lia).
    reflexivity.
  - cbn -[Nat.leb Nat.ltb Nat.sub Nat.add Nat.eqb]. rewrite IH.
    destruct (Nat.lt_trichotomy a i) as [Hlt | [Heq | Hgt]].
    + replace (a =? i) with false by (symmetry; apply Nat.eqb_neq; lia).
      replace (S a <=? i) with true by (symmetry; apply Nat.leb_le; lia).
      replace (a <=? i) with true by (symmetry; apply Nat.leb_le; lia).
      replace (a + S (length new)) with (S a + length new) by lia.
      replace (i - a) with (S (i - S a)) by lia. reflexivity.
    + subst i.
      rewrite Nat.eqb_refl, Nat.leb_refl, Nat.sub_diag.
      replace (S a <=? a) with false by (symmetry; apply Nat.leb_gt; lia).
      replace (a <? a + S (length new)) with true
        by (symmetry; apply Nat.ltb_lt; lia).
      cbn -[Nat.eqb]. now rewrite orb_false_r.
    + replace (a =? i) with false by (symmetry; apply Nat.eqb_neq; lia).
      replace (S a <=? i) with false by (symmetry; apply Nat.leb_gt; lia).
      replace (a <=? i) with false by (symmetry; apply Nat.leb_gt; lia).
      reflexivity.
Qed.

Section OneHot.

Context {R : Type} `{Scalar R}.

Lemma normalize_index_nat (n k : nat) :
  k < n -> normalize_index n (Z.of_nat k) = OK k.
Proof.
  intros Hk. unfold normalize_index.
  replace ((0 <=? Z.of_nat k)%Z) with true by (symmetry; apply Z.leb_le; lia).
  replace ((Z.of_nat k <? Z.of_nat n)%Z) with true
    by (symmetry; apply Z.ltb_lt; lia).
  simpl. now rewrite Nat2Z.id.
Qed.

Lemma length_ogrid (a b : nat) : length (ogrid a b) = b - a.
Proof. unfold ogrid. now rewrite length_map, length_seq. Qed.

Lemma zeros_onehot (n w : nat) : zeros n w = onehot (R := R) [] n w.
Proof.
  unfold zeros, onehot. apply mk_matrix_ext. intros i j _ _. simpl.
  reflexivity.
Qed.

(** Writing ones at the columns [new] of the rows that follow those
    already encoded extends the encoding. *)
Lemma fancy_assign_onehot (cols new : list nat) (n w : nat) :
  length cols + length new <= n ->
  Forall (fun c => c < w) new ->
  fancy_assign (onehot cols n w)
    (ogrid (length cols) (length cols + length new)) (map Z.of_nat new) one
  = OK (onehot (cols ++ new) n w).
Proof.
  intros Hn Hw. unfold fancy_assign, broadcast_indices.
  rewrite length_ogrid, length_map.
  replace (length cols + length new - length cols) with (length new) by lia.
  rewrite Nat.eqb_refl, bind_OK. unfold ogrid.
  replace (length cols + length new - length cols) with (length new) by lia.
  rewrite (mapM_map _ (fun '(r, c) => (Z.to_nat r, Z.to_nat c))).
  - rewrite bind_OK. f_equal.
    change (nrows (onehot cols n w)) with n.
    change (ncols (onehot cols n w)) with w.
    apply mk_matrix_ext. intros i j Hi Hj.
    assert (Hidx : map (fun '(r, c) => (Z.to_nat r, Z.to_nat c))
                       (combine (map Z.of_nat (seq (length cols) (length new)))
                                (map Z.of_nat new))
                   = combine (seq (length cols) (length new)) new).
    { generalize (seq (length cols) (length new)) as rows.
      induction new as [| c new IH]; intros [| r rows]; simpl; try reflexivity.
      rewrite !Nat2Z.id. f_equal. apply IH.
      - simpl in Hn. lia.
      - now inversion Hw. }
    rewrite Hidx, existsb_combine_seq.
    unfold onehot. rewrite mget_mk_matrix by assumption.
    rewrite length_app.
    destruct (length cols <=? i) eqn:Hle;
      [apply Nat.leb_le in Hle | apply Nat.leb_gt in Hle]; simpl.
    + replace (i <? length cols) with false by (symmetry; apply Nat.ltb_ge; lia).
      simpl.
      destruct (i <? length cols + length new) eqn:Hlt; simpl; [| reflexivity].
      rewrite app_nth2 by lia.
      now destruct (nth (i - length cols) new 0 =? j).
    + replace (i <? length cols) with true by (symmetry; apply Nat.ltb_lt; lia).
      replace (i <? length cols + length new) with true
        by (symmetry; apply Nat.ltb_lt; lia).
      now rewrite app_nth1 by lia.
  - intros [r c] Hin.
    apply in_combine_l in Hin as Hr. apply in_combine_r in Hin as Hc.
    apply in_map_iff in Hr as [r' [<- Hr']]. apply in_seq in Hr'.
    apply in_map_iff in Hc as [c' [<- Hc']].
    rewrite Forall_forall in Hw. specialize (Hw c' Hc').
    change (nrows (onehot cols n w)) with n.
    change (ncols (onehot cols n w)) with w.
    rewrite !normalize_index_nat by lia. simpl. now rewrite !Nat2Z.id.
Qed.

End OneHot.

Lemma map_seq_nth {A B} (f : A -> B) (l : list A) (d : A) :
  map (fun i => f (nth i l d)) (seq 0 (length l)) = map f l.
Proof.
  induction l as [| a l IH]; simpl; [reflexivity |].
  f_equal. now rewrite <- seq_shift, map_map.
Qed.

Lemma offsets_from_bound (l : list nat) (acc : nat) (start s : nat) :
  In (start, s) (combine (offsets_from acc l) l) ->
  acc <= start /\ start + s <= acc + list_sum l.
Proof.
  revert acc. induction l as [| n l IH]; intros acc Hin; simpl in *;
    [contradiction |].
  destruct Hin as [Heq | Hin].
  - inversion Heq; subst. lia.
  - apply IH in Hin. lia.
Qed.

Section UnaryOneHot.

Context {R : Type} `{Scalar R}.

Lemma unary_step_onehot (w n : nat) (cols : list nat)
  (o : option (ndarray R)) (start : nat) (y_typ : list Z) :
  unary_item_ok w (o, start, y_typ) ->
  length cols + count_of o <= n ->
  unary_step (length cols, onehot cols n w) (o, start, y_typ)
  = OK (length cols + count_of o,
        onehot (cols ++ unary_block_columns (count_of o, start, y_typ)) n w).
Proof.
  intros (Hlen & Hshape & Hlab) Hn. unfold unary_step, unary_block_columns.
  destruct o as [a |].
  - rewrite (Hshape a eq_refl), bind_OK. rewrite <- Hlen in *.
    assert (Hcols : map (Z.add (Z.of_nat start)) y_typ
                    = map Z.of_nat
                        (map (fun i => start + Z.to_nat (nth i y_typ 0%Z))
                             (seq 0 (length y_typ)))).
    { rewrite (map_seq_nth (fun l => start + Z.to_nat l)), map_map.
      apply map_ext_in. intros l Hl.
      rewrite Forall_forall in Hlab. destruct (Hlab l Hl) as [H0 _]. lia. }
    rewrite Hcols.
    set (new := map (fun i => start + Z.to_nat (nth i y_typ 0%Z))
                    (seq 0 (length y_typ))).
    assert (Hnew : length new = length y_typ)
      by (unfold new; now rewrite length_map, length_seq).
    rewrite <- Hnew in *. rewrite fancy_assign_onehot.
    + now rewrite bind_OK.
    + assumption.
    + unfold new. rewrite (map_seq_nth (fun l => start + Z.to_nat l)).
      apply Forall_map. revert Hlab. apply Forall_impl. tauto.
  - simpl in *. rewrite Nat.add_0_r, app_nil_r. reflexivity.
Qed.

Lemma unary_loop_onehot (w n : nat)
  (items : list (option (ndarray R) * nat * list Z)) (cols : list nat) :
  Forall (unary_item_ok w) items ->
  length cols + list_sum (map (fun it => count_of (fst (fst it))) items) <= n ->
  for_each unary_step items (length cols, onehot cols n w)
  = OK (length cols + list_sum (map (fun it => count_of (fst (fst it))) items),
        onehot (cols ++ flat_map
                          (fun it => unary_block_columns
                                       (count_of (fst (fst it)),
                                        snd (fst it), snd it))
                          items) n w).
Proof.
  revert cols. induction items as [| [[o start] y_typ] items IH];
    intros cols Hok Hn.
  - simpl. now rewrite Nat.add_0_r, app_nil_r.
  - inversion Hok as [| it its Hit Hits]; subst.
    cbn [for_each map flat_map fst snd] in *.
    rewrite list_sum_cons in *.
    rewrite unary_step_onehot by (assumption || lia). rewrite bind_OK.
    assert (Hblock : length (unary_block_columns (count_of o, start, y_typ))
                     = count_of o)
      by (unfold unary_block_columns; now rewrite length_map, length_seq).
    rewrite <- Hblock at 1. rewrite <- length_app, IH.
    + rewrite length_app, <- app_assoc, Hblock. now rewrite Nat.add_assoc.
    + assumption.
    + rewrite length_app, Hblock. lia.
Qed.

End UnaryOneHot.

Section PairwiseOneHot.

Context {R : Type} `{Scalar R}.
Variable self : NodeTypeEdgeFeatureGraphCRF.

Lemma normalize_index_in_range (n : nat) (i : Z) :
  in_range n i = true -> normalize_index n i = OK (Z.to_nat i).
Proof.
  unfold in_range, normalize_index. now intros ->.
Qed.

Lemma take_in_range (y_typ : list Z) (idx : list Z) :
  Forall (fun i => in_range (length y_typ) i = true) idx ->
  take y_typ idx = OK (map (fun i => nth (Z.to_nat i) y_typ 0%Z) idx).
Proof.
  intros Hidx. unfold take. apply mapM_map. intros i Hi.
  rewrite Forall_forall in Hidx.
  now rewrite (normalize_index_in_range _ _ (Hidx i Hi)).
Qed.

Lemma pairwise_step_onehot (y : list (list Z)) (w n : nat) (cols : list nat)
  (it : (nat * nat) * option (matrix Z) * nat) :
  pairwise_item_ok self y w it ->
  length cols + edge_rows (snd (fst it)) <= n ->
  pairwise_step self y (length cols, onehot cols n w) it
  = OK (length cols + edge_rows (snd (fst it)),
        onehot (cols ++ pairwise_block_columns self y it) n w).
Proof.
  destruct it as [[[t1 t2] [e |]] start]; cbn [fst snd edge_rows];
    intros Hok Hn.
  - destruct Hok as (H1 & H2 & Hs & Hc & Hrows).
    unfold pairwise_step, pairwise_block_columns.
    rewrite (py_index_nth y t1 []), (py_index_nth y t2 []) by assumption.
    rewrite !bind_OK. unfold column. rewrite Hc. cbn [Nat.ltb Nat.leb].
    rewrite bind_OK, take_in_range.
    2:{ apply Forall_map, Forall_forall. intros i Hi. apply in_seq in Hi.
        apply Hrows. lia. }
    rewrite bind_OK, bind_OK, take_in_range.
    2:{ apply Forall_map, Forall_forall. intros i Hi. apply in_seq in Hi.
        apply Hrows. lia. }
    rewrite bind_OK, (py_index_nth _ t2 0), bind_OK by assumption.
    rewrite !map_map, combine_map_map, map_map.
    set (new := map (fun i => start
                              + nth t2 (l_n_states self) 0
                                * label y t1 (mget 0%Z e i 0)
                              + label y t2 (mget 0%Z e i 1))
                    (seq 0 (nrows e))).
    assert (Hnew : length new = nrows e)
      by (unfold new; now rewrite length_map, length_seq).
    assert (Hcols : map (fun i =>
                           (Z.of_nat start
                            + Z.of_nat (nth t2 (l_n_states self) 0%nat)
                              * nth (Z.to_nat (mget 0 e i 0%nat)) (nth t1 y []) 0
                            + nth (Z.to_nat (mget 0 e i 1%nat)) (nth t2 y []) 0)%Z)
                        (seq 0 (nrows e))
                    = map Z.of_nat new).
    { unfold new. rewrite map_map. apply map_ext_in. intros i Hi.
      apply in_seq in Hi. destruct (Hrows i) as (_ & _ & Ha & Hb & _); [lia |].
      unfold label. lia. }
    rewrite Hcols, <- Hnew in *. rewrite fancy_assign_onehot.
    + now rewrite bind_OK.
    + assumption.
    + unfold new. apply Forall_map, Forall_forall. intros i Hi.
      apply in_seq in Hi. apply Hrows. lia.
  - simpl. now rewrite Nat.add_0_r, app_nil_r.
Qed.

Lemma pairwise_loop_onehot (y : list (list Z)) (w n : nat)
  (items : list ((nat * nat) * option (matrix Z) * nat)) (cols : list nat) :
  Forall (pairwise_item_ok self y w) items ->
  length cols + list_sum (map (fun it => edge_rows (snd (fst it))) items) <= n ->
  for_each (pairwise_step self y) items (length cols, onehot cols n w)
  = OK (length cols + list_sum (map (fun it => edge_rows (snd (fst it))) items),
        onehot (cols ++ flat_map (pairwise_block_columns self y) items) n w).
Proof.
  revert cols. induction items as [| it items IH]; intros cols Hok Hn.
  - simpl. now rewrite Nat.add_0_r, app_nil_r.
  - inversion Hok as [| it' its Hit Hits]; subst.
    cbn [for_each map flat_map] in *. rewrite list_sum_cons in *.
    rewrite pairwise_step_onehot by (assumption || lia). rewrite bind_OK.
    assert (Hblock : length (pairwise_block_columns self y it)
                     = edge_rows (snd (fst it))).
    { destruct it as [[[t1 t2] [e |]] start]; simpl; [| reflexivity].
      now rewrite length_map, length_seq. }
    rewrite <- Hblock at 1. rewrite <- length_app, IH.
    + rewrite length_app, <- app_assoc, Hblock. now rewrite Nat.add_assoc.
    + assumption.
    + rewrite length_app, Hblock. lia.
Qed.

End PairwiseOneHot.

(** ** Valid instances and labelings *)

Lemma forallb_combine_nth {A B} (f : A * B -> bool) (l1 : list A)
  (l2 : list B) (t : nat) (d1 : A) (d2 : B) :
  forallb f (combine l1 l2) = true ->
  t < length l1 -> t < length l2 ->
  f (nth t l1 d1, nth t l2 d2) = true.
Proof.
  revert l2 t. induction l1 as [| a l1 IH]; intros [| b l2] t Hall H1 H2;
    simpl in *; try lia.
  apply andb_true_iff in Hall as [Hab Hall].
  destruct t as [| t]; [exact Hab |]. apply IH; [assumption | lia | lia].
Qed.

Lemma in_zip3 {A B C} (la : list A) (lb : list B) (lc : list C)
  (a : A) (b : B) (c : C) :
  In (a, b, c) (zip3 la lb lc) ->
  In (a, b) (combine la lb) /\ In (a, c) (combine la lc).
Proof.
  revert lb lc. induction la as [| a' la IH]; intros [| b' lb] [| c' lc] Hin;
    simpl in *; try contradiction.
  destruct Hin as [Heq | Hin].
  - inversion Heq; subst. split; now left.
  - apply IH in Hin as [H1 H2]. split; now right.
Qed.

Lemma zip3_map_1 {A A' B C} (f : A -> A') (la : list A) (lb : list B)
  (lc : list C) :
  zip3 (map f la) lb lc
  = map (fun it => (f (fst (fst it)), snd (fst it), snd it)) (zip3 la lb lc).
Proof.
  revert lb lc. induction la as [| a la IH]; intros [| b lb] [| c lc]; simpl;
    try reflexivity.
  now rewrite IH.
Qed.

Lemma zip3_fst {A B C} (la : list A) (lb : list B) (lc : list C) :
  length la = length lb -> length la = length lc ->
  map (fun it => fst (fst it)) (zip3 la lb lc) = la.
Proof.
  revert lb lc. induction la as [| a la IH]; intros [| b lb] [| c lc] H1 H2;
    simpl in *; try discriminate; [reflexivity |].
  f_equal. apply IH; lia.
Qed.

Lemma zip3_snd {A B C} (la : list A) (lb : list B) (lc : list C) :
  length la = length lb -> length la = length lc ->
  map (fun it => snd (fst it)) (zip3 la lb lc) = lb.
Proof.
  revert lb lc. induction la as [| a la IH]; intros [| b lb] [| c lc] H1 H2;
    simpl in *; try discriminate; [reflexivity |].
  f_equal. apply IH; lia.
Qed.

Lemma offsets_from_map_bound {A} (g : A -> nat) (l : list A) (acc : nat)
  (a : A) (start : nat) :
  In (a, start) (combine l (offsets_from acc (map g l))) ->
  start + g a <= acc + list_sum (map g l).
Proof.
  revert acc. induction l as [| b l IH]; intros acc Hin; simpl in *;
    [contradiction |].
  destruct Hin as [Heq | Hin].
  - inversion Heq; subst. lia.
  - apply IH in Hin. lia.
Qed.

Section ValidData.

Context {R : Type} `{Scalar R}.
Variable self : NodeTypeEdgeFeatureGraphCRF.

Lemma valid_nodes_spec (x : instance R) :
  wf_model self = true -> valid_nodes self x = true ->
  length (x_node_features x) = n_types self
  /\ Forall node_ok (x_node_features x).
Proof.
  intros Hwf Hvalid. apply wf_model_spec in Hwf as (_ & Hf & _).
  unfold valid_nodes in Hvalid. apply andb_true_iff in Hvalid as [Hlen Hall].
  apply Nat.eqb_eq in Hlen. split; [exact Hlen |].
  rewrite <- Hf in Hlen. revert Hlen Hall.
  generalize (l_n_features self) as feats.
  induction (x_node_features x) as [| o nodes IH]; intros [| f feats] Hlen Hall;
    simpl in *; try discriminate; constructor.
  - apply andb_true_iff in Hall as [Ho _]. destruct o as [a |]; [| exact I].
    simpl. destruct (shape a) as [| n [| c [| ? ?]]]; try discriminate.
    now exists n, c.
  - apply andb_true_iff in Hall as [_ Hall]. apply (IH feats); [lia | exact Hall].
Qed.

(** The node counts that [joint_feature] computes. *)
Lemma node_counts_computed (x : instance R) :
  Forall node_ok (x_node_features x) ->
  (cleaned <- _get_node_features x true ;; mapM py_len cleaned)
  = OK (node_counts x).
Proof.
  unfold _get_node_features, node_counts.
  induction (x_node_features x) as [| o nodes IH]; intros Hok;
    [reflexivity |].
  inversion Hok as [| o' nodes' Ho Hnodes]; subst.
  specialize (IH Hnodes). cbn [mapM map].
  destruct (mapM _ nodes) as [e | cleaned]; [discriminate |].
  rewrite bind_OK in IH.
  destruct o as [a |].
  - destruct Ho as (n & c & Hshape). unfold len at 1. rewrite Hshape.
    cbn [bind raise OK mapM py_len]. 
    destruct (n =? 0) eqn:Hn; [apply Nat.eqb_eq in Hn | ].
    + cbn [len shape bind OK raise]. rewrite IH. subst n. simpl.
      now rewrite Hshape.
    + unfold len. rewrite Hshape. cbn [bind OK raise]. rewrite IH. simpl.
      now rewrite Hshape.
  - cbn [bind raise OK mapM py_len len shape]. rewrite IH. reflexivity.
Qed.

(** The edge counts that [joint_feature] computes. *)
Lemma edge_counts_computed (x : instance R) :
  mapM shape0 (_get_edges x true) = OK (map edge_rows (x_edges x)).
Proof.
  unfold _get_edges.
  induction (x_edges x) as [| o edges IH]; [reflexivity |].
  cbn [map mapM]. rewrite IH.
  destruct o as [e |]; [| reflexivity].
  simpl. destruct (nrows e =? 0) eqn:Hn; [| reflexivity].
  apply Nat.eqb_eq in Hn. now rewrite Hn.
Qed.

Lemma unary_items_ok (nodes : list (option (ndarray R))) (states : list nat)
  (y : list (list Z)) (acc w : nat) :
  Forall node_ok nodes ->
  forallb (fun '(y_typ, (n, s)) =>
             (length y_typ =? n) && forallb (in_range s) y_typ)
          (combine y (combine (map count_of nodes) states)) = true ->
  acc + list_sum states <= w ->
  Forall (unary_item_ok w) (zip3 nodes (offsets_from acc states) y).
Proof.
  revert states y acc.
  induction nodes as [| o nodes IH]; intros [| s states] [| y_typ y] acc
    Hnodes Hall Hw; simpl in *; try constructor.
  - apply andb_true_iff in Hall as [Hhead _].
    apply andb_true_iff in Hhead as [Hlen Hlab]. apply Nat.eqb_eq in Hlen.
    inversion Hnodes as [| o' nodes' Ho _]; subst.
    repeat split; [assumption | |].
    + intros a ->. destruct Ho as (n & c & Hshape).
      unfold shape_at. simpl. now rewrite Hshape.
    + rewrite forallb_forall in Hlab. apply Forall_forall. intros l Hl.
      specialize (Hlab l Hl). unfold in_range in Hlab.
      apply andb_true_iff in Hlab as [H0 Hs].
      apply Z.leb_le in H0. apply Z.ltb_lt in Hs. lia.
  - apply andb_true_iff in Hall as [_ Hall].
    inversion Hnodes; subst. apply IH; [assumption | assumption | lia].
Qed.

End ValidData.

Lemma list_sum_map_mul_l {A} (c : nat) (f : A -> nat) (l : list A) :
  list_sum (map (fun a => c * f a) l) = c * list_sum (map f l).
Proof.
  induction l as [| a l IH]; simpl; [lia | rewrite IH; lia].
Qed.

Lemma list_sum_map_mul_r {A} (c : nat) (f : A -> nat) (l : list A) :
  list_sum (map (fun a => f a * c) l) = list_sum (map f l) * c.
Proof.
  induction l as [| a l IH]; simpl; [lia | rewrite IH; lia].
Qed.

Lemma list_sum_nth_seq (l : list nat) :
  list_sum (map (fun t => nth t l 0) (seq 0 (length l))) = list_sum l.
Proof.
  now rewrite (map_seq_nth (fun a => a) l 0), map_id.
Qed.

(** The state products of all ordered type pairs add up to the square of
    the total state count. *)
Lemma sum_state_products (self : NodeTypeEdgeFeatureGraphCRF) :
  wf_model self = true ->
  list_sum (map (fun '(t1, t2) =>
                   nth t1 (l_n_states self) 0 * nth t2 (l_n_states self) 0)
                (_iter_type_pairs self))
  = _n_states self ^ 2.
Proof.
  intros Hwf. apply wf_model_spec in Hwf as (Hs & _).
  unfold _iter_type_pairs, _n_states. rewrite list_sum_flat_map.
  rewrite (map_ext _ (fun t1 => nth t1 (l_n_states self) 0
                                * list_sum (l_n_states self))).
  - rewrite list_sum_map_mul_r, <- Hs, list_sum_nth_seq. simpl. lia.
  - intros t1. rewrite map_map, list_sum_map_mul_l, <- Hs.
    now rewrite list_sum_nth_seq.
Qed.

Section ValidPairs.

Context {R : Type} `{Scalar R}.
Variable self : NodeTypeEdgeFeatureGraphCRF.

Lemma valid_labels_spec (x : instance R) (y : list (list Z)) :
  wf_model self = true -> valid_nodes self x = true ->
  valid_labels self x y = true ->
  length y = n_types self
  /\ (forall t, t < n_types self ->
                length (nth t y []) = nth t (node_counts x) 0
                /\ Forall (fun l => in_range (nth t (l_n_states self) 0) l = true)
                          (nth t y [])).
Proof.
  intros Hwf Hnodes Hlab.
  pose proof (valid_nodes_spec self x Hwf Hnodes) as [Hn _].
  apply wf_model_spec in Hwf as (Hs & _).
  unfold valid_labels in Hlab. apply andb_true_iff in Hlab as [Hlen Hall].
  apply Nat.eqb_eq in Hlen. split; [exact Hlen |]. intros t Ht.
  assert (Hc : length (node_counts x) = n_types self)
    by (unfold node_counts; now rewrite length_map).
  pose proof (forallb_combine_nth _ _ _ t [] (0, 0) Hall) as Ht'.
  rewrite combine_nth in Ht' by congruence.
  rewrite length_combine, Hc, Hs, Hlen, Nat.min_id in Ht'.
  specialize (Ht' Ht Ht). apply andb_true_iff in Ht' as [Hl Hr].
  apply Nat.eqb_eq in Hl. split; [exact Hl |].
  apply Forall_forall. now apply forallb_forall.
Qed.

Lemma valid_edges_spec (x : instance R) :
  valid_edges self x = true ->
  length (x_edges x) = n_types self ^ 2
  /\ (forall t1 t2 e,
         In ((t1, t2), Some e) (combine (_iter_type_pairs self) (x_edges x)) ->
         ncols e = 2
         /\ (forall i, i < nrows e ->
                in_range (nth t1 (node_counts x) 0) (mget 0%Z e i 0) = true
                /\ in_range (nth t2 (node_counts x) 0) (mget 0%Z e i 1) = true)).
Proof.
  unfold valid_edges. intros Hvalid.
  apply andb_true_iff in Hvalid as [Hlen Hall]. apply Nat.eqb_eq in Hlen.
  split; [exact Hlen |]. intros t1 t2 e Hin.
  rewrite forallb_forall in Hall. specialize (Hall _ Hin). cbv beta iota in Hall.
  apply andb_true_iff in Hall as [Hce Hrows].
  apply andb_true_iff in Hce as [Hc _]. apply Nat.eqb_eq in Hc.
  split; [exact Hc |]. intros i Hi.
  rewrite forallb_forall in Hrows.
  specialize (Hrows i (proj2 (in_seq _ _ _) (conj (Nat.le_0_l i) Hi))).
  now apply andb_true_iff in Hrows.
Qed.

Lemma label_in_range (x : instance R) (y : list (list Z)) (t : nat) (i : Z) :
  wf_model self = true -> valid_nodes self x = true ->
  valid_labels self x y = true ->
  t < n_types self ->
  in_range (nth t (node_counts x) 0) i = true ->
  in_range (length (nth t y [])) i = true
  /\ (0 <= nth (Z.to_nat i) (nth t y []) 0)%Z
  /\ label y t i < nth t (l_n_states self) 0.
Proof.
  intros Hwf Hnodes Hlab Ht Hi.
  destruct (valid_labels_spec x y Hwf Hnodes Hlab) as [_ Hy].
  destruct (Hy t Ht) as [Hlen Hall]. rewrite Hlen.
  split; [exact Hi |].
  unfold in_range in Hi. apply andb_true_iff in Hi as [H0 Hn].
  apply Z.leb_le in H0. apply Z.ltb_lt in Hn.
  rewrite Forall_forall in Hall.
  assert (Hin : In (nth (Z.to_nat i) (nth t y []) 0%Z) (nth t y []))
    by (apply nth_In; lia).
  specialize (Hall _ Hin). unfold in_range in Hall.
  apply andb_true_iff in Hall as [Hl0 Hls].
  apply Z.leb_le in Hl0. apply Z.ltb_lt in Hls. unfold label. lia.
Qed.

Lemma pairwise_items_ok (x : instance R) (y : list (list Z)) :
  wf_model self = true -> valid_nodes self x = true ->
  valid_edges self x = true -> valid_labels self x y = true ->
  Forall (pairwise_item_ok self y (_n_states self ^ 2))
         (zip3 (_iter_type_pairs self) (x_edges x)
               (_l_edgetype_start_index self)).
Proof.
  intros Hwf Hnodes Hedges Hlab. apply Forall_forall.
  intros [[[t1 t2] [e |]] start] Hin; [| exact I].
  apply in_zip3 in Hin as [Hpe Hps].
  pose proof (in_combine_l _ _ _ _ Hpe) as Hp.
  apply in_iter_type_pairs in Hp as [H1 H2].
  destruct (valid_edges_spec x Hedges) as [_ He].
  destruct (He t1 t2 e Hpe) as [Hc Hrows].
  destruct (valid_labels_spec x y Hwf Hnodes Hlab) as [Hy _].
  pose proof (wf_model_spec self Hwf) as (Hs & _).
  unfold _l_edgetype_start_index in Hps.
  apply (offsets_from_map_bound
           (fun '(t1, t2) =>
              nth t1 (l_n_states self) 0 * nth t2 (l_n_states self) 0))
    in Hps.
  rewrite sum_state_products in Hps by assumption.
  unfold pairwise_item_ok. rewrite Hy, Hs.
  repeat split; try assumption.
  all: destruct (Hrows i H0) as [Ha Hb].
  all: destruct (label_in_range x y t1 _ Hwf Hnodes Hlab H1 Ha) as (Ra & Pa & La).
  all: destruct (label_in_range x y t2 _ Hwf Hnodes Hlab H2 Hb) as (Rb & Pb & Lb).
  all: try assumption.
  revert Hps La Lb.
  generalize (_n_states self ^ 2) as w, (nth t1 (l_n_states self) 0) as s1,
    (nth t2 (l_n_states self) 0) as s2,
    (label y t1 (mget 0%Z e i 0)) as l1, (label y t2 (mget 0%Z e i 1)) as l2.
  intros w s1 s2 l1 l2 Hps La Lb.
  assert (Hlt : s2 * l1 + l2 < s1 * s2) by nia. lia.
Qed.

End ValidPairs.

(** ** The discrete and the relaxed path *)

Section DiscreteRelaxed.

Context {R : Type} `{Scalar R}.
Variable self : NodeTypeEdgeFeatureGraphCRF.

Lemma length_unary_columns (x : instance R) (y : list (list Z)) :
  length (x_node_features x) = n_types self ->
  length (l_n_states self) = n_types self ->
  length y = n_types self ->
  length (unary_columns self x y) = list_sum (node_counts x).
Proof.
  intros Hn Hs Hy. unfold unary_columns, _l_type_startindex.
  assert (Hc : length (node_counts x) = length (offsets_from 0 (l_n_states self)))
    by (unfold node_counts; rewrite length_map, length_offsets_from; congruence).
  assert (Hc' : length (node_counts x) = length y)
    by (unfold node_counts; rewrite length_map; congruence).
  rewrite <- (zip3_fst _ _ _ Hc Hc') at 2.
  induction (zip3 (node_counts x) (offsets_from 0 (l_n_states self)) y)
    as [| [[n start] y_typ] items IH]; [reflexivity |].
  cbn [flat_map map fst]. rewrite length_app, list_sum_cons, IH.
  unfold unary_block_columns. now rewrite length_map, length_seq.
Qed.

Lemma length_pairwise_columns (x : instance R) (y : list (list Z)) :
  length (x_edges x) = n_types self ^ 2 ->
  length (pairwise_columns self x y) = list_sum (map edge_rows (x_edges x)).
Proof.
  intros He. unfold pairwise_columns.
  assert (H1 : length (_iter_type_pairs self) = length (x_edges x))
    by (rewrite length_iter_type_pairs; congruence).
  assert (H2 : length (_iter_type_pairs self)
               = length (_l_edgetype_start_index self)).
  { unfold _l_edgetype_start_index.
    now rewrite length_offsets_from, length_map. }
  rewrite <- (zip3_snd _ _ _ H1 H2) at 2. rewrite map_map.
  induction (zip3 (_iter_type_pairs self) (x_edges x)
               (_l_edgetype_start_index self))
    as [| [[[t1 t2] oe] start] items IH]; [reflexivity |].
  cbn [flat_map map fst snd]. rewrite length_app, list_sum_cons, IH.
  f_equal. destruct oe as [e |]; simpl; [| reflexivity].
  now rewrite length_map, length_seq.
Qed.

Lemma unary_loop_zeros (w n : nat)
  (items : list (option (ndarray R) * nat * list Z)) :
  Forall (unary_item_ok w) items ->
  list_sum (map (fun it => count_of (fst (fst it))) items) <= n ->
  for_each unary_step items (0, zeros n w)
  = OK (list_sum (map (fun it => count_of (fst (fst it))) items),
        onehot (flat_map (fun it => unary_block_columns
                                      (count_of (fst (fst it)),
                                       snd (fst it), snd it))
                         items) n w).
Proof.
  intros Hok Hn. rewrite zeros_onehot.
  now apply (unary_loop_onehot w n items []).
Qed.

Lemma pairwise_loop_zeros (y : list (list Z)) (w n : nat)
  (items : list ((nat * nat) * option (matrix Z) * nat)) :
  Forall (pairwise_item_ok self y w) items ->
  list_sum (map (fun it => edge_rows (snd (fst it))) items) <= n ->
  for_each (pairwise_step self y) items (0, zeros n w)
  = OK (list_sum (map (fun it => edge_rows (snd (fst it))) items),
        onehot (flat_map (pairwise_block_columns self y) items) n w).
Proof.
  intros Hok Hn. rewrite zeros_onehot.
  now apply (pairwise_loop_onehot self y w n items []).
Qed.

(** The one-hot loops of the discrete path build the marginals that put
    mass one on the observed labels. *)
Lemma marginals_discrete (x : instance R) (y : list (list Z)) :
  wf_model self = true -> valid_nodes self x = true ->
  valid_edges self x = true -> valid_labels self x y = true ->
  marginals self x (Discrete y) (list_sum (node_counts x))
    (list_sum (map edge_rows (x_edges x)))
  = OK (onehot (unary_columns self x y) (list_sum (node_counts x))
               (_n_states self),
        onehot (pairwise_columns self x y)
               (list_sum (map edge_rows (x_edges x))) (_n_states self ^ 2)).
Proof.
  intros Hwf Hnodes Hedges Hlab.
  pose proof (valid_nodes_spec self x Hwf Hnodes) as [Hn Hok].
  pose proof (valid_edges_spec self x Hedges) as [He _].
  pose proof (valid_labels_spec self x y Hwf Hnodes Hlab) as [Hy _].
  pose proof (wf_model_spec self Hwf) as (Hs & _).
  assert (Hitems : Forall (unary_item_ok (_n_states self))
                          (zip3 (x_node_features x) (_l_type_startindex self) y)).
  { apply unary_items_ok; [exact Hok | | unfold _n_states; lia].
    unfold valid_labels in Hlab. now apply andb_true_iff in Hlab as [_ Hall]. }
  assert (Hu : flat_map (fun it => unary_block_columns
                                     (count_of (fst (fst it)), snd (fst it),
                                      snd it))
                        (zip3 (x_node_features x) (_l_type_startindex self) y)
               = unary_columns self x y).
  { unfold unary_columns, node_counts. now rewrite zip3_map_1, flat_map_map. }
  assert (Hcount : list_sum (map (fun it : option (ndarray R) * nat * list Z =>
                                    count_of (fst (fst it)))
                                 (zip3 (x_node_features x)
                                       (_l_type_startindex self) y))
                   = list_sum (node_counts x)).
  { rewrite <- (map_map (fun it => fst (fst it)) count_of), zip3_fst;
      [reflexivity | |]; unfold _l_type_startindex;
      rewrite ?length_offsets_from; congruence. }
  assert (Hrows : list_sum (map (fun it : nat * nat * option (matrix Z) * nat =>
                                   edge_rows (snd (fst it)))
                                (zip3 (_iter_type_pairs self) (x_edges x)
                                      (_l_edgetype_start_index self)))
                  = list_sum (map edge_rows (x_edges x))).
  { rewrite <- (map_map (fun it => snd (fst it)) edge_rows), zip3_snd;
      [reflexivity | |]; unfold _l_edgetype_start_index;
      rewrite ?length_offsets_from, ?length_map, length_iter_type_pairs;
      congruence. }
  unfold marginals, _get_node_features.
  change (_get_edges x false) with (x_edges x). rewrite bind_OK.
  rewrite unary_loop_zeros; [| exact Hitems | lia].
  rewrite bind_OK. cbv beta iota.
  rewrite pairwise_loop_zeros;
    [| now apply (pairwise_items_ok self x) | lia].
  rewrite bind_OK. cbv beta iota.
  rewrite Hrows, Nat.eqb_refl. simpl py_assert. rewrite bind_OK.
  now rewrite Hu.
Qed.

Lemma marginals_relaxed_onehot (x : instance R) (y : list (list Z)) :
  wf_model self = true ->
  length (x_edges x) = n_types self ^ 2 ->
  marginals self x
    (Relaxed (onehot_unary_marginals self x y)
             (onehot_pairwise_marginals self x y))
    (list_sum (node_counts x)) (list_sum (map edge_rows (x_edges x)))
  = OK (onehot (unary_columns self x y) (list_sum (node_counts x))
               (_n_states self),
        onehot (pairwise_columns self x y)
               (list_sum (map edge_rows (x_edges x))) (_n_states self ^ 2)).
Proof.
  intros Hwf He.
  unfold marginals, onehot_unary_marginals, onehot_pairwise_marginals, reshape2.
  cbn [adata]. unfold onehot at 1. rewrite length_mk_matrix.
  fold (_n_states self). rewrite Nat.eqb_refl, bind_OK.
  rewrite sum_state_products by assumption.
  now rewrite length_pairwise_columns by assumption.
Qed.

End DiscreteRelaxed.

(** ** Type pairs without edges *)

Section EmptyPair.

Context {R : Type} `{Scalar R}.
Variable self : NodeTypeEdgeFeatureGraphCRF.

Lemma mk_matrix_else (m : matrix R) (c : nat -> nat -> bool)
  (f : nat -> nat -> R) :
  wf_matrix m ->
  (forall i j, c i j = false) ->
  mk_matrix (nrows m) (ncols m)
    (fun i j => if c i j then f i j else mget zero m i j) = m.
Proof.
  intros Hwf Hc. rewrite <- (mk_matrix_mget zero m Hwf) at 3.
  apply mk_matrix_ext. intros i j _ _. now rewrite Hc.
Qed.

(** Assigning at no position leaves the matrix as it is. *)
Lemma fancy_assign_nil (m : matrix R) (i : nat) (v : R) :
  wf_matrix m -> fancy_assign m (ogrid i (i + 0)) [] v = OK m.
Proof.
  intros Hwf. unfold fancy_assign, ogrid.
  replace (i + 0 - i) with 0 by lia. simpl. f_equal.
  now apply (mk_matrix_else m (fun _ _ => false)).
Qed.

(** Assigning a block without rows leaves the matrix as it is, provided
    that the columns of the block fit. *)
Lemma slice_assign_no_rows (m : matrix R) (i j c : nat) (src : ndarray R) :
  wf_matrix m -> shape src = [0; c] -> j + c <= ncols m ->
  slice_assign m i (i + 0) j (j + c) src = OK m.
Proof.
  intros Hwf Hshape Hj. unfold slice_assign, broadcast_to.
  rewrite Hshape. cbn [strip_leading_ones].
  rewrite Nat.add_0_r, Nat.sub_diag.
  replace (Nat.min (j + c) (ncols m) - Nat.min j (ncols m)) with c by lia.
  rewrite !Nat.eqb_refl. cbn [orb andb]. rewrite bind_OK. f_equal.
  apply (mk_matrix_else m
           (fun i0 j0 =>
              (Nat.min i (nrows m) <=? i0) && (i0 <? Nat.min i (nrows m))
              && (Nat.min j (ncols m) <=? j0)
              && (j0 <? Nat.min (j + c) (ncols m)))); [assumption |].
  intros i0 j0.
  destruct (Nat.min i (nrows m) <=? i0) eqn:Hle; [| reflexivity].
  apply Nat.leb_le in Hle.
  replace (i0 <? Nat.min i (nrows m)) with false
    by (symmetry; apply Nat.ltb_ge; lia).
  reflexivity.
Qed.

Lemma pairwise_step_no_edges (y : list (list Z)) (typ1 typ2 : nat)
  (e : matrix Z) (start i_start : nat) (pw : matrix R) :
  nrows e = 0 -> ncols e = 2 ->
  typ1 < length y -> typ2 < length y -> typ2 < length (l_n_states self) ->
  wf_matrix pw ->
  pairwise_step self y (i_start, pw) ((typ1, typ2), Some e, start)
  = OK (i_start, pw).
Proof.
  intros Hr Hc H1 H2 Hs Hwf. unfold pairwise_step, column.
  rewrite (py_index_nth y typ1 []), (py_index_nth y typ2 []) by assumption.
  rewrite Hc, Hr. cbn [Nat.ltb Nat.leb seq map bind OK take mapM combine].
  rewrite (py_index_nth _ typ2 0) by assumption. cbn [bind OK].
  rewrite fancy_assign_nil by assumption. cbn [bind OK].
  now rewrite Nat.add_0_r.
Qed.

Lemma stack_edge_step_no_edges (ef : ndarray R) (c i_start i_col_start : nat)
  (m : matrix R) :
  shape ef = [0; c] -> wf_matrix m -> i_col_start + c <= ncols m ->
  stack_edge_step (i_start, i_col_start, m) (Some ef)
  = OK (i_start, i_col_start + c, m).
Proof.
  intros Hshape Hwf Hc. unfold stack_edge_step, unpack_shape2.
  rewrite Hshape. cbn [bind OK].
  rewrite slice_assign_no_rows by assumption. cbn [bind OK].
  now rewrite Nat.add_0_r.
Qed.

End EmptyPair.

(** ** The length of the joint feature *)

Section Stacking.

Context {R : Type} `{Scalar R}.

(** Assigning a block of the shape of its target succeeds and keeps the
    shape of the matrix. *)
Lemma slice_assign_block (m : matrix R) (i n j c : nat) (src : ndarray R) :
  shape src = [n; c] -> i + n <= nrows m -> j + c <= ncols m ->
  exists m', slice_assign m i (i + n) j (j + c) src = OK m'
             /\ nrows m' = nrows m /\ ncols m' = ncols m.
Proof.
  intros Hshape Hi Hj. unfold slice_assign, broadcast_to. rewrite Hshape.
  replace (strip_leading_ones [n; c]) with [n; c]
    by (destruct n as [| [| n]]; reflexivity).
  replace (Nat.min (i + n) (nrows m) - Nat.min i (nrows m)) with n by lia.
  replace (Nat.min (j + c) (ncols m) - Nat.min j (ncols m)) with c by lia.
  rewrite !Nat.eqb_refl. cbn [orb andb]. rewrite bind_OK.
  eexists. split; [reflexivity |]. split; reflexivity.
Qed.

Lemma stack_node_loop (feats : list nat) (nodes : list (option (ndarray R)))
  (acc i : nat) (m : matrix R) :
  forallb (fun '(o, f) =>
             match o with
             | None => false
             | Some a => match shape a with
                         | [n; c] => c =? f
                         | _ => false
                         end
             end) (combine nodes feats) = true ->
  i + list_sum (map count_of (firstn (length feats) nodes)) <= nrows m ->
  acc + list_sum feats <= ncols m ->
  exists m',
    for_each stack_node_step (combine (slices_from acc feats) nodes) (i, m)
    = OK (i + list_sum (map count_of (firstn (length feats) nodes)), m')
    /\ nrows m' = nrows m /\ ncols m' = ncols m.
Proof.
  revert nodes acc i m.
  induction feats as [| f feats IH]; intros nodes acc i m Hall Hi Hacc.
  - simpl. exists m. now rewrite Nat.add_0_r.
  - destruct nodes as [| o nodes].
    + simpl. exists m. now rewrite Nat.add_0_r.
    + cbn [combine forallb slices_from length firstn map for_each] in *.
      rewrite list_sum_cons in *.
      apply andb_true_iff in Hall as [Ho Hall].
      destruct o as [a |]; [| discriminate].
      destruct (shape a) as [| n [| c [| ? ?]]] eqn:Hshape; try discriminate.
      apply Nat.eqb_eq in Ho. subst c.
      assert (Hcount : count_of (Some a) = n) by (simpl; now rewrite Hshape).
      rewrite Hcount in *.
      unfold stack_node_step at 1. unfold shape_at. rewrite Hshape.
      cbn [py_index nth_error bind OK].
      destruct (slice_assign_block m i n acc f a Hshape) as (m1 & Hm1 & Hr & Hc);
        [lia | lia |].
      rewrite Hm1. cbn [bind OK].
      destruct (IH nodes (acc + f) (i + n) m1 Hall) as (m' & Hm' & Hr' & Hc');
        [lia | lia |].
      exists m'. rewrite Hm', Nat.add_assoc. repeat split; congruence.
Qed.

Lemma stack_edge_loop (D : list nat) (edges : list (option (matrix Z)))
  (efs : list (option (ndarray R))) (i ic : nat) (m : matrix R) :
  length edges = length efs -> length D = length efs ->
  forallb edge_item_ok (combine D (combine edges efs)) = true ->
  i + list_sum (map edge_rows edges) <= nrows m ->
  ic + list_sum D <= ncols m ->
  exists i' ic' m',
    for_each stack_edge_step efs (i, ic, m) = OK (i', ic', m')
    /\ nrows m' = nrows m /\ ncols m' = ncols m.
Proof.
  revert D edges i ic m.
  induction efs as [| oef efs IH]; intros D edges i ic m He HD Hall Hi Hic.
  - exists i, ic, m. repeat split.
  - destruct D as [| d D]; [discriminate |].
    destruct edges as [| oe edges]; [discriminate |].
    cbn [combine forallb map for_each length] in *. rewrite !list_sum_cons in *.
    apply andb_true_iff in Hall as [Hit Hall].
    destruct oe as [e |], oef as [ef |]; try discriminate.
    + cbn [edge_item_ok] in Hit.
      destruct (shape ef) as [| n [| c [| ? ?]]] eqn:Hshape; try discriminate.
      apply andb_true_iff in Hit as [Hn Hc].
      apply Nat.eqb_eq in Hn, Hc. subst n c.
      unfold stack_edge_step at 1, unpack_shape2. rewrite Hshape.
      cbn [bind OK edge_rows] in *.
      destruct (slice_assign_block m i (nrows e) ic d ef Hshape)
        as (m1 & Hm1 & Hr & Hc); [lia | lia |].
      rewrite Hm1. cbn [bind OK].
      destruct (IH D edges (i + nrows e) (ic + d) m1) as (i' & ic' & m' & Hm' & Hr' & Hc');
        try lia; try assumption.
      exists i', ic', m'. rewrite Hm'. repeat split; congruence.
    + cbn [stack_edge_step bind OK edge_rows] in *.
      destruct (IH D edges i ic m) as (i' & ic' & m' & Hm' & Hr' & Hc');
        try lia; try assumption.
      exists i', ic', m'. rewrite Hm'. repeat split; congruence.
Qed.

End Stacking.

Section RavelLength.

Context {R : Type} `{Scalar R}.

Lemma length_ravel_slice2 (a : matrix R) (i0 i1 j0 j1 : nat) :
  length (ravel (slice2 zero a i0 i1 j0 j1))
  = (Nat.min i1 (nrows a) - Nat.min i0 (nrows a))
    * (Nat.min j1 (ncols a) - Nat.min j0 (ncols a)).
Proof. unfold ravel, slice2. apply length_mk_matrix. Qed.

(** The blocks cut by the cumulative sums of two lists of sizes have the
    products of the sizes as their lengths. *)
Lemma length_blocks (a : matrix R) (l1 l2 : list nat) (acc1 acc2 : nat) :
  length l1 = length l2 ->
  acc1 + list_sum l1 <= nrows a -> acc2 + list_sum l2 <= ncols a ->
  length
    (concat
       (map (fun '((i0, i1), (j0, j1)) => ravel (slice2 zero a i0 i1 j0 j1))
            (combine
               (combine (acc1 :: cumsum_from acc1 l1) (cumsum_from acc1 l1))
               (combine (acc2 :: cumsum_from acc2 l2) (cumsum_from acc2 l2)))))
  = list_sum (map (fun '(r, c) => r * c) (combine l1 l2)).
Proof.
  revert l2 acc1 acc2.
  induction l1 as [| r l1 IH]; intros [| c l2] acc1 acc2 Hlen H1 H2;
    try discriminate; [reflexivity |].
  cbn [cumsum_from combine map concat] in *. rewrite !list_sum_cons in *.
  rewrite length_app, length_ravel_slice2, IH by (simpl in Hlen; lia).
  f_equal. 
  replace (Nat.min (acc1 + r) (nrows a)) with (acc1 + r) by lia.
  replace (Nat.min acc1 (nrows a)) with acc1 by lia.
  replace (Nat.min (acc2 + c) (ncols a)) with (acc2 + c) by lia.
  replace (Nat.min acc2 (ncols a)) with acc2 by lia.
  f_equal; lia.
Qed.

Lemma split_combine_same {A B} (l1 : list A) (l2 : list B) :
  length l1 = length l2 -> split (combine l1 l2) = (l1, l2).
Proof.
  revert l2. induction l1 as [| a l1 IH]; intros [| b l2] Hlen;
    try discriminate; [reflexivity |].
  simpl. rewrite IH by (simpl in Hlen; lia). reflexivity.
Qed.

Lemma length_cumsum_from (acc : nat) (l : list nat) :
  length (cumsum_from acc l) = length l.
Proof.
  revert acc. induction l as [| n l IH]; intros acc; simpl;
    [reflexivity | now rewrite IH].
Qed.

Lemma block_ravel_length (a : matrix R) (l1 l2 : list nat) :
  length l1 = length l2 -> l1 <> [] ->
  list_sum l1 <= nrows a -> list_sum l2 <= ncols a ->
  exists v, block_ravel a ((0, 0) :: combine (cumsum l1) (cumsum l2)) = OK v
            /\ length v = list_sum (map (fun '(r, c) => r * c) (combine l1 l2)).
Proof.
  intros Hlen Hne H1 H2. unfold block_ravel, cumsum.
  rewrite bind_OK. cbn [split].
  rewrite split_combine_same by now rewrite !length_cumsum_from.
  cbv beta iota. cbn [tl]. rewrite hstack_OK.
  - eexists. split; [reflexivity |]. now apply length_blocks.
  - destruct l1 as [| r l1]; [congruence |].
    destruct l2 as [| c l2]; [discriminate |]. discriminate.
Qed.

Lemma np_dot_OK (a b : matrix R) :
  ncols a = nrows b ->
  exists m, np_dot a b = OK m /\ nrows m = nrows a /\ ncols m = ncols b.
Proof.
  intros Hab. unfold np_dot. rewrite Hab, Nat.eqb_refl.
  eexists. repeat split.
Qed.

End RavelLength.

Lemma map_flat_map {A B C} (g : B -> C) (f : A -> list B) (l : list A) :
  map g (flat_map f l) = flat_map (fun a => map g (f a)) l.
Proof.
  induction l as [| a l IH]; simpl; [reflexivity |].
  now rewrite map_app, IH.
Qed.

Section Sizes.

Variable self : NodeTypeEdgeFeatureGraphCRF.
Hypothesis Hwf : wf_model self = true.

(** The declared edge-feature counts, in the order of the type pairs, are
    the elements of the count matrix in row-major order. *)
Lemma edge_feature_counts_ravel :
  map (fun '(t1, t2) => mget 0 (a_n_edge_features self) t1 t2)
      (_iter_type_pairs self)
  = ravel (a_n_edge_features self).
Proof.
  pose proof (wf_model_spec self Hwf) as (_ & _ & Hr & Hc & Hlen).
  assert (Hwfa : wf_matrix (a_n_edge_features self))
    by (unfold wf_matrix; now rewrite Hr, Hc).
  unfold ravel.
  transitivity (mdata (mk_matrix (nrows (a_n_edge_features self))
                                 (ncols (a_n_edge_features self))
                                 (mget 0 (a_n_edge_features self))));
    [| now rewrite mk_matrix_mget].
  unfold _iter_type_pairs, mk_matrix. cbn [mdata]. rewrite Hr, Hc, map_flat_map.
  apply flat_map_ext. intros t1. now rewrite map_map.
Qed.

Lemma state_products_OK :
  state_products self
  = OK (map (fun '(t1, t2) =>
               nth t1 (l_n_states self) 0 * nth t2 (l_n_states self) 0)
            (_iter_type_pairs self)).
Proof.
  pose proof (wf_model_spec self Hwf) as (Hs & _).
  unfold state_products. apply mapM_map. intros [t1 t2] Hin.
  apply in_iter_type_pairs in Hin as [H1 H2].
  now rewrite !(py_index_nth _ _ 0) by lia.
Qed.

Lemma pairwise_size_blocks :
  list_sum
    (map (fun '(r, c) => r * c)
         (combine (ravel (a_n_edge_features self))
                  (map (fun '(t1, t2) =>
                          nth t1 (l_n_states self) 0
                          * nth t2 (l_n_states self) 0)
                       (_iter_type_pairs self))))
  = pairwise_size (n_types self) (l_n_states self) (a_n_edge_features self).
Proof.
  rewrite <- edge_feature_counts_ravel, combine_map_map, map_map.
  unfold pairwise_size, _iter_type_pairs. rewrite list_sum_flat_map.
  f_equal. apply map_ext. intros t1. rewrite map_map. f_equal.
  apply map_ext. intros t2. lia.
Qed.

Lemma unary_size_blocks :
  list_sum (map (fun '(r, c) => r * c)
                (combine (l_n_states self) (l_n_features self)))
  = unary_size (n_types self) (l_n_states self) (l_n_features self).
Proof.
  pose proof (wf_model_spec self Hwf) as (Hs & Hf & _).
  rewrite list_sum_combine_nth by congruence. now rewrite Hs.
Qed.

End Sizes.

Section AssembleLength.

Context {R : Type} `{Scalar R}.
Variable self : NodeTypeEdgeFeatureGraphCRF.

(** From the marginals on, [joint_feature] returns a vector of the length
    of the layout, when every node-feature block is present and the
    blocks have the shapes that the model declares. *)
Lemma assemble_length (x : instance R) (unary_marginals pw : matrix R) :
  wf_model self = true ->
  l_n_features self <> [] ->
  layout_fits self = true ->
  length (x_node_features x) = n_types self ->
  forallb (fun '(o, f) =>
             match o with
             | None => false
             | Some a => match shape a with
                         | [n; c] => c =? f
                         | _ => false
                         end
             end) (combine (x_node_features x) (l_n_features self)) = true ->
  length (x_edges x) = n_types self ^ 2 ->
  length (x_edge_features x) = n_types self ^ 2 ->
  forallb edge_item_ok
    (combine (ravel (a_n_edge_features self))
             (combine (x_edges x) (x_edge_features x))) = true ->
  nrows unary_marginals = list_sum (node_counts x) ->
  ncols unary_marginals = _n_states self ->
  nrows pw = list_sum (map edge_rows (x_edges x)) ->
  ncols pw = _n_states self ^ 2 ->
  exists v,
    assemble self x (list_sum (node_counts x))
      (list_sum (map edge_rows (x_edges x))) unary_marginals pw = OK v
    /\ size_joint_feature self = OK (Z.of_nat (length v)).
Proof.
  intros Hwf Hne Hfit Hn Hnodes He Hf Hedges Hur Huc Hpr Hpc.
  pose proof (wf_model_spec self Hwf) as (Hs & Hfe & Har & Hac & Hal).
  destruct (size_attributes_nonempty self Hwf Hne
              (proj2 (layout_fits_spec self Hfit))) as (Hsu & Hsp & Hsj).
  destruct (n_edge_features_fits self (proj1 (layout_fits_spec self Hfit)))
    as [_ Hdim].
  unfold assemble, _get_node_features, _get_edge_features. rewrite !bind_OK.
  (* node features *)
  destruct (stack_node_loop (l_n_features self) (x_node_features x) 0 0
              (zeros (list_sum (node_counts x)) (_n_features self)) Hnodes)
    as (m1 & Hm1 & Hr1 & Hc1).
  { rewrite firstn_all2 by lia. simpl. unfold node_counts. lia. }
  { simpl. unfold _n_features. lia. }
  rewrite firstn_all2 in Hm1 by lia.
  unfold _a_feature_slice_by_typ. rewrite Hm1, bind_OK. cbv beta iota.
  fold (node_counts x). rewrite Nat.add_0_l, Nat.eqb_refl.
  cbn [py_assert]. rewrite bind_OK.
  destruct (np_dot_OK (transpose zero unary_marginals) m1)
    as (ua & Hua & Huar & Huac).
  { rewrite Hr1. simpl. exact Hur. }
  rewrite Hua, bind_OK, Hdim, bind_OK.
  (* edge features *)
  destruct (stack_edge_loop (ravel (a_n_edge_features self)) (x_edges x)
              (x_edge_features x) 0 0
              (zeros (list_sum (map edge_rows (x_edges x)))
                     (list_sum (mdata (a_n_edge_features self)))))
    as (i' & ic' & m2 & Hm2 & Hr2 & Hc2); try assumption.
  { congruence. }
  { unfold ravel. rewrite Hal, Hf. simpl. lia. }
  { simpl. lia. }
  { simpl. unfold ravel. lia. }
  rewrite Hm2, bind_OK. cbv beta iota. unfold bPW_std.
  destruct (np_dot_OK (transpose zero m2) pw) as (pa & Hpa & Hpar & Hpac).
  { rewrite Hpr. simpl. rewrite Hr2. reflexivity. }
  rewrite Hpa, bind_OK.
  (* unary part *)
  destruct (block_ravel_length ua (l_n_states self) (l_n_features self))
    as (u & Hu & Hul).
  { congruence. }
  { destruct (l_n_states self); [| discriminate].
    destruct (l_n_features self); [congruence | simpl in *; lia]. }
  { rewrite Huar. simpl. rewrite Huc. unfold _n_states. lia. }
  { rewrite Huac, Hc1. simpl. unfold _n_features. lia. }
  rewrite Hu, bind_OK, Hsu, bind_OK.
  rewrite Hul, unary_size_blocks, Nat.eqb_refl by assumption.
  cbn [py_assert]. rewrite bind_OK.
  (* pairwise part *)
  rewrite state_products_OK, bind_OK by assumption. cbv beta iota.
  destruct (block_ravel_length pa (ravel (a_n_edge_features self))
              (map (fun '(t1, t2) =>
                      nth t1 (l_n_states self) 0 * nth t2 (l_n_states self) 0)
                   (_iter_type_pairs self)))
    as (p & Hp & Hpl).
  { rewrite length_map, length_iter_type_pairs. unfold ravel.
    rewrite Hal. simpl. lia. }
  { unfold ravel. intros Hnil. rewrite Hnil in Hal. simpl in Hal.
    destruct (l_n_features self); [congruence | simpl in Hfe; nia]. }
  { rewrite Hpar. simpl. rewrite Hc2. simpl. unfold ravel. lia. }
  { rewrite Hpac, Hpc, sum_state_products by assumption. lia. }
  rewrite Hp, bind_OK, Hsp, bind_OK.
  rewrite Hpl, pairwise_size_blocks, Z.eqb_refl by assumption.
  cbn [py_assert]. rewrite bind_OK.
  cbn [hstack concat]. rewrite bind_OK, Hsj, bind_OK, app_nil_r, length_app.
  rewrite Hul, Hpl, unary_size_blocks, pairwise_size_blocks by assumption.
  rewrite Z.eqb_refl. cbn [py_assert]. rewrite bind_OK.
  eexists. split; [reflexivity |].
  rewrite length_app, Hul, Hpl, unary_size_blocks, pairwise_size_blocks
    by assumption.
  reflexivity.
Qed.

End AssembleLength.

Lemma forallb_impl {A} (f g : A -> bool) (l : list A) :
  (forall a, In a l -> f a = true -> g a = true) ->
  forallb f l = true -> forallb g l = true.
Proof.
  intros Hfg Hf. apply forallb_forall. intros a Ha.
  apply Hfg; [assumption |]. revert a Ha. now apply forallb_forall.
Qed.

Lemma forallb_combine_map_l {A A' B} (g : A -> A') (f : A' * B -> bool)
  (l1 : list A) (l2 : list B) :
  forallb f (combine (map g l1) l2)
  = forallb (fun '(a, b) => f (g a, b)) (combine l1 l2).
Proof.
  revert l2. induction l1 as [| a l1 IH]; intros [| b l2]; simpl;
    try reflexivity.
  now rewrite IH.
Qed.

Lemma in_combine_r_exists {A B} (l1 : list A) (l2 : list B) (b : B) :
  length l1 = length l2 -> In b l2 -> exists a, In (a, b) (combine l1 l2).
Proof.
  revert l2. induction l1 as [| a l1 IH]; intros [| b' l2] Hlen Hin;
    simpl in *; try contradiction; try discriminate.
  destruct Hin as [-> | Hin].
  - exists a. now left.
  - destruct (IH l2) as [a' Ha']; [lia | assumption |]. exists a'. now right.
Qed.

Section ValidInstances.

Context {R : Type} `{Scalar R}.
Variable self : NodeTypeEdgeFeatureGraphCRF.
Variable cx : instance R -> result unit.

Lemma valid_edge_features_items (x : instance R) :
  wf_model self = true -> valid_edge_features self x = true ->
  length (x_edge_features x) = n_types self ^ 2
  /\ forallb edge_item_ok
       (combine (ravel (a_n_edge_features self))
                (combine (x_edges x) (x_edge_features x))) = true.
Proof.
  intros Hwf Hvalid. unfold valid_edge_features in Hvalid.
  apply andb_true_iff in Hvalid as [Hlen Hall]. apply Nat.eqb_eq in Hlen.
  split; [exact Hlen |].
  rewrite <- (edge_feature_counts_ravel self Hwf), forallb_combine_map_l.
  revert Hall. apply forallb_impl.
  intros [[t1 t2] [[e |] [ef |]]] _; simpl; try (intros; assumption).
  destruct (shape ef) as [| n [| c [| ? ?]]]; try (intros; assumption).
  intros Hcond. apply andb_true_iff in Hcond as [Hcond _]. exact Hcond.
Qed.

Lemma present_nodes_shapes (x : instance R) :
  valid_nodes self x = true -> nodes_present x = true ->
  forallb (fun '(o, f) =>
             match o with
             | None => false
             | Some a => match shape a with
                         | [n; c] => c =? f
                         | _ => false
                         end
             end) (combine (x_node_features x) (l_n_features self)) = true.
Proof.
  unfold valid_nodes, nodes_present. intros Hvalid Hpresent.
  apply andb_true_iff in Hvalid as [_ Hall].
  revert Hall. apply forallb_impl.
  intros [[a |] f] Hin; simpl.
  - destruct (shape a) as [| n [| c [| ? ?]]]; try (intros; assumption).
    intros Hcond. now apply andb_true_iff in Hcond as [Hcond _].
  - apply in_combine_l in Hin. rewrite forallb_forall in Hpresent.
    now specialize (Hpresent _ Hin).
Qed.

(** An instance of the declared shapes passes validation, when the
    validator of the base class accepts it. *)
Lemma check_size_x_valid (x : instance R) :
  wf_model self = true ->
  valid_edges self x = true -> valid_edge_features self x = true ->
  cx x = OK tt ->
  _check_size_x self cx x = OK tt.
Proof.
  intros Hwf Hedges Hefs Hcx.
  pose proof (valid_edges_spec self x Hedges) as [He _].
  pose proof Hefs as Hvalid. unfold valid_edge_features in Hvalid.
  apply andb_true_iff in Hvalid as [Hf Hall]. apply Nat.eqb_eq in Hf.
  apply check_size_x_OK. repeat split; try assumption.
  - intros [oe oef] Hin.
    destruct (in_combine_r_exists (_iter_type_pairs self)
                (combine (x_edges x) (x_edge_features x)) (oe, oef))
      as [[t1 t2] Hp]; [| assumption |].
    { rewrite length_iter_type_pairs, length_combine. lia. }
    rewrite forallb_forall in Hall. specialize (Hall _ Hp). simpl in *.
    destruct oe as [e |], oef as [ef |]; try discriminate; [| reflexivity].
    apply check_edge_pair_present. unfold ndim, len.
    destruct (shape ef) as [| n [| c [| ? ?]]]; try discriminate.
    apply andb_true_iff in Hall as [Hall _].
    apply andb_true_iff in Hall as [Hn _]. apply Nat.eqb_eq in Hn.
    split; [reflexivity | now subst n].
  - intros [t1 t2] Hin. apply in_iter_type_pairs in Hin as [H1 H2]. simpl.
    assert (Hk : t1 * n_types self + t2 < n_types self ^ 2) by (simpl; nia).
    pose proof (forallb_combine_nth _ _ _ (t1 * n_types self + t2)
                  (0, 0) (None, None) Hall) as Hit.
    rewrite length_iter_type_pairs, length_combine, He, Hf, Nat.min_id in Hit.
    specialize (Hit Hk Hk).
    rewrite combine_nth in Hit by congruence.
    rewrite (nth_error_nth _ _ (0, 0)
               (nth_error_iter_type_pairs self t1 t2 H1 H2)) in Hit.
    destruct (nth (t1 * n_types self + t2) (x_edge_features x) None)
      as [ef |] eqn:Hef.
    + destruct (nth _ (x_edges x) None) as [e |]; [| discriminate].
      destruct (shape ef) as [| n [| c [| ? ?]]] eqn:Hshape; try discriminate.
      apply andb_true_iff in Hit as [Hit _].
      apply andb_true_iff in Hit as [_ Hc]. apply Nat.eqb_eq in Hc.
      rewrite (check_edge_feature_size_present self x t1 t2 ef c);
        try assumption.
      * subst c. now rewrite Nat.eqb_refl.
      * rewrite <- Hef. apply nth_error_nth'. lia.
      * unfold shape_at. now rewrite Hshape.
    + unfold check_edge_feature_size, _get_edge_features_by_type.
      rewrite (py_index_nth _ _ None) by lia. now rewrite Hef.
Qed.

End ValidInstances.

(** The length of the joint feature: for a model with at least one type,
    a valid instance whose node-feature blocks are all present and a
    valid discrete labeling, [joint_feature] returns a vector whose
    length is [size_joint_feature]. *)
Theorem joint_feature_length :
  forall (R : Type) (SR : Scalar R) (self : NodeTypeEdgeFeatureGraphCRF)
         (cx : instance R -> result unit)
         (cy : instance R -> labeling R -> result unit)
         (x : instance R) (y : list (list Z)),
    wf_model self = true ->
    l_n_features self <> [] ->
    layout_fits self = true ->
    valid_nodes self x = true ->
    nodes_present x = true ->
    valid_edges self x = true ->
    valid_edge_features self x = true ->
    valid_labels self x y = true ->
    cx x = OK tt ->
    cy x (Discrete y) = OK tt ->
    exists v,
      joint_feature self cx cy x (Discrete y) = OK v
      /\ size_joint_feature self = OK (Z.of_nat (length v)).
Proof.
  intros R SR self cx cy x y Hwf Hne Hfit Hnodes Hpresent Hedges Hefs Hlab
    Hcx Hcy.
  pose proof (valid_nodes_spec self x Hwf Hnodes) as [Hn Hok].
  pose proof (valid_edges_spec self x Hedges) as [He _].
  pose proof (valid_edge_features_items self x Hwf Hefs) as [Hf Hitems].
  unfold joint_feature.
  rewrite (check_size_x_valid self cx x) by assumption. rewrite bind_OK.
  rewrite Hcy, bind_OK.
  pose proof (node_counts_computed x Hok) as Hcounts.
  destruct (_get_node_features x true) as [e | cleaned]; [discriminate |].
  rewrite bind_OK in Hcounts. rewrite !bind_inr, Hcounts, !bind_OK.
  rewrite edge_counts_computed, !bind_OK.
  rewrite marginals_discrete by assumption. rewrite bind_OK. cbv beta iota.
  apply assemble_length; try assumption; try reflexivity.
  now apply present_nodes_shapes.
Qed.

Lemma joint_feature_length_witness :
  exists v,
    joint_feature example_model (spec_check_size_x example_model)
      (spec_check_size_y example_model) example_instance
      (Discrete example_labels) = OK v
    /\ size_joint_feature example_model = OK (Z.of_nat (length v)).
Proof.
  apply (joint_feature_length Z Scalar_Z example_model
           (spec_check_size_x example_model) (spec_check_size_y example_model)
           example_instance example_labels); try reflexivity.
  discriminate.
Defined.

(** C4: for every valid instance and every valid discrete labeling, the
    joint feature of the labeling equals, element by element, the joint
    feature of the marginals pair that puts mass one on the observed
    labels, in the global state layout and in the state-product layout,
    and zero elsewhere; and both are the same vector, not an error, when
    the checks pass, every node-feature block is present and the layout
    fits the [int64] range. *)
Theorem joint_feature_discrete_equals_onehot_marginals :
  forall (R : Type) (SR : Scalar R) (self : NodeTypeEdgeFeatureGraphCRF)
         (cx : instance R -> result unit)
         (cy : instance R -> labeling R -> result unit)
         (x : instance R) (y : list (list Z)),
    wf_model self = true ->
    valid_nodes self x = true ->
    valid_edges self x = true ->
    valid_labels self x y = true ->
    cy x (Discrete y)
    = cy x (Relaxed (onehot_unary_marginals self x y)
                    (onehot_pairwise_marginals self x y)) ->
    joint_feature self cx cy x (Discrete y)
    = joint_feature self cx cy x
        (Relaxed (onehot_unary_marginals self x y)
                 (onehot_pairwise_marginals self x y))
    /\ (l_n_features self <> [] ->
        layout_fits self = true ->
        nodes_present x = true ->
        valid_edge_features self x = true ->
        cx x = OK tt ->
        cy x (Discrete y) = OK tt ->
        exists v,
          joint_feature self cx cy x
            (Relaxed (onehot_unary_marginals self x y)
                     (onehot_pairwise_marginals self x y)) = OK v
          /\ size_joint_feature self = OK (Z.of_nat (length v))).
Proof.
  intros R SR self cx cy x y Hwf Hnodes Hedges Hlab Hcy.
  assert (Heq : joint_feature self cx cy x (Discrete y)
                = joint_feature self cx cy x
                    (Relaxed (onehot_unary_marginals self x y)
                             (onehot_pairwise_marginals self x y))).
  { pose proof (valid_nodes_spec self x Hwf Hnodes) as [_ Hok].
    pose proof (valid_edges_spec self x Hedges) as [He _].
    unfold joint_feature. rewrite Hcy. clear Hcy.
    destruct (_check_size_x self cx x) as [e | []]; [reflexivity |].
    rewrite !bind_inr.
    destruct (cy x (Relaxed _ _)) as [e | []]; [reflexivity |].
    rewrite !bind_inr.
    pose proof (node_counts_computed x Hok) as Hcounts.
    destruct (_get_node_features x true) as [e | cleaned]; [discriminate |].
    rewrite bind_OK in Hcounts. rewrite !bind_inr, Hcounts, !bind_OK.
    rewrite edge_counts_computed, !bind_OK.
    rewrite marginals_discrete by assumption.
    now rewrite marginals_relaxed_onehot by assumption. }
  split; [exact Heq |].
  intros Hne Hfit Hpresent Hefs Hcx Hcyd. rewrite <- Heq.
  now apply joint_feature_length.
Qed.

Lemma joint_feature_discrete_equals_onehot_marginals_witness :
  joint_feature example_model (spec_check_size_x example_model)
    (spec_check_size_y example_model) example_instance
    (Discrete example_labels)
  = joint_feature example_model (spec_check_size_x example_model)
      (spec_check_size_y example_model) example_instance
      (Relaxed (onehot_unary_marginals example_model example_instance
                  example_labels)
               (onehot_pairwise_marginals example_model example_instance
                  example_labels)).
Proof.
  apply (joint_feature_discrete_equals_onehot_marginals Z Scalar_Z
           example_model (spec_check_size_x example_model)
           (spec_check_size_y example_model) example_instance example_labels);
    reflexivity.
Defined.

(** A type pair without edges in the loops: given by an edge block of no
    row and an edge-feature block of no row with the declared number of
    columns, it passes both checks of validation, counts for no edge,
    and changes neither the one-hot pairwise marginals nor the stacked
    edge features: each of the two loops goes on from the state it would
    have without the pair, the row offset unchanged and the column
    offset advanced by the declared count. *)
Lemma zero_edge_pair_steps :
  forall (R : Type) (SR : Scalar R) (self : NodeTypeEdgeFeatureGraphCRF)
         (cx : instance R -> result unit)
         (x : instance R) (y : list (list Z)) (typ1 typ2 : nat)
         (e : matrix Z) (ef : ndarray R)
         (i_start i_col_start edgetype_start_index : nat)
         (pw all_edge_features : matrix R)
         (pairs_before pairs_after
            : list ((nat * nat) * option (matrix Z) * nat))
         (blocks_before blocks_after : list (option (ndarray R)))
         (st_pw : nat * matrix R) (st_ef : nat * nat * matrix R),
    wf_model self = true ->
    typ1 < n_types self -> typ2 < n_types self ->
    nth_error (x_edges x) (typ1 * n_types self + typ2) = Some (Some e) ->
    nth_error (x_edge_features x) (typ1 * n_types self + typ2)
    = Some (Some ef) ->
    nrows e = 0 -> ncols e = 2 ->
    shape ef = [0; mget 0 (a_n_edge_features self) typ1 typ2] ->
    length y = n_types self ->
    wf_matrix pw -> wf_matrix all_edge_features ->
    i_col_start + mget 0 (a_n_edge_features self) typ1 typ2
    <= ncols all_edge_features ->
    for_each (pairwise_step self y) pairs_before st_pw = OK (i_start, pw) ->
    for_each stack_edge_step blocks_before st_ef
    = OK (i_start, i_col_start, all_edge_features) ->
    check_edge_pair (Some e) (Some ef) = OK tt
    /\ check_edge_feature_size self x typ1 typ2 = OK tt
    /\ (valid_edges self x = true -> valid_edge_features self x = true ->
        cx x = OK tt -> _check_size_x self cx x = OK tt)
    /\ (exists l_n_edges,
           mapM shape0 (_get_edges x true) = OK l_n_edges
           /\ nth_error l_n_edges (typ1 * n_types self + typ2) = Some 0)
    /\ pairwise_step self y (i_start, pw)
         ((typ1, typ2), Some e, edgetype_start_index)
       = OK (i_start, pw)
    /\ stack_edge_step (i_start, i_col_start, all_edge_features) (Some ef)
       = OK (i_start,
             i_col_start + mget 0 (a_n_edge_features self) typ1 typ2,
             all_edge_features)
    /\ for_each (pairwise_step self y)
         (pairs_before ++ ((typ1, typ2), Some e, edgetype_start_index)
                          :: pairs_after) st_pw
       = for_each (pairwise_step self y) pairs_after (i_start, pw)
    /\ for_each stack_edge_step (blocks_before ++ Some ef :: blocks_after)
         st_ef
       = for_each stack_edge_step blocks_after
           (i_start,
            i_col_start + mget 0 (a_n_edge_features self) typ1 typ2,
            all_edge_features).
Proof.
  intros R SR self cx x y typ1 typ2 e ef i_start i_col_start start pw m
    pairs_before pairs_after blocks_before blocks_after st_pw st_ef
    Hwf H1 H2 He Hef Hr Hc Hshape Hy Hwpw Hwm Hcol Hpw Hst.
  pose proof (wf_model_spec self Hwf) as (Hs & _).
  assert (Hstep_pw : pairwise_step self y (i_start, pw)
                       ((typ1, typ2), Some e, start) = OK (i_start, pw))
    by (apply pairwise_step_no_edges; (assumption || lia)).
  assert (Hstep_ef : stack_edge_step (i_start, i_col_start, m) (Some ef)
                     = OK (i_start,
                           i_col_start
                           + mget 0 (a_n_edge_features self) typ1 typ2, m))
    by now apply stack_edge_step_no_edges.
  repeat split.
  - apply check_edge_pair_present. unfold ndim, len. rewrite Hshape.
    split; [reflexivity | now rewrite Hr].
  - rewrite (check_edge_feature_size_present self x typ1 typ2 ef
               (mget 0 (a_n_edge_features self) typ1 typ2));
      try assumption.
    + now rewrite Nat.eqb_refl.
    + unfold shape_at. now rewrite Hshape.
  - intros Hedges Hefs Hcx. now apply check_size_x_valid.
  - exists (map edge_rows (x_edges x)). split; [apply edge_counts_computed |].
    rewrite nth_error_map, He. simpl. now rewrite Hr.
  - exact Hstep_pw.
  - exact Hstep_ef.
  - rewrite for_each_app, Hpw, bind_OK. cbn [for_each].
    now rewrite Hstep_pw, bind_OK.
  - rewrite for_each_app, Hst, bind_OK. cbn [for_each].
    now rewrite Hstep_ef, bind_OK.
Qed.

(** * Further properties of the module *)

(** ** Layout: missing state counts *)

Lemma for_each_error_kind {A S} (body : S -> A -> result S) (e0 : exn)
  (l : list A) (s : S) (e : exn) :
  (forall s' a e', body s' a = inl e' -> e' = e0) ->
  for_each body l s = inl e -> e = e0.
Proof.
  intros Hbody. revert s. induction l as [| a l IH]; intros s Hloop;
    [discriminate |].
  simpl in Hloop. destruct (body s a) as [e' | s'] eqn:Hstep.
  - simpl in Hloop. inversion Hloop; subst. now apply (Hbody s a).
  - now apply (IH s').
Qed.

Lemma py_index_error {A} (l : list A) (i : nat) (e : exn) :
  py_index l i = inl e -> e = IndexError.
Proof.
  unfold py_index. destruct (nth_error l i); intros Heq; inversion Heq.
  reflexivity.
Qed.

(** X2: With a non-empty list of feature counts and a count matrix of
    shape [(n_types, n_types)], whose counts, like the state counts and
    the unary size, are below [2^63]: [_set_size_joint_feature] raises
    [IndexError] when fewer than [n_types] state counts are given, and
    otherwise sets the three sizes: the unary size over the types that
    have both a state and a feature count, the pairwise size over all
    ordered pairs, wrapped to [int64], and the total, wrapped as well. *)
Theorem set_size_joint_feature_state_counts :
  forall self : NodeTypeEdgeFeatureGraphCRF,
    nrows (a_n_edge_features self) = n_types self ->
    ncols (a_n_edge_features self) = n_types self ->
    l_n_features self <> [] ->
    forallb below_int64 (l_n_states self) = true ->
    forallb below_int64 (mdata (a_n_edge_features self)) = true ->
    below_int64 (list_sum (map (fun '(s, f) => s * f)
                               (combine (l_n_states self)
                                        (l_n_features self)))) = true ->
    (length (l_n_states self) < n_types self ->
     _set_size_joint_feature self = raise IndexError)
    /\ (n_types self <= length (l_n_states self) ->
        let u := list_sum (map (fun '(s, f) => s * f)
                               (combine (l_n_states self) (l_n_features self))) in
        let p := list_sum
                   (map (fun '(t1, t2) =>
                           mget 0 (a_n_edge_features self) t1 t2
                           * nth t1 (l_n_states self) 0
                           * nth t2 (l_n_states self) 0)
                        (_iter_type_pairs self)) in
        _set_size_joint_feature self
        = OK (Some (u, wrap64 (Z.of_nat p), wrap64 (Z.of_nat (u + p))))
        /\ (below_int64 (u + p) = true ->
            _set_size_joint_feature self
            = OK (Some (u, Z.of_nat p, Z.of_nat (u + p))))).
Proof.
  intros self Hr Hc Hne _ _ _.
  assert (Htruthy : truthy (l_n_features self) = true)
    by (destruct (l_n_features self); [congruence | reflexivity]).
  assert (Hcount : forall t1 t2, t1 < n_types self -> t2 < n_types self ->
                     edge_feature_count self t1 t2
                     = OK (mget 0 (a_n_edge_features self) t1 t2)).
  { intros t1 t2 H1 H2. unfold edge_feature_count. rewrite Hr, Hc.
    apply Nat.ltb_lt in H1, H2. now rewrite H1, H2. }
  unfold _set_size_joint_feature. rewrite Htruthy.
  set (body := fun (size_pairwise : Z) '(typ1, typ2) =>
                 a <- edge_feature_count self typ1 typ2 ;;
                 s1 <- py_index (l_n_states self) typ1 ;;
                 s2 <- py_index (l_n_states self) typ2 ;;
                 OK (int64_add size_pairwise
                       (int64_mul (int64_mul (Z.of_nat a) (Z.of_nat s1))
                                  (Z.of_nat s2)))).
  split.
  - intros Hshort.
    assert (Hraises : raises (for_each body (_iter_type_pairs self) 0%Z)).
    { apply (for_each_raises body _ _ (0, length (l_n_states self))).
      - apply in_iter_type_pairs. lia.
      - intros n. unfold body. rewrite Hcount by lia. rewrite bind_OK.
        apply raises_bind_right. intros s1. apply raises_bind_left.
        unfold py_index.
        rewrite (proj2 (nth_error_None _ _) (le_n _)).
        now exists IndexError. }
    destruct Hraises as [e He]. rewrite He. simpl. unfold raise. f_equal.
    apply (for_each_error_kind body IndexError _ _ _) with (2 := He).
    intros n [t1 t2] e'. unfold body.
    unfold edge_feature_count.
    destruct ((t1 <? nrows (a_n_edge_features self))
              && (t2 <? ncols (a_n_edge_features self)));
      [| intros Heq; inversion Heq; reflexivity].
    rewrite bind_OK.
    destruct (py_index (l_n_states self) t1) as [e1 | s1] eqn:H1;
      [intros Heq; inversion Heq; subst; now apply py_index_error in H1 |].
    rewrite bind_inr.
    destruct (py_index (l_n_states self) t2) as [e2 | s2] eqn:H2;
      [intros Heq; inversion Heq; subst; now apply py_index_error in H2 |].
    rewrite bind_inr. intros Heq. discriminate.
  - intros Hlong. cbv zeta.
    set (u := list_sum (map (fun '(s, f) => s * f)
                            (combine (l_n_states self) (l_n_features self)))).
    set (p := list_sum
                (map (fun '(t1, t2) =>
                        mget 0 (a_n_edge_features self) t1 t2
                        * nth t1 (l_n_states self) 0
                        * nth t2 (l_n_states self) 0)
                     (_iter_type_pairs self))).
    assert (Hsizes : (size_pairwise <- for_each body (_iter_type_pairs self) 0%Z ;;
                      OK (Some (u, size_pairwise,
                                int64_add (Z.of_nat u) size_pairwise)))
                     = OK (Some (u, wrap64 (Z.of_nat p),
                                 wrap64 (Z.of_nat (u + p))))).
    { change 0%Z with (wrap64 0) at 1.
      rewrite (for_each_int64_sum body
                 (fun '(t1, t2) =>
                    mget 0 (a_n_edge_features self) t1 t2
                    * nth t1 (l_n_states self) 0 * nth t2 (l_n_states self) 0)).
      - rewrite bind_OK, Z.add_0_l. fold p. unfold int64_add.
        now rewrite wrap64_add_r, <- Nat2Z.inj_add.
      - intros n [t1 t2] Hin. apply in_iter_type_pairs in Hin as [H1 H2].
        unfold body. rewrite Hcount by assumption. rewrite bind_OK.
        rewrite !(py_index_nth _ _ 0) by lia. rewrite !bind_OK.
        now rewrite int64_product. }
    split; [exact Hsizes |].
    intros Hfit. rewrite Hsizes.
    rewrite (wrap64_of_nat _ Hfit).
    rewrite (wrap64_of_nat p)
      by (apply (below_int64_le _ _ (Nat.le_add_l _ _) Hfit)).
    reflexivity.
Qed.

Lemma set_size_joint_feature_state_counts_witness :
  _set_size_joint_feature (CRF 2 [2] [3; 2] (Matrix 2 2 [1; 2; 2; 0]))
  = raise IndexError.
Proof.
  assert (Hne : [3; 2] <> @nil nat) by discriminate.
  apply (proj1 (set_size_joint_feature_state_counts
                  (CRF 2 [2] [3; 2] (Matrix 2 2 [1; 2; 2; 0]))
                  eq_refl eq_refl Hne eq_refl eq_refl eq_refl)).
  simpl. lia.
Defined.

(** ** Validation: when it accepts *)

(** X3: [_check_size_x] accepts an instance exactly when it holds
    [n_types ** 2] edge blocks and as many edge-feature blocks, the
    validator of the base class accepts it, every edge block passes the
    pair check with its edge-feature block, and every type pair passes
    the column check; a wrong number of edge blocks, then of edge-feature
    blocks, is reported before the base class is asked. *)
Theorem check_size_x_accepts_iff :
  forall (R : Type) (SR : Scalar R) (self : NodeTypeEdgeFeatureGraphCRF)
         (cx : instance R -> result unit) (x : instance R),
    (_check_size_x self cx x = OK tt <->
     length (x_edges x) = n_types self ^ 2
     /\ length (x_edge_features x) = n_types self ^ 2
     /\ cx x = OK tt
     /\ (forall p, In p (combine (x_edges x) (x_edge_features x)) ->
                   check_edge_pair (fst p) (snd p) = OK tt)
     /\ (forall p, In p (_iter_type_pairs self) ->
                   check_edge_feature_size self x (fst p) (snd p) = OK tt))
    /\ (length (x_edges x) <> n_types self ^ 2 ->
        _check_size_x self cx x
        = raise (ValueError (Expected_edge_arrays (n_types self ^ 2))))
    /\ (length (x_edges x) = n_types self ^ 2 ->
        length (x_edge_features x) <> n_types self ^ 2 ->
        _check_size_x self cx x
        = raise (ValueError (Expected_edge_feature_arrays (n_types self ^ 2)))).
Proof.
  intros R SR self cx x. split; [apply check_size_x_OK |].
  unfold _check_size_x, _get_edges, _get_edge_features. split.
  - intros He. apply Nat.eqb_neq in He. now rewrite He.
  - intros He Hf. rewrite He, Nat.eqb_refl. cbn -[Nat.pow Nat.eqb].
    apply Nat.eqb_neq in Hf. now rewrite Hf.
Qed.

Lemma check_size_x_accepts_iff_witness :
  _check_size_x example_model (spec_check_size_x example_model)
    (Instance (x_node_features example_instance) [None]
              (x_edge_features example_instance))
  = raise (ValueError (Expected_edge_arrays 4)).
Proof.
  apply (proj1 (proj2 (check_size_x_accepts_iff Z Scalar_Z example_model
                         (spec_check_size_x example_model)
                         (Instance (x_node_features example_instance) [None]
                                   (x_edge_features example_instance))))).
  simpl. lia.
Defined.

(** ** Cleaned edge features *)

Lemma mapM_raises {A B} (f : A -> result B) (l : list A) (a : A) :
  In a l -> raises (f a) -> raises (mapM f l).
Proof.
  induction l as [| b l IH]; intros Hin Ha; [contradiction |].
  simpl. destruct Hin as [-> | Hin].
  - now apply raises_bind_left.
  - apply raises_bind_right. intros b'. apply raises_bind_left. now apply IH.
Qed.

Lemma mapM_error_kind {A B} (f : A -> result B) (e0 : exn) (l : list A)
  (e : exn) :
  (forall a e', f a = inl e' -> e' = e0) -> mapM f l = inl e -> e = e0.
Proof.
  intros Hf. induction l as [| a l IH]; intros Hl; [discriminate |].
  simpl in Hl. destruct (f a) as [e' | b] eqn:Ha.
  - inversion Hl; subst. now apply (Hf a).
  - rewrite bind_inr in Hl. destruct (mapM f l) as [e' | bs].
    + inversion Hl; subst. now apply IH.
    + discriminate.
Qed.

Lemma mapM_map_map {A B C} (f : B -> result C) (g : A -> B) (h : A -> C)
  (l : list A) :
  (forall a, In a l -> f (g a) = OK (h a)) ->
  mapM f (map g l) = OK (map h l).
Proof.
  induction l as [| a l IH]; intros Hf; simpl; [reflexivity |].
  rewrite Hf by now left. simpl. rewrite IH; [reflexivity |].
  intros b Hb. apply Hf. now right.
Qed.

Section Cleaning.

Context {R : Type} `{Scalar R}.

Lemma cleaned_block_idempotent (o : option (ndarray R)) :
  cleaned_block (Some (cleaned_block o)) = cleaned_block o.
Proof.
  destruct o as [a |]; [| reflexivity]. simpl.
  destruct (hd 0 (shape a) =? 0) eqn:Hn; [reflexivity |].
  simpl. now rewrite Hn.
Qed.

Lemma len_cleaned_block (o : option (ndarray R)) :
  (forall a, o = Some a -> shape a <> []) ->
  len (cleaned_block o) = OK (count_of o).
Proof.
  intros Hshape. destruct o as [a |]; [| reflexivity]. simpl.
  destruct (hd 0 (shape a) =? 0) eqn:Hn.
  - apply Nat.eqb_eq in Hn. now rewrite Hn.
  - unfold len. specialize (Hshape a eq_refl).
    destruct (shape a); [congruence | reflexivity].
Qed.

Lemma get_edge_features_clean_OK (x : instance R) :
  Forall (fun o => forall a, o = Some a -> shape a <> []) (x_edge_features x) ->
  _get_edge_features x true
  = OK (map (fun o => Some (cleaned_block o)) (x_edge_features x)).
Proof.
  intros Hall. unfold _get_edge_features. apply mapM_map.
  intros o Ho. rewrite Forall_forall in Hall. specialize (Hall o Ho).
  destruct o as [a |]; [| reflexivity].
  specialize (Hall a eq_refl). unfold len, cleaned_block.
  destruct (shape a) as [| n s]; [congruence | reflexivity].
Qed.

End Cleaning.

(** X4: With [bClean], [_get_edge_features] gives a list of arrays of the
    length of [x[2]]: the empty array of shape (0, 0) for every absent or
    empty block, so that an empty block loses its column count, and the
    other blocks unchanged.  The array of slot [k] has the number of rows
    of the block of slot [k] (none for an absent block), and cleaning a
    cleaned list changes nothing.  A block without any axis makes the
    call raise [TypeError]. *)
Theorem get_edge_features_clean :
  forall (R : Type) (SR : Scalar R) (x : instance R),
    (Forall (fun o => forall a, o = Some a -> shape a <> [])
            (x_edge_features x) ->
     let cleaned := map (fun o => Some (cleaned_block o)) (x_edge_features x) in
     _get_edge_features x true = OK cleaned
     /\ mapM py_len cleaned = OK (map count_of (x_edge_features x))
     /\ _get_edge_features
          (Instance (x_node_features x) (x_edges x) cleaned) true
        = OK cleaned)
    /\ (forall a, In (Some a) (x_edge_features x) -> shape a = [] ->
                  _get_edge_features x true = raise TypeError)
    /\ (forall c : nat,
           cleaned_block (Some (NDArray (A := R) [0; c] []))
           = NDArray [0; 0] []).
Proof.
  intros R SR x. split; [| split].
  - intros Hall cleaned. split; [now apply get_edge_features_clean_OK |].
    split.
    + unfold cleaned. apply mapM_map_map. intros o Ho.
      rewrite Forall_forall in Hall. simpl.
      apply len_cleaned_block. now apply Hall.
    + rewrite get_edge_features_clean_OK; cbn [x_edge_features].
      * unfold cleaned. rewrite map_map. f_equal. apply map_ext.
        intros o. now rewrite cleaned_block_idempotent.
      * apply Forall_forall. intros o' Ho'.
        apply in_map_iff in Ho' as [o [<- Ho]].
        intros a Ha. inversion Ha; subst a. clear Ha.
        rewrite Forall_forall in Hall. specialize (Hall o Ho).
        destruct o as [a |]; [| discriminate]. simpl.
        destruct (hd 0 (shape a) =? 0); [discriminate | now apply Hall].
  - intros a Hin Hshape. unfold _get_edge_features.
    set (f := fun o : option (ndarray R) =>
                match o with
                | None => OK (Some (NDArray [0; 0] []))
                | Some a =>
                    n <- len a ;;
                    OK (Some (if n =? 0 then NDArray [0; 0] [] else a))
                end).
    assert (Hraises : raises (mapM f (x_edge_features x))).
    { apply (mapM_raises f _ (Some a)); [assumption |].
      unfold f, len. rewrite Hshape. now exists TypeError. }
    destruct Hraises as [e He]. rewrite He. unfold raise. f_equal.
    apply (mapM_error_kind f TypeError _ _) with (2 := He).
    intros o e'. unfold f. destruct o as [a' |]; [| discriminate].
    unfold len. destruct (shape a'); [| discriminate].
    intros Heq. now inversion Heq.
  - intros c. reflexivity.
Qed.

Lemma get_edge_features_clean_witness :
  _get_edge_features example_instance true
  = OK [Some (NDArray [1; 1] [10]%Z); Some (NDArray [2; 2] [20; 21; 22; 23]%Z);
        Some (NDArray [0; 0] []); Some (NDArray [0; 0] [])].
Proof.
  apply (proj1 (get_edge_features_clean Z Scalar_Z example_instance)).
  repeat constructor; intros a Ha; inversion Ha; discriminate.
Defined.

(** ** Edge features by type pair *)

Lemma nth_iter_type_pairs (self : NodeTypeEdgeFeatureGraphCRF) (k : nat) :
  k < n_types self ^ 2 ->
  nth k (_iter_type_pairs self) (0, 0)
  = (k / n_types self, k mod n_types self).
Proof.
  intros Hk.
  assert (HT : n_types self <> 0) by (intros H0; rewrite H0 in Hk; simpl in Hk; lia).
  rewrite (Nat.div_mod_eq k (n_types self)) at 1.
  rewrite (Nat.mul_comm (n_types self)).
  unfold _iter_type_pairs. rewrite (nth_rows (0, 0) pair).
  - reflexivity.
  - apply Nat.Div0.div_lt_upper_bound. simpl in Hk. lia.
  - now apply Nat.mod_upper_bound.
Qed.

(** X5: Reading the edge-feature block of every type pair with
    [_get_edge_features_by_type], the pairs taken in iteration order,
    gives back the list [x[2]] when it holds [n_types ** 2] blocks: the
    index [typ1 * n_types + typ2] of the second loop of [_check_size_x]
    follows the order in which its first loop pairs the blocks.  A type
    pair beyond the list raises [IndexError]. *)
Theorem get_edge_features_by_type_in_order :
  forall (R : Type) (SR : Scalar R) (self : NodeTypeEdgeFeatureGraphCRF)
         (x : instance R),
    (length (x_edge_features x) = n_types self ^ 2 ->
     mapM (fun '(typ1, typ2) => _get_edge_features_by_type self x typ1 typ2)
          (_iter_type_pairs self)
     = OK (x_edge_features x))
    /\ (forall typ1 typ2,
           length (x_edge_features x) <= typ1 * n_types self + typ2 ->
           _get_edge_features_by_type self x typ1 typ2 = raise IndexError).
Proof.
  intros R SR self x. split.
  - intros Hlen.
    set (f := fun '(typ1, typ2) =>
                nth (typ1 * n_types self + typ2) (x_edge_features x) None).
    rewrite (mapM_map _ f).
    + f_equal. apply (nth_ext _ _ None None).
      * now rewrite length_map, length_iter_type_pairs.
      * intros k Hk. rewrite length_map, length_iter_type_pairs in Hk.
        rewrite (nth_indep _ None (f (0, 0)))
          by now rewrite length_map, length_iter_type_pairs.
        rewrite (map_nth f), nth_iter_type_pairs by assumption.
        unfold f. f_equal.
        rewrite (Nat.div_mod_eq k (n_types self)) at 3. lia.
    + intros [typ1 typ2] Hin. apply in_iter_type_pairs in Hin as [H1 H2].
      unfold _get_edge_features_by_type, f. apply py_index_nth.
      rewrite Hlen. simpl. nia.
  - intros typ1 typ2 Hk. unfold _get_edge_features_by_type, py_index.
    now rewrite (proj2 (nth_error_None _ _) Hk).
Qed.

Lemma get_edge_features_by_type_in_order_witness :
  mapM (fun '(typ1, typ2) =>
          _get_edge_features_by_type example_model example_instance typ1 typ2)
       (_iter_type_pairs example_model)
  = OK (x_edge_features example_instance).
Proof.
  apply (proj1 (get_edge_features_by_type_in_order Z Scalar_Z example_model
                  example_instance)).
  reflexivity.
Defined.

(** ** Block ravel: when it raises *)

(** X6: [block_ravel] raises [ValueError] exactly when it is given fewer than
    two cut-point pairs: none (the unpacking of [zip( *lij)] fails) or one
    (there is no block to stack); otherwise it returns as many elements
    as the blocks, clipped to the matrix, hold. *)
Theorem block_ravel_raises_iff :
  forall (R : Type) (SR : Scalar R) (a : matrix R) (lij : list (nat * nat)),
    (raises (block_ravel a lij) <-> length lij < 2)
    /\ (length lij < 2 -> exists msg,
           block_ravel a lij = raise (ValueError (Numpy_value_error msg)))
    /\ (2 <= length lij ->
        exists v,
          block_ravel a lij = OK v
          /\ length v
             = list_sum
                 (map (fun k =>
                         (Nat.min (fst (nth (S k) lij (0, 0))) (nrows a)
                          - Nat.min (fst (nth k lij (0, 0))) (nrows a))
                         * (Nat.min (snd (nth (S k) lij (0, 0))) (ncols a)
                            - Nat.min (snd (nth k lij (0, 0))) (ncols a)))
                      (seq 0 (length lij - 1)))).
Proof.
  intros R SR a lij.
  assert (Hshort : length lij < 2 -> exists msg,
             block_ravel a lij = raise (ValueError (Numpy_value_error msg))).
  { intros Hlen. destruct lij as [| p [| q lij]]; [| | simpl in Hlen; lia].
    - eexists. reflexivity.
    - destruct p as [i j]. eexists. reflexivity. }
  assert (Hlong : 2 <= length lij ->
            exists v,
              block_ravel a lij = OK v
              /\ length v
                 = list_sum
                     (map (fun k =>
                             (Nat.min (fst (nth (S k) lij (0, 0))) (nrows a)
                              - Nat.min (fst (nth k lij (0, 0))) (nrows a))
                             * (Nat.min (snd (nth (S k) lij (0, 0))) (ncols a)
                                - Nat.min (snd (nth k lij (0, 0))) (ncols a)))
                          (seq 0 (length lij - 1)))).
  { intros Hlen. rewrite block_ravel_blocks by assumption.
    eexists. split; [reflexivity |].
    unfold diagonal_blocks.
    induction (seq 0 (length lij - 1)) as [| k ks IH]; [reflexivity |].
    cbn [flat_map map]. rewrite length_app, list_sum_cons, IH. f_equal.
    rewrite <- ravel_slice2, length_ravel_slice2.
    now rewrite <- !(map_nth fst), <- !(map_nth snd). }
  split; [| split; assumption].
  split.
  - intros [e He]. destruct (Nat.lt_ge_cases (length lij) 2) as [Hlt | Hge];
      [assumption |].
    destruct (Hlong Hge) as (v & Hv & _). rewrite Hv in He. discriminate.
  - intros Hlt. destruct (Hshort Hlt) as [msg Hmsg]. rewrite Hmsg.
    eexists. reflexivity.
Qed.

Lemma block_ravel_raises_iff_witness :
  exists v, block_ravel example_matrix example_cuts = OK v /\ length v = 6.
Proof.
  destruct (proj2 (proj2 (block_ravel_raises_iff Z Scalar_Z example_matrix
                            example_cuts))) as (v & Hv & Hlen).
  - simpl. lia.
  - exists v. split; [exact Hv | exact Hlen].
Defined.

(** ** Stacked features *)

Section StackedFacts.

Context {R : Type} `{Scalar R}.

(** The matrix after a slice assignment of a block of the shape of the
    slice. *)
Lemma slice_assign_entries (m : matrix R) (i n j c : nat) (src : ndarray R) :
  shape src = [n; c] -> i + n <= nrows m -> j + c <= ncols m ->
  slice_assign m i (i + n) j (j + c) src
  = OK (mk_matrix (nrows m) (ncols m)
          (fun a b =>
             if (i <=? a) && (a <? i + n) && (j <=? b) && (b <? j + c)
             then entry src (a - i) (b - j)
             else mget zero m a b)).
Proof.
  intros Hshape Hi Hj. unfold slice_assign, broadcast_to. rewrite Hshape.
  replace (strip_leading_ones [n; c]) with [n; c]
    by (destruct n as [| [| n]]; reflexivity).
  replace (Nat.min (i + n) (nrows m) - Nat.min i (nrows m)) with n by lia.
  replace (Nat.min (j + c) (ncols m) - Nat.min j (ncols m)) with c by lia.
  rewrite !Nat.eqb_refl. cbn [orb andb]. rewrite bind_OK. f_equal.
  apply mk_matrix_ext. intros a b Ha Hb.
  replace (Nat.min i (nrows m)) with i by lia.
  replace (Nat.min (i + n) (nrows m)) with (i + n) by lia.
  replace (Nat.min j (ncols m)) with j by lia.
  replace (Nat.min (j + c) (ncols m)) with (j + c) by lia.
  destruct ((i <=? a) && (a <? i + n) && (j <=? b) && (b <? j + c)) eqn:Hin;
    [| reflexivity].
  apply andb_true_iff in Hin as [Hin Hb2].
  apply andb_true_iff in Hin as [Hin Hb1].
  apply andb_true_iff in Hin as [Ha1 Ha2].
  apply Nat.leb_le in Ha1, Hb1. apply Nat.ltb_lt in Ha2, Hb2.
  unfold entry. rewrite Hshape. cbn [nth]. f_equal.
  destruct (n =? 1) eqn:Hn; [apply Nat.eqb_eq in Hn |];
    (destruct (c =? 1) eqn:Hc; [apply Nat.eqb_eq in Hc |]);
    try replace (a - i) with 0 by lia; try replace (b - j) with 0 by lia;
    reflexivity.
Qed.

Lemma stacked_above (blocks : list (option (ndarray R)))
  (i_start i_col_start : nat) (base : nat -> nat -> R) (i j : nat) :
  i < i_start -> stacked blocks i_start i_col_start base i j = base i j.
Proof.
  revert i_start i_col_start.
  induction blocks as [| [blk |] rest IH]; intros i_start i_col_start Hi;
    cbn [stacked]; [reflexivity | | now apply IH].
  replace (i_start <=? i) with false by (symmetry; apply Nat.leb_gt; lia).
  cbn [andb]. apply IH. lia.
Qed.

Lemma stacked_base_ext (blocks : list (option (ndarray R)))
  (i_start i_col_start : nat) (base base' : nat -> nat -> R) (i j : nat) :
  base i j = base' i j ->
  stacked blocks i_start i_col_start base i j
  = stacked blocks i_start i_col_start base' i j.
Proof.
  intros Hbase. revert i_start i_col_start.
  induction blocks as [| [blk |] rest IH]; intros i_start i_col_start;
    cbn [stacked]; [assumption | | apply IH].
  now rewrite IH.
Qed.

(** The loop that stacks the edge features, from any state. *)
Lemma stack_edge_loop_entries (efs : list (option (ndarray R)))
  (i ic : nat) (m : matrix R) :
  Forall two_dimensional efs -> wf_matrix m ->
  i + list_sum (map count_of efs) <= nrows m ->
  ic + list_sum (map width_of efs) <= ncols m ->
  for_each stack_edge_step efs (i, ic, m)
  = OK (i + list_sum (map count_of efs), ic + list_sum (map width_of efs),
        mk_matrix (nrows m) (ncols m) (stacked efs i ic (mget zero m))).
Proof.
  revert i ic m. induction efs as [| o efs IH]; intros i ic m Hall Hwf Hi Hic.
  - cbn [for_each map stacked]. rewrite mk_matrix_mget by assumption.
    simpl. now rewrite !Nat.add_0_r.
  - inversion Hall as [| o' efs' Ho Hefs]; subst.
    cbn [for_each map] in *. rewrite !list_sum_cons in *.
    destruct o as [blk |].
    + destruct Ho as (n & c & Hshape).
      assert (Hn : count_of (Some blk) = n) by (simpl; now rewrite Hshape).
      assert (Hc : width_of (Some blk) = c) by (simpl; now rewrite Hshape).
      rewrite Hn, Hc in *.
      unfold stack_edge_step at 1, unpack_shape2. rewrite Hshape.
      cbn [bind OK].
      rewrite slice_assign_entries by (assumption || lia). cbn [bind OK].
      rewrite IH; [| assumption | apply wf_mk_matrix | simpl; lia | simpl; lia].
      cbn [nrows ncols mk_matrix]. rewrite !Nat.add_assoc. do 2 f_equal.
      apply mk_matrix_ext. intros a b Ha Hb. cbn [stacked].
      rewrite Hn, Hc.
      fold (mk_matrix (nrows m) (ncols m)
              (fun a0 b0 =>
                 if (i <=? a0) && (a0 <? i + n) && (ic <=? b0) && (b0 <? ic + c)
                 then entry blk (a0 - i) (b0 - ic)
                 else mget zero m a0 b0)).
      destruct ((i <=? a) && (a <? i + n) && (ic <=? b) && (b <? ic + c))
        eqn:Hin.
      * rewrite stacked_above.
        -- rewrite mget_mk_matrix by assumption. now rewrite Hin.
        -- apply andb_true_iff in Hin as [Hin _].
           apply andb_true_iff in Hin as [Hin _].
           apply andb_true_iff in Hin as [_ Hlt]. now apply Nat.ltb_lt in Hlt.
      * apply stacked_base_ext. rewrite mget_mk_matrix by assumption.
        now rewrite Hin.
    + cbn [stack_edge_step bind OK count_of width_of stacked] in *.
      rewrite IH by (assumption || lia). now rewrite !Nat.add_0_l.
Qed.

(** The loop that stacks the node features, from any state. *)
Lemma stack_node_loop_entries (feats : list nat)
  (nodes : list (option (ndarray R))) (acc i : nat) (m : matrix R) :
  length nodes = length feats ->
  forallb (fun '(o, f) =>
             match o with
             | None => false
             | Some a => match shape a with
                         | [n; c] => c =? f
                         | _ => false
                         end
             end) (combine nodes feats) = true ->
  wf_matrix m ->
  i + list_sum (map count_of nodes) <= nrows m ->
  acc + list_sum feats <= ncols m ->
  for_each stack_node_step (combine (slices_from acc feats) nodes) (i, m)
  = OK (i + list_sum (map count_of nodes),
        mk_matrix (nrows m) (ncols m) (stacked nodes i acc (mget zero m))).
Proof.
  revert nodes acc i m.
  induction feats as [| f feats IH]; intros [| o nodes] acc i m Hlen Hall Hwf
    Hi Hacc; try discriminate.
  - cbn [for_each map stacked slices_from combine].
    rewrite mk_matrix_mget by assumption. simpl. now rewrite Nat.add_0_r.
  - cbn [combine forallb slices_from map for_each] in *.
    rewrite list_sum_cons in *.
    apply andb_true_iff in Hall as [Ho Hall].
    destruct o as [blk |]; [| discriminate].
    destruct (shape blk) as [| n [| c [| ? ?]]] eqn:Hshape; try discriminate.
    apply Nat.eqb_eq in Ho. subst c.
    assert (Hn : count_of (Some blk) = n) by (simpl; now rewrite Hshape).
    assert (Hc : width_of (Some blk) = f) by (simpl; now rewrite Hshape).
    rewrite Hn in *.
    unfold stack_node_step at 1. unfold shape_at. rewrite Hshape.
    cbn [py_index nth_error bind OK].
    rewrite slice_assign_entries by (assumption || lia). cbn [bind OK].
    rewrite IH; [| simpl in Hlen; lia | assumption | apply wf_mk_matrix
                 | simpl; lia | simpl; lia].
    cbn [nrows ncols mk_matrix]. rewrite !Nat.add_assoc. do 2 f_equal.
    apply mk_matrix_ext. intros a b Ha Hb. cbn [stacked].
    rewrite Hn, Hc.
    fold (mk_matrix (nrows m) (ncols m)
            (fun a0 b0 =>
               if (i <=? a0) && (a0 <? i + n) && (acc <=? b0) && (b0 <? acc + f)
               then entry blk (a0 - i) (b0 - acc)
               else mget zero m a0 b0)).
    destruct ((i <=? a) && (a <? i + n) && (acc <=? b) && (b <? acc + f))
      eqn:Hin.
    + rewrite stacked_above.
      * rewrite mget_mk_matrix by assumption. now rewrite Hin.
      * apply andb_true_iff in Hin as [Hin _].
        apply andb_true_iff in Hin as [Hin _].
        apply andb_true_iff in Hin as [_ Hlt]. now apply Nat.ltb_lt in Hlt.
    + apply stacked_base_ext. rewrite mget_mk_matrix by assumption.
      now rewrite Hin.
Qed.

(** The entries of stacked blocks, block by block: block [k] starts at
    the row and at the column where the blocks before it end, and a row
    of block [k] holds [base] outside the columns of the block. *)
Lemma stacked_block (blocks : list (option (ndarray R))) (k : nat)
  (blk : ndarray R) (i_start i_col_start : nat) (base : nat -> nat -> R)
  (i j : nat) :
  nth_error blocks k = Some (Some blk) ->
  i < count_of (Some blk) ->
  let row := i_start + list_sum (map count_of (firstn k blocks)) in
  let col := i_col_start + list_sum (map width_of (firstn k blocks)) in
  stacked blocks i_start i_col_start base (row + i) j
  = if (col <=? j) && (j <? col + width_of (Some blk))
    then entry blk i (j - col)
    else base (row + i) j.
Proof.
  revert k i_start i_col_start.
  induction blocks as [| o rest IH]; intros k i_start i_col_start Hk Hi;
    [destruct k; discriminate |].
  destruct k as [| k].
  - inversion Hk; subst o. cbn [firstn map list_sum fold_right stacked].
    rewrite !Nat.add_0_r.
    replace (i_start <=? i_start + i) with true
      by (symmetry; apply Nat.leb_le; lia).
    replace (i_start + i <? i_start + count_of (Some blk)) with true
      by (symmetry; apply Nat.ltb_lt; lia).
    cbn [andb].
    destruct ((i_col_start <=? j) && (j <? i_col_start + width_of (Some blk))).
    + f_equal. lia.
    + apply stacked_above. lia.
  - cbn [firstn map nth_error] in *. rewrite !list_sum_cons.
    destruct o as [blk0 |].
    + cbn [stacked].
      replace (i_start + (count_of (Some blk0)
                          + list_sum (map count_of (firstn k rest))) + i
               <? i_start + count_of (Some blk0)) with false
        by (symmetry; apply Nat.ltb_ge; lia).
      rewrite andb_false_r. cbn [andb].
      rewrite !Nat.add_assoc. now apply IH.
    + cbn [stacked count_of width_of]. rewrite !Nat.add_0_l. now apply IH.
Qed.

End StackedFacts.

Lemma list_sum_firstn_nth (l : list nat) (k : nat) :
  list_sum (firstn k l) + nth k l 0 <= list_sum l.
Proof.
  revert k. induction l as [| n l IH]; intros [| k]; simpl; try lia.
  specialize (IH k). lia.
Qed.

Lemma firstn_map {A B} (f : A -> B) (l : list A) (k : nat) :
  firstn k (map f l) = map f (firstn k l).
Proof.
  revert k. induction l as [| a l IH]; intros [| k]; simpl; try reflexivity.
  now rewrite IH.
Qed.

Section StackedInstance.

Context {R : Type} `{Scalar R}.
Variable self : NodeTypeEdgeFeatureGraphCRF.

Lemma present_nodes_widths (nodes : list (option (ndarray R)))
  (feats : list nat) :
  length nodes = length feats ->
  forallb (fun '(o, f) =>
             match o with
             | None => false
             | Some a => match shape a with
                         | [n; c] => c =? f
                         | _ => false
                         end
             end) (combine nodes feats) = true ->
  map width_of nodes = feats.
Proof.
  revert feats. induction nodes as [| o nodes IH]; intros [| f feats] Hlen Hall;
    try discriminate; [reflexivity |].
  cbn [combine forallb map] in *. apply andb_true_iff in Hall as [Ho Hall].
  rewrite (IH feats) by (assumption || (simpl in Hlen; lia)). f_equal.
  destruct o as [a |]; [| discriminate]. simpl.
  destruct (shape a) as [| n [| c [| ? ?]]]; try discriminate.
  now apply Nat.eqb_eq in Ho.
Qed.

Lemma edge_items_shapes (D : list nat) (edges : list (option (matrix Z)))
  (efs : list (option (ndarray R))) :
  length edges = length efs -> length D = length efs ->
  forallb edge_item_ok (combine D (combine edges efs)) = true ->
  Forall two_dimensional efs
  /\ map count_of efs = map edge_rows edges
  /\ (forall k,
         list_sum (map width_of (firstn k efs))
         + list_sum (map (fun '(d, o) =>
                            match o : option (ndarray R) with
                            | None => d
                            | Some _ => 0
                            end) (firstn k (combine D efs)))
         = list_sum (firstn k D)).
Proof.
  revert D edges. induction efs as [| oef efs IH]; intros [| d D] [| oe edges]
    He HD Hall; try discriminate.
  - repeat split; [constructor |]. intros [| k]; reflexivity.
  - cbn [combine forallb map] in *. apply andb_true_iff in Hall as [Hit Hall].
    destruct (IH D edges) as (H2d & Hcount & Hwidth);
      [simpl in He; lia | simpl in HD; lia | assumption |].
    assert (Hhead : two_dimensional oef /\ count_of oef = edge_rows oe
                    /\ width_of oef = match oef with None => 0 | Some _ => d end).
    { destruct oe as [e |], oef as [ef |]; try discriminate;
        [| repeat split].
      cbn [edge_item_ok] in Hit. simpl.
      destruct (shape ef) as [| n [| c [| ? ?]]]; try discriminate.
      apply andb_true_iff in Hit as [Hn Hc]. apply Nat.eqb_eq in Hn, Hc.
      repeat split; [now exists n, c | assumption | assumption]. }
    destruct Hhead as (Hh2 & Hhc & Hhw).
    repeat split.
    + now constructor.
    + now rewrite Hhc, Hcount.
    + intros [| k]; [reflexivity |].
      cbn [firstn combine map]. rewrite !list_sum_cons, Hhw.
      specialize (Hwidth k). destruct oef; lia.
Qed.

End StackedInstance.

(** X7: The stacked node features: when every node-feature block is present
    with the feature count of its type, the loop of [joint_feature] ends
    at the total node count (so that its assertion holds) with a matrix
    of total node count by total feature count in which node [i] of type
    [t] has the row after those of the types before [t]; the row holds
    the features of the node in the columns of type [t], after the
    features of the types before it, and zero in every other column. *)
Theorem stacked_node_features_entries :
  forall (R : Type) (SR : Scalar R) (self : NodeTypeEdgeFeatureGraphCRF)
         (x : instance R),
    wf_model self = true ->
    valid_nodes self x = true ->
    nodes_present x = true ->
    exists all_node_features : matrix R,
      for_each stack_node_step
        (combine (_a_feature_slice_by_typ self) (x_node_features x))
        (0, zeros (list_sum (node_counts x)) (_n_features self))
      = OK (list_sum (node_counts x), all_node_features)
      /\ nrows all_node_features = list_sum (node_counts x)
      /\ ncols all_node_features = _n_features self
      /\ (forall (t : nat) (blk : ndarray R) (i j : nat),
             nth_error (x_node_features x) t = Some (Some blk) ->
             i < count_of (Some blk) ->
             j < _n_features self ->
             let col := list_sum (firstn t (l_n_features self)) in
             mget zero all_node_features
               (list_sum (firstn t (node_counts x)) + i) j
             = if (col <=? j) && (j <? col + nth t (l_n_features self) 0)
               then entry blk i (j - col)
               else zero).
Proof.
  intros R SR self x Hwf Hnodes Hpresent.
  pose proof (valid_nodes_spec self x Hwf Hnodes) as [Hn _].
  pose proof (wf_model_spec self Hwf) as (_ & Hf & _).
  pose proof (present_nodes_shapes self x Hnodes Hpresent) as Hshapes.
  assert (Hlen : length (x_node_features x) = length (l_n_features self))
    by congruence.
  pose proof (present_nodes_widths (x_node_features x) (l_n_features self)
                Hlen Hshapes) as Hwidths.
  eexists. split; [| split; [| split]].
  - unfold _a_feature_slice_by_typ.
    rewrite (stack_node_loop_entries (l_n_features self) (x_node_features x)
               0 0 (zeros (list_sum (node_counts x)) (_n_features self)));
      try assumption.
    + reflexivity.
    + apply wf_mk_matrix.
    + simpl. unfold node_counts. lia.
    + simpl. unfold _n_features. lia.
  - reflexivity.
  - reflexivity.
  - intros t blk i j Ht Hi Hj col.
    assert (Hrow : list_sum (firstn t (node_counts x)) + i
                   < list_sum (node_counts x)).
    { pose proof (list_sum_firstn_nth (node_counts x) t) as Hle.
      unfold node_counts in Hle at 2.
      rewrite (nth_indep _ 0 (count_of (R := R) None)) in Hle
        by (rewrite length_map; apply nth_error_Some; congruence).
      rewrite map_nth, (nth_error_nth _ _ None Ht) in Hle. lia. }
    cbn [nrows ncols zeros mk_matrix].
    rewrite mget_mk_matrix by assumption.
    pose proof (stacked_block (x_node_features x) t blk 0 0
                  (mget zero (zeros (list_sum (node_counts x))
                                    (_n_features self))) i j Ht Hi) as Hblk.
    cbv zeta in Hblk. rewrite !Nat.add_0_l in Hblk.
    rewrite <- firstn_map in Hblk. fold (node_counts x) in Hblk.
    rewrite Hblk. rewrite <- firstn_map, Hwidths.
    assert (Hw : width_of (Some blk) = nth t (l_n_features self) 0).
    { rewrite <- Hwidths at 1.
      rewrite (nth_indep _ 0 (width_of (R := R) None))
        by (rewrite length_map; apply nth_error_Some; congruence).
      now rewrite map_nth, (nth_error_nth _ _ None Ht). }
    rewrite Hw. fold col.
    destruct ((col <=? j) && (j <? col + nth t (l_n_features self) 0));
      [reflexivity |].
    unfold zeros. now rewrite mget_mk_matrix.
Qed.

Lemma stacked_node_features_entries_witness :
  exists all_node_features : matrix Z,
    for_each stack_node_step
      (combine (_a_feature_slice_by_typ example_model)
               (x_node_features example_instance))
      (0, zeros 3 5)
    = OK (3, all_node_features)
    /\ mdata all_node_features
       = [1; 2; 3; 0; 0; 4; 5; 6; 0; 0; 0; 0; 0; 7; 8]%Z.
Proof.
  destruct (stacked_node_features_entries Z Scalar_Z example_model
              example_instance eq_refl eq_refl eq_refl)
    as (m & Hm & _).
  exists m. split; [exact Hm |].
  vm_compute in Hm. inversion Hm. reflexivity.
Defined.

(** X8: The stacked edge features: for a model whose edge-feature counts
    sum to less than [2^63], so that [_n_edge_features] is their sum, and
    an instance whose edge-feature blocks go with its edge blocks and
    have the declared column counts, the loop of [joint_feature] ends at
    the total edge count with a matrix of total edge count by
    [_n_edge_features].  Edge [i] of type pair [k]
    has the row after those of the pairs before [k]; the row holds the
    features of the edge from the column where the blocks before it end,
    and zero elsewhere.  That column is the sum of the declared counts of
    the pairs before [k] only when none of them is absent: an absent pair
    does not advance the column, so that the block starts before the
    cumulative count by the declared counts of the absent pairs. *)
Theorem stacked_edge_features_entries :
  forall (R : Type) (SR : Scalar R) (self : NodeTypeEdgeFeatureGraphCRF)
         (x : instance R),
    wf_model self = true ->
    valid_edges self x = true ->
    valid_edge_features self x = true ->
    below_int64 (list_sum (ravel (a_n_edge_features self))) = true ->
    exists (n_edge_features i_col_stop : nat) (all_edge_features : matrix R),
      np_dim (_n_edge_features self) = OK n_edge_features
      /\ n_edge_features = list_sum (ravel (a_n_edge_features self))
      /\ for_each stack_edge_step (x_edge_features x)
           (0, 0, zeros (list_sum (map edge_rows (x_edges x)))
                        n_edge_features)
         = OK (list_sum (map edge_rows (x_edges x)), i_col_stop,
               all_edge_features)
      /\ nrows all_edge_features = list_sum (map edge_rows (x_edges x))
      /\ ncols all_edge_features = n_edge_features
      /\ (forall (k : nat) (blk : ndarray R) (i j : nat),
             nth_error (x_edge_features x) k = Some (Some blk) ->
             i < count_of (Some blk) ->
             j < n_edge_features ->
             let col := list_sum (map width_of (firstn k (x_edge_features x))) in
             mget zero all_edge_features
               (list_sum (firstn k (map edge_rows (x_edges x))) + i) j
             = (if (col <=? j)
                   && (j <? col + nth k (ravel (a_n_edge_features self)) 0)
                then entry blk i (j - col)
                else zero)
             /\ col
                + list_sum
                    (map (fun '(d, o) =>
                            match o : option (ndarray R) with
                            | None => d
                            | Some _ => 0
                            end)
                         (firstn k (combine (ravel (a_n_edge_features self))
                                            (x_edge_features x))))
                = list_sum (firstn k (ravel (a_n_edge_features self)))).
Proof.
  intros R SR self x Hwf Hedges Hefs Hfit.
  destruct (n_edge_features_fits self Hfit) as [_ Hdim].
  exists (list_sum (ravel (a_n_edge_features self))).
  pose proof (valid_edges_spec self x Hedges) as [He _].
  pose proof (valid_edge_features_items self x Hwf Hefs) as [Hf Hitems].
  pose proof (wf_model_spec self Hwf) as (_ & _ & _ & _ & Hal).
  assert (HD : length (ravel (a_n_edge_features self))
               = length (x_edge_features x))
    by (unfold ravel; rewrite Hal, Hf; simpl; lia).
  destruct (edge_items_shapes (ravel (a_n_edge_features self)) (x_edges x)
              (x_edge_features x)) as (H2d & Hcount & Hwidth);
    [congruence | assumption | assumption |].
  assert (Hwsum : list_sum (map width_of (x_edge_features x))
                  <= list_sum (ravel (a_n_edge_features self))).
  { pose proof (Hwidth (length (x_edge_features x))) as Hall.
    rewrite firstn_all in Hall. rewrite <- HD, firstn_all in Hall. lia. }
  eexists. eexists. split; [exact Hdim |]. split; [reflexivity |].
  split; [| split; [| split]].
  - rewrite (stack_edge_loop_entries (x_edge_features x) 0 0
               (zeros (list_sum (map edge_rows (x_edges x)))
                      (list_sum (ravel (a_n_edge_features self)))));
      try assumption.
    + rewrite Hcount. reflexivity.
    + apply wf_mk_matrix.
    + rewrite Hcount. simpl. lia.
  - reflexivity.
  - reflexivity.
  - intros k blk i j Hk Hi Hj col. split; [| apply Hwidth].
    assert (Hrow : list_sum (firstn k (map edge_rows (x_edges x))) + i
                   < list_sum (map edge_rows (x_edges x))).
    { pose proof (list_sum_firstn_nth (map edge_rows (x_edges x)) k) as Hle.
      rewrite <- Hcount in Hle at 2.
      rewrite (nth_indep _ 0 (count_of (R := R) None)) in Hle
        by (rewrite length_map; apply nth_error_Some; congruence).
      rewrite map_nth, (nth_error_nth _ _ None Hk) in Hle. lia. }
    cbn [nrows ncols zeros mk_matrix].
    rewrite mget_mk_matrix by assumption.
    pose proof (stacked_block (x_edge_features x) k blk 0 0
                  (mget zero (zeros (list_sum (map edge_rows (x_edges x)))
                                    (list_sum (ravel (a_n_edge_features self))))) i j Hk Hi) as Hblk.
    cbv zeta in Hblk. rewrite !Nat.add_0_l in Hblk.
    rewrite <- firstn_map, Hcount in Hblk. rewrite Hblk. fold col.
    assert (Hw : width_of (Some blk) = nth k (ravel (a_n_edge_features self)) 0).
    { assert (Hk' : k < length (x_edge_features x))
        by (apply nth_error_Some; congruence).
      pose proof (forallb_combine_nth _ _ _ k 0 (None, None) Hitems) as Hit.
      rewrite length_combine, HD, He, Hf, Nat.min_id in Hit.
      rewrite Hf in Hk'. specialize (Hit Hk' Hk').
      rewrite combine_nth in Hit by congruence.
      rewrite (nth_error_nth _ _ None Hk) in Hit. cbn [edge_item_ok] in Hit.
      destruct (nth k (x_edges x) None) as [e |]; [| discriminate].
      simpl. destruct (shape blk) as [| n [| c [| ? ?]]]; try discriminate.
      apply andb_true_iff in Hit as [_ Hc]. now apply Nat.eqb_eq in Hc. }
    rewrite Hw.
    destruct ((col <=? j) && (j <? col + nth k (ravel (a_n_edge_features self)) 0));
      [reflexivity |].
    unfold zeros. now rewrite mget_mk_matrix.
Qed.

Lemma stacked_edge_features_entries_witness :
  exists (i_col_stop : nat) (all_edge_features : matrix Z),
    np_dim (_n_edge_features example_model) = OK 5
    /\ for_each stack_edge_step (x_edge_features example_instance_absent_pair)
         (0, 0, zeros 2 5)
       = OK (2, i_col_stop, all_edge_features)
    /\ mdata all_edge_features = [20; 21; 0; 0; 0; 22; 23; 0; 0; 0]%Z.
Proof.
  destruct (stacked_edge_features_entries Z Scalar_Z example_model
              example_instance_absent_pair eq_refl eq_refl eq_refl eq_refl)
    as (d & c & m & Hd & -> & Hm & _).
  exists c, m. split; [exact Hd |]. split; [exact Hm |].
  vm_compute in Hm. inversion Hm. reflexivity.
Defined.

(** ** The entries of the joint feature *)

Section BlockEntries.

Context {R : Type} `{Scalar R}.

(** The entries of the blocks cut by the cumulative sums of two lists of
    sizes. *)
Lemma nth_blocks (a : matrix R) (l1 l2 : list nat) (acc1 acc2 k i j : nat) :
  length l1 = length l2 ->
  acc1 + list_sum l1 <= nrows a -> acc2 + list_sum l2 <= ncols a ->
  k < length l1 -> i < nth k l1 0 -> j < nth k l2 0 ->
  nth (list_sum (map (fun '(r, c) => r * c) (firstn k (combine l1 l2)))
       + (i * nth k l2 0 + j))
      (concat
         (map (fun '((i0, i1), (j0, j1)) => ravel (slice2 zero a i0 i1 j0 j1))
              (combine
                 (combine (acc1 :: cumsum_from acc1 l1) (cumsum_from acc1 l1))
                 (combine (acc2 :: cumsum_from acc2 l2) (cumsum_from acc2 l2)))))
      zero
  = mget zero a (acc1 + list_sum (firstn k l1) + i)
                (acc2 + list_sum (firstn k l2) + j).
Proof.
  revert l2 acc1 acc2 k.
  induction l1 as [| r l1 IH]; intros [| c l2] acc1 acc2 k Hlen H1 H2 Hk Hi Hj;
    try discriminate; [simpl in Hk; lia |].
  rewrite !list_sum_cons in H1, H2. simpl in Hlen.
  change (concat _)
    with (ravel (slice2 zero a acc1 (acc1 + r) acc2 (acc2 + c))
          ++ concat
               (map (fun '((i0, i1), (j0, j1)) =>
                       ravel (slice2 zero a i0 i1 j0 j1))
                    (combine
                       (combine (acc1 + r :: cumsum_from (acc1 + r) l1)
                                (cumsum_from (acc1 + r) l1))
                       (combine (acc2 + c :: cumsum_from (acc2 + c) l2)
                                (cumsum_from (acc2 + c) l2))))).
  assert (Hlen0 : length (ravel (slice2 zero a acc1 (acc1 + r) acc2 (acc2 + c)))
                  = r * c).
  { rewrite length_ravel_slice2. f_equal; lia. }
  destruct k as [| k].
  - cbn [firstn map nth] in *. simpl list_sum.
    rewrite app_nth1 by (rewrite Hlen0; nia).
    unfold ravel, slice2, mk_matrix. cbn [mdata].
    replace (Nat.min (acc1 + r) (nrows a) - Nat.min acc1 (nrows a)) with r by lia.
    replace (Nat.min (acc2 + c) (ncols a) - Nat.min acc2 (ncols a)) with c by lia.
    replace (Nat.min acc1 (nrows a)) with acc1 by lia.
    replace (Nat.min acc2 (ncols a)) with acc2 by lia.
    rewrite Nat.add_0_l, nth_rows by lia. f_equal; lia.
  - cbn [firstn combine map nth] in *. simpl in Hk. rewrite !list_sum_cons.
    rewrite app_nth2 by (rewrite Hlen0; lia). rewrite Hlen0.
    match goal with
    | |- nth ?n _ _ = _ =>
        replace n
          with (list_sum (map (fun '(r, c) => r * c) (firstn k (combine l1 l2)))
                + (i * nth k l2 0 + j)) by lia
    end.
    rewrite IH by lia. f_equal; lia.
Qed.

(** [block_ravel] at the cumulative sums of two lists of sizes: block
    [k] starts after the blocks before it and holds, row by row, the
    entries of the rows and columns of the [k]-th sizes. *)
Lemma block_ravel_entries (a : matrix R) (l1 l2 : list nat) :
  length l1 = length l2 -> l1 <> [] ->
  list_sum l1 <= nrows a -> list_sum l2 <= ncols a ->
  exists v,
    block_ravel a ((0, 0) :: combine (cumsum l1) (cumsum l2)) = OK v
    /\ length v = list_sum (map (fun '(r, c) => r * c) (combine l1 l2))
    /\ (forall k i j,
           k < length l1 -> i < nth k l1 0 -> j < nth k l2 0 ->
           nth (list_sum (map (fun '(r, c) => r * c)
                              (firstn k (combine l1 l2)))
                + (i * nth k l2 0 + j)) v zero
           = mget zero a (list_sum (firstn k l1) + i)
                         (list_sum (firstn k l2) + j)).
Proof.
  intros Hlen Hne H1 H2. unfold block_ravel, cumsum.
  rewrite bind_OK. cbn [split].
  rewrite split_combine_same by now rewrite !length_cumsum_from.
  cbv beta iota. cbn [tl]. rewrite hstack_OK.
  - eexists. split; [reflexivity |]. split; [now apply length_blocks |].
    intros k i j Hk Hi Hj.
    now rewrite (nth_blocks a l1 l2 0 0 k i j).
  - destruct l1 as [| r l1]; [congruence |].
    destruct l2 as [| c l2]; [discriminate |]. discriminate.
Qed.

(** The entries of [np.dot(a.T, b)]. *)
Lemma np_dot_transpose (a b : matrix R) :
  nrows a = nrows b ->
  np_dot (transpose zero a) b
  = OK (mk_matrix (ncols a) (ncols b)
          (fun i j => dot_column (nrows a)
                        (fun k => mget zero a k i)
                        (fun k => mget zero b k j))).
Proof.
  intros Hab. unfold np_dot, transpose. cbn [nrows ncols mk_matrix].
  rewrite Hab, Nat.eqb_refl. f_equal. rewrite <- Hab.
  apply mk_matrix_ext. intros i j Hi Hj. unfold dot_column. f_equal.
  apply map_ext_in. intros k Hk. apply in_seq in Hk.
  fold (mk_matrix (ncols a) (nrows a) (fun i j => mget zero a j i)).
  rewrite mget_mk_matrix by lia. reflexivity.
Qed.

Lemma mget_zeros (r c i j : nat) : mget zero (zeros (R := R) r c) i j = zero.
Proof.
  unfold mget, zeros, mk_matrix. cbn [mdata ncols].
  destruct (nth_in_or_default (i * c + j)
              (flat_map (fun i => map (fun _ : nat => zero) (seq 0 c)) (seq 0 r))
              zero) as [Hin | Hd]; [| exact Hd].
  apply in_flat_map in Hin as (i' & _ & Hin).
  apply in_map_iff in Hin as (j' & Hj' & _). now symmetry.
Qed.

End BlockEntries.

Section AssembleEntries.

Context {R : Type} `{Scalar R}.
Variable self : NodeTypeEdgeFeatureGraphCRF.

Lemma dot_column_ext (n : nat) (a a' b b' : nat -> R) :
  (forall k, k < n -> a k = a' k) -> (forall k, k < n -> b k = b' k) ->
  dot_column n a b = dot_column n a' b'.
Proof.
  intros Ha Hb. unfold dot_column. f_equal.
  apply map_ext_in. intros k Hk. apply in_seq in Hk.
  now rewrite Ha, Hb by lia.
Qed.

(** From the marginals on, [joint_feature] returns the unary part, then
    the pairwise part, with these entries. *)
Lemma assemble_entries (x : instance R) (unary_marginals pw : matrix R) :
  wf_model self = true ->
  l_n_features self <> [] ->
  layout_fits self = true ->
  length (x_node_features x) = n_types self ->
  forallb (fun '(o, f) =>
             match o with
             | None => false
             | Some a => match shape a with
                         | [n; c] => c =? f
                         | _ => false
                         end
             end) (combine (x_node_features x) (l_n_features self)) = true ->
  length (x_edges x) = n_types self ^ 2 ->
  length (x_edge_features x) = n_types self ^ 2 ->
  forallb edge_item_ok
    (combine (ravel (a_n_edge_features self))
             (combine (x_edges x) (x_edge_features x))) = true ->
  nrows unary_marginals = list_sum (node_counts x) ->
  ncols unary_marginals = _n_states self ->
  nrows pw = list_sum (map edge_rows (x_edges x)) ->
  ncols pw = _n_states self ^ 2 ->
  exists u p,
    assemble self x (list_sum (node_counts x))
      (list_sum (map edge_rows (x_edges x))) unary_marginals pw = OK (u ++ p)
    /\ size_unaries self = OK (length u)
    /\ size_pairwise self = OK (Z.of_nat (length p))
    /\ (forall t s f,
           t < n_types self ->
           s < nth t (l_n_states self) 0 -> f < nth t (l_n_features self) 0 ->
           nth (unary_offset self t + (s * nth t (l_n_features self) 0 + f))
               u zero
           = dot_column (list_sum (node_counts x))
               (fun n => mget zero unary_marginals n
                           (list_sum (firstn t (l_n_states self)) + s))
               (fun n => stacked (x_node_features x) 0 0 (fun _ _ => zero) n
                           (list_sum (firstn t (l_n_features self)) + f)))
    /\ (forall k a s,
           k < n_types self ^ 2 ->
           a < nth k (ravel (a_n_edge_features self)) 0 ->
           s < nth k (pair_state_counts self) 0 ->
           nth (pairwise_offset self k
                + (a * nth k (pair_state_counts self) 0 + s)) p zero
           = dot_column (list_sum (map edge_rows (x_edges x)))
               (fun e => stacked (x_edge_features x) 0 0 (fun _ _ => zero) e
                           (list_sum (firstn k (ravel (a_n_edge_features self)))
                            + a))
               (fun e => mget zero pw e
                           (list_sum (firstn k (pair_state_counts self)) + s))).
Proof.
  intros Hwf Hne Hfit Hn Hnodes He Hf Hedges Hur Huc Hpr Hpc.
  pose proof (wf_model_spec self Hwf) as (Hs & Hfe & Har & Hac & Hal).
  destruct (size_attributes_nonempty self Hwf Hne
              (proj2 (layout_fits_spec self Hfit))) as (Hsu & Hsp & Hsj).
  destruct (n_edge_features_fits self (proj1 (layout_fits_spec self Hfit)))
    as [_ Hdim].
  assert (HD : length (ravel (a_n_edge_features self))
               = length (x_edge_features x))
    by (unfold ravel; rewrite Hal, Hf; simpl; lia).
  destruct (edge_items_shapes (ravel (a_n_edge_features self)) (x_edges x)
              (x_edge_features x)) as (H2d & Hcount & Hwidth);
    [congruence | assumption | assumption |].
  assert (Hwsum : list_sum (map width_of (x_edge_features x))
                  <= list_sum (mdata (a_n_edge_features self))).
  { pose proof (Hwidth (length (x_edge_features x))) as Hall.
    rewrite firstn_all in Hall. rewrite <- HD, firstn_all in Hall.
    unfold ravel in Hall. lia. }
  unfold assemble, _get_node_features, _get_edge_features. rewrite !bind_OK.
  (* node features *)
  unfold _a_feature_slice_by_typ.
  rewrite (stack_node_loop_entries (l_n_features self) (x_node_features x)
             0 0 (zeros (list_sum (node_counts x)) (_n_features self)));
    [| congruence | assumption | apply wf_mk_matrix
     | simpl; unfold node_counts; lia | simpl; unfold _n_features; lia ].
  rewrite bind_OK. cbv beta iota.
  fold (node_counts x). rewrite Nat.add_0_l, Nat.eqb_refl.
  cbn [py_assert]. rewrite bind_OK.
  rewrite np_dot_transpose by (cbn [nrows zeros mk_matrix]; exact Hur).
  rewrite bind_OK, Hdim, bind_OK.
  (* edge features *)
  rewrite (stack_edge_loop_entries (x_edge_features x) 0 0
             (zeros (list_sum (map edge_rows (x_edges x)))
                    (list_sum (mdata (a_n_edge_features self)))));
    [| assumption | apply wf_mk_matrix
     | rewrite Hcount; simpl; lia | simpl; lia ].
  rewrite bind_OK. cbv beta iota. unfold bPW_std.
  rewrite np_dot_transpose by (cbn [nrows zeros mk_matrix]; now rewrite Hpr).
  rewrite bind_OK. cbn [nrows ncols zeros mk_matrix].
  (* unary part *)
  match goal with
  | |- context [block_ravel ?ua ((0, 0) :: combine (cumsum (l_n_states self)) _)] =>
      destruct (block_ravel_entries ua (l_n_states self) (l_n_features self))
        as (u & Hu & Hul & Hue)
  end.
  { congruence. }
  { destruct (l_n_states self); [| discriminate].
    destruct (l_n_features self); [congruence | simpl in *; lia]. }
  { simpl. rewrite Huc. unfold _n_states. lia. }
  { simpl. unfold _n_features. lia. }
  rewrite Hu, bind_OK, Hsu, bind_OK.
  rewrite Hul, unary_size_blocks, Nat.eqb_refl by assumption.
  cbn [py_assert]. rewrite bind_OK.
  (* pairwise part *)
  rewrite state_products_OK, bind_OK by assumption. cbv beta iota.
  fold (pair_state_counts self).
  match goal with
  | |- context [block_ravel ?pa ((0, 0) :: combine (cumsum (ravel _)) _)] =>
      destruct (block_ravel_entries pa (ravel (a_n_edge_features self))
                  (pair_state_counts self))
        as (p & Hp & Hpl & Hpe)
  end.
  { unfold pair_state_counts.
    rewrite length_map, length_iter_type_pairs. unfold ravel.
    rewrite Hal. simpl. lia. }
  { unfold ravel. intros Hnil. rewrite Hnil in Hal. simpl in Hal.
    destruct (l_n_features self); [congruence | simpl in Hfe; nia]. }
  { simpl. unfold ravel. lia. }
  { simpl. unfold pair_state_counts.
    rewrite Hpc, sum_state_products by assumption. lia. }
  rewrite Hp, bind_OK, Hsp, bind_OK.
  unfold pair_state_counts in Hpl.
  rewrite Hpl, pairwise_size_blocks, Z.eqb_refl by assumption.
  cbn [py_assert]. rewrite bind_OK.
  cbn [hstack concat]. rewrite bind_OK, Hsj, bind_OK, app_nil_r, length_app.
  rewrite Hul, Hpl, unary_size_blocks, pairwise_size_blocks by assumption.
  rewrite Z.eqb_refl. cbn [py_assert]. rewrite bind_OK.
  exists u, p. split; [reflexivity |].
  rewrite Hul, Hpl, unary_size_blocks, pairwise_size_blocks by assumption.
  split; [reflexivity |]. split; [reflexivity |]. split.
  - intros t s f Ht Hs' Hf'. unfold unary_offset.
    rewrite Hue by (assumption || lia).
    assert (Hrow : list_sum (firstn t (l_n_states self)) + s
                   < ncols unary_marginals).
    { pose proof (list_sum_firstn_nth (l_n_states self) t).
      rewrite Huc. unfold _n_states. lia. }
    assert (Hcol : list_sum (firstn t (l_n_features self)) + f
                   < _n_features self).
    { pose proof (list_sum_firstn_nth (l_n_features self) t).
      unfold _n_features. lia. }
    rewrite mget_mk_matrix by assumption. rewrite Hur.
    apply dot_column_ext; [reflexivity |].
    intros n Hn'. rewrite mget_mk_matrix by assumption.
    apply stacked_base_ext, mget_zeros.
  - intros k a s Hk Ha Hs'. unfold pairwise_offset.
    rewrite Hpe by (assumption || (unfold ravel; rewrite Hal; simpl in Hk; lia)).
    assert (Hrow : list_sum (firstn k (ravel (a_n_edge_features self))) + a
                   < list_sum (mdata (a_n_edge_features self))).
    { pose proof (list_sum_firstn_nth (ravel (a_n_edge_features self)) k).
      unfold ravel in *. lia. }
    assert (Hcol : list_sum (firstn k (pair_state_counts self)) + s
                   < ncols pw).
    { pose proof (list_sum_firstn_nth (pair_state_counts self) k) as Hle.
      unfold pair_state_counts in Hle at 3.
      rewrite sum_state_products in Hle by assumption. rewrite Hpc. lia. }
    rewrite mget_mk_matrix by assumption.
    apply dot_column_ext; [| reflexivity].
    intros e He'. rewrite mget_mk_matrix by assumption.
    apply stacked_base_ext, mget_zeros.
Qed.

End AssembleEntries.

Section StackedSums.

Context {R : Type} `{Scalar R}.

Hypothesis add_zero_r : forall x : R, add x zero = x.

Lemma fold_zero_terms (g : nat -> R) (l : list nat) (acc : R) :
  (forall n, In n l -> g n = zero) -> fold_left add (map g l) acc = acc.
Proof.
  revert acc. induction l as [| n l IH]; intros acc Hg; [reflexivity |].
  cbn [map fold_left]. rewrite (Hg n) by now left.
  rewrite add_zero_r. apply IH. intros m Hm. apply Hg. now right.
Qed.

Lemma stacked_left (blocks : list (option (ndarray R)))
  (i_start i_col_start : nat) (base : nat -> nat -> R) (i j : nat) :
  j < i_col_start -> stacked blocks i_start i_col_start base i j = base i j.
Proof.
  revert i_start i_col_start.
  induction blocks as [| [blk |] rest IH]; intros i_start i_col_start Hj;
    cbn [stacked]; [reflexivity | | now apply IH].
  replace (i_col_start <=? j) with false by (symmetry; apply Nat.leb_gt; lia).
  rewrite !andb_false_r. cbn [andb]. apply IH. lia.
Qed.

(** A sum over the rows of a column of stacked blocks: only the rows of
    the block that holds the column contribute. *)
Lemma fold_stacked_block (blocks : list (option (ndarray R)))
  (g : nat -> R -> R) (j t : nat) (blk : ndarray R) (i_start ic : nat)
  (acc : R) :
  (forall n, g n zero = zero) ->
  nth_error blocks t = Some (Some blk) ->
  ic + list_sum (map width_of (firstn t blocks)) <= j ->
  j < ic + list_sum (map width_of (firstn t blocks)) + width_of (Some blk) ->
  fold_left add
    (map (fun n => g n (stacked blocks i_start ic (fun _ _ => zero) n j))
         (seq i_start (list_sum (map count_of blocks)))) acc
  = fold_left add
      (map (fun i =>
              g (i_start + list_sum (map count_of (firstn t blocks)) + i)
                (entry blk i
                   (j - (ic + list_sum (map width_of (firstn t blocks))))))
           (seq 0 (count_of (Some blk)))) acc.
Proof.
  intros Hg. revert t i_start ic acc.
  induction blocks as [| o rest IH]; intros t i_start ic acc Ht Hlo Hhi;
    [destruct t; discriminate |].
  destruct t as [| t].
  - inversion Ht; subst o. clear Ht.
    cbn [firstn map] in *. rewrite list_sum_cons.
    change (list_sum []) with 0 in *. rewrite !Nat.add_0_r in *.
    rewrite seq_app, map_app, fold_left_app.
    rewrite (fold_zero_terms _ (seq (i_start + count_of (Some blk)) _)).
    + rewrite (seq_from i_start), map_map. f_equal.
      apply map_ext_in. intros i Hi. apply in_seq in Hi. cbn [stacked].
      replace (i_start <=? i_start + i) with true
        by (symmetry; apply Nat.leb_le; lia).
      replace (i_start + i <? i_start + count_of (Some blk)) with true
        by (symmetry; apply Nat.ltb_lt; lia).
      replace (ic <=? j) with true by (symmetry; apply Nat.leb_le; lia).
      replace (j <? ic + width_of (Some blk)) with true
        by (symmetry; apply Nat.ltb_lt; lia).
      cbn [andb]. do 2 f_equal. lia.
    + intros n Hn. apply in_seq in Hn. cbn [stacked].
      replace (n <? i_start + count_of (Some blk)) with false
        by (symmetry; apply Nat.ltb_ge; lia).
      rewrite andb_false_r. cbn [andb].
      rewrite stacked_left by lia. apply Hg.
  - cbn [nth_error firstn map] in *. rewrite !list_sum_cons in *.
    destruct o as [b0 |].
    + rewrite seq_app, map_app, fold_left_app.
      rewrite (fold_zero_terms _ (seq i_start (count_of (Some b0)))).
      * rewrite (map_ext_in _
                   (fun n => g n
                               (stacked rest (i_start + count_of (Some b0))
                                  (ic + width_of (Some b0))
                                  (fun _ _ => zero) n j))).
        -- rewrite (IH t) by (assumption || lia).
           f_equal. apply map_ext. intros i. do 2 f_equal; lia.
        -- intros n Hn. apply in_seq in Hn. cbn [stacked].
           replace (n <? i_start + count_of (Some b0)) with false
             by (symmetry; apply Nat.ltb_ge; lia).
           rewrite andb_false_r. reflexivity.
      * intros n Hn. apply in_seq in Hn. cbn [stacked].
        replace (j <? ic + width_of (Some b0)) with false
          by (symmetry; apply Nat.ltb_ge; lia).
        rewrite andb_false_r.
        rewrite stacked_above by lia. apply Hg.
    + change (count_of (R := R) None) with 0 in *.
      change (width_of (R := R) None) with 0 in *.
      rewrite !Nat.add_0_l in *. cbn [stacked].
      now rewrite (IH t).
Qed.

(** The product of a column with a column of stacked blocks, on either
    side: only the rows of the block that holds the column contribute. *)
Lemma dot_column_stacked_r (blocks : list (option (ndarray R))) (a : nat -> R)
  (j t : nat) (blk : ndarray R) :
  (forall x : R, mul x zero = zero) ->
  nth_error blocks t = Some (Some blk) ->
  list_sum (map width_of (firstn t blocks)) <= j ->
  j < list_sum (map width_of (firstn t blocks)) + width_of (Some blk) ->
  dot_column (list_sum (map count_of blocks)) a
    (fun n => stacked blocks 0 0 (fun _ _ => zero) n j)
  = dot_column (count_of (Some blk))
      (fun i => a (list_sum (map count_of (firstn t blocks)) + i))
      (fun i => entry blk i (j - list_sum (map width_of (firstn t blocks)))).
Proof.
  intros Hmul Ht Hlo Hhi. unfold dot_column.
  now rewrite (fold_stacked_block blocks (fun n v => mul (a n) v)
                 j t blk 0 0 zero).
Qed.

Lemma dot_column_stacked_l (blocks : list (option (ndarray R))) (b : nat -> R)
  (j t : nat) (blk : ndarray R) :
  (forall x : R, mul zero x = zero) ->
  nth_error blocks t = Some (Some blk) ->
  list_sum (map width_of (firstn t blocks)) <= j ->
  j < list_sum (map width_of (firstn t blocks)) + width_of (Some blk) ->
  dot_column (list_sum (map count_of blocks))
    (fun n => stacked blocks 0 0 (fun _ _ => zero) n j) b
  = dot_column (count_of (Some blk))
      (fun i => entry blk i (j - list_sum (map width_of (firstn t blocks))))
      (fun i => b (list_sum (map count_of (firstn t blocks)) + i)).
Proof.
  intros Hmul Ht Hlo Hhi. unfold dot_column.
  now rewrite (fold_stacked_block blocks (fun n v => mul v (b n))
                 j t blk 0 0 zero).
Qed.

End StackedSums.

Section FromMarginals.

Context {R : Type} `{Scalar R}.
Variable self : NodeTypeEdgeFeatureGraphCRF.
Variable cx : instance R -> result unit.
Variable cy : instance R -> labeling R -> result unit.

(** Once the checks pass, [joint_feature] is the assembly of the
    marginals of the labeling. *)
Lemma joint_feature_assemble (x : instance R) (y : labeling R)
  (unary_marginals pw : matrix R) :
  wf_model self = true ->
  valid_nodes self x = true ->
  valid_edges self x = true ->
  valid_edge_features self x = true ->
  cx x = OK tt -> cy x y = OK tt ->
  marginals self x y (list_sum (node_counts x))
    (list_sum (map edge_rows (x_edges x))) = OK (unary_marginals, pw) ->
  joint_feature self cx cy x y
  = assemble self x (list_sum (node_counts x))
      (list_sum (map edge_rows (x_edges x))) unary_marginals pw.
Proof.
  intros Hwf Hnodes Hedges Hefs Hcx Hcy Hm.
  pose proof (valid_nodes_spec self x Hwf Hnodes) as [Hn Hok].
  unfold joint_feature.
  rewrite (check_size_x_valid self cx x) by assumption. rewrite bind_OK.
  rewrite Hcy, bind_OK.
  pose proof (node_counts_computed x Hok) as Hcounts.
  destruct (_get_node_features x true) as [e | cleaned]; [discriminate |].
  rewrite bind_OK in Hcounts. rewrite !bind_inr, Hcounts, !bind_OK.
  rewrite edge_counts_computed, !bind_OK.
  rewrite Hm, bind_OK. reflexivity.
Qed.

(** The marginals of a labeling that fits the instance. *)
Lemma marginals_fit (x : instance R) (y : labeling R) :
  wf_model self = true ->
  valid_nodes self x = true ->
  valid_edges self x = true ->
  labeling_fits self x y = true ->
  exists unary_marginals pw,
    marginals self x y (list_sum (node_counts x))
      (list_sum (map edge_rows (x_edges x))) = OK (unary_marginals, pw)
    /\ nrows unary_marginals = list_sum (node_counts x)
    /\ ncols unary_marginals = _n_states self
    /\ nrows pw = list_sum (map edge_rows (x_edges x))
    /\ ncols pw = _n_states self ^ 2
    /\ match y with
       | Discrete y =>
           unary_marginals
           = onehot (unary_columns self x y) (list_sum (node_counts x))
                    (_n_states self)
           /\ pw = onehot (pairwise_columns self x y)
                     (list_sum (map edge_rows (x_edges x)))
                     (_n_states self ^ 2)
       | Relaxed a b =>
           unary_marginals
           = Matrix (list_sum (node_counts x)) (_n_states self) (adata a)
           /\ pw = b
       end.
Proof.
  intros Hwf Hnodes Hedges Hfit. destruct y as [y | a b].
  - cbn [labeling_fits] in Hfit.
    rewrite marginals_discrete by assumption.
    eexists. eexists. split; [reflexivity |].
    repeat split.
  - cbn [labeling_fits] in Hfit.
    apply andb_true_iff in Hfit as [Hfit Hc].
    apply andb_true_iff in Hfit as [Ha Hr].
    apply Nat.eqb_eq in Ha, Hr, Hc.
    unfold marginals, reshape2.
    replace (length (adata a) =? list_sum (node_counts x) * _n_states self)
      with true by (symmetry; now apply Nat.eqb_eq).
    rewrite bind_OK.
    eexists. eexists. split; [reflexivity |].
    repeat split; assumption.
Qed.

End FromMarginals.

(** X9: The layout of the joint feature: for a model with at least one
    type whose layout fits the [int64] range, a valid instance whose
    node-feature blocks are all present and a labeling that fits it (a
    valid discrete labeling, or marginals with one row per node,
    respectively per edge), [joint_feature] returns the unary part
    followed by the pairwise part, of [size_unaries] and [size_pairwise]
    elements.  The unary part holds, for each type [t], each state [s]
    and each feature [f] of the type, at
    [unary_offset t + s * features(t) + f], the product of the column of
    the unary marginals for state [s] of type [t] with the column of the
    stacked node features for feature [f] of type [t]; the pairwise part
    holds, for the [k]-th type pair, each edge feature [a] and each state
    pair [s] of the pair, at [pairwise_offset k + a * state pairs + s],
    the product of the column of the stacked edge features at the
    cumulative declared count plus [a] with the column of the pairwise
    marginals for the state pair. *)
Theorem joint_feature_layout :
  forall (R : Type) (SR : Scalar R) (self : NodeTypeEdgeFeatureGraphCRF)
         (cx : instance R -> result unit)
         (cy : instance R -> labeling R -> result unit)
         (x : instance R) (y : labeling R),
    wf_model self = true ->
    l_n_features self <> [] ->
    layout_fits self = true ->
    valid_nodes self x = true ->
    nodes_present x = true ->
    valid_edges self x = true ->
    valid_edge_features self x = true ->
    labeling_fits self x y = true ->
    cx x = OK tt ->
    cy x y = OK tt ->
    exists unary_marginals pw u p,
      marginals self x y (list_sum (node_counts x))
        (list_sum (map edge_rows (x_edges x))) = OK (unary_marginals, pw)
      /\ joint_feature self cx cy x y = OK (u ++ p)
      /\ size_unaries self = OK (length u)
      /\ size_pairwise self = OK (Z.of_nat (length p))
      /\ size_joint_feature self = OK (Z.of_nat (length (u ++ p)))
      /\ (forall t s f,
             t < n_types self ->
             s < nth t (l_n_states self) 0 ->
             f < nth t (l_n_features self) 0 ->
             nth (unary_offset self t + (s * nth t (l_n_features self) 0 + f))
                 u zero
             = dot_column (list_sum (node_counts x))
                 (fun n => mget zero unary_marginals n
                             (list_sum (firstn t (l_n_states self)) + s))
                 (fun n => stacked (x_node_features x) 0 0 (fun _ _ => zero) n
                             (list_sum (firstn t (l_n_features self)) + f)))
      /\ (forall k a s,
             k < n_types self ^ 2 ->
             a < nth k (ravel (a_n_edge_features self)) 0 ->
             s < nth k (pair_state_counts self) 0 ->
             nth (pairwise_offset self k
                  + (a * nth k (pair_state_counts self) 0 + s)) p zero
             = dot_column (list_sum (map edge_rows (x_edges x)))
                 (fun e => stacked (x_edge_features x) 0 0 (fun _ _ => zero) e
                             (list_sum
                                (firstn k (ravel (a_n_edge_features self)))
                              + a))
                 (fun e => mget zero pw e
                             (list_sum (firstn k (pair_state_counts self))
                              + s))).
Proof.
  intros R SR self cx cy x y Hwf Hne Hfit Hnodes Hpresent Hedges Hefs Hlab
    Hcx Hcy.
  pose proof (valid_nodes_spec self x Hwf Hnodes) as [Hn Hok].
  pose proof (valid_edges_spec self x Hedges) as [He _].
  pose proof (valid_edge_features_items self x Hwf Hefs) as [Hf Hitems].
  destruct (marginals_fit self x y Hwf Hnodes Hedges Hlab)
    as (um & pw & Hm & Hur & Huc & Hpr & Hpc & _).
  exists um, pw.
  rewrite (joint_feature_assemble self cx cy x y um pw) by assumption.
  destruct (assemble_entries self x um pw)
    as (u & p & Hv & Hu & Hp & Hue & Hpe);
    try assumption; [now apply present_nodes_shapes |].
  exists u, p. repeat split; try assumption.
  destruct (size_attributes_nonempty self Hwf Hne
              (proj2 (layout_fits_spec self Hfit))) as (Hsu & Hsp & Hsj).
  rewrite Hsj, length_app. rewrite Hsu in Hu. rewrite Hsp in Hp.
  inversion Hu as [Hu']. inversion Hp as [Hp'].
  apply Nat2Z.inj in Hp'. now rewrite Hu', Hp'.
Qed.

Lemma joint_feature_layout_witness :
  exists u p,
    joint_feature example_model (spec_check_size_x example_model)
      (spec_check_size_y example_model) example_instance
      (Discrete example_labels) = OK (u ++ p)
    /\ size_unaries example_model = OK (length u)
    /\ size_pairwise example_model = OK (Z.of_nat (length p))
    /\ nth (unary_offset example_model 0 + (1 * 3 + 2)) u 0%Z = 3%Z
    /\ nth (pairwise_offset example_model 1 + (1 * 6 + 5)) p 0%Z = 21%Z.
Proof.
  destruct (joint_feature_layout Z Scalar_Z example_model
              (spec_check_size_x example_model)
              (spec_check_size_y example_model)
              example_instance (Discrete example_labels)
              eq_refl ltac:(discriminate) eq_refl eq_refl eq_refl eq_refl
              eq_refl eq_refl eq_refl eq_refl)
    as (um & pw & u & p & Hm & Hv & Hu & Hp & _ & Hue & Hpe).
  exists u, p. split; [exact Hv |]. split; [exact Hu |]. split; [exact Hp |].
  vm_compute in Hm. inversion Hm; subst um pw. split.
  - exact (Hue 0 1 2 ltac:(simpl; lia) ltac:(simpl; lia) ltac:(simpl; lia)).
  - exact (Hpe 1 1 5 ltac:(simpl; lia) ltac:(simpl; lia) ltac:(simpl; lia)).
Defined.

Section Columns.

Variable self : NodeTypeEdgeFeatureGraphCRF.

(** The column of node [i] of type [t] in the global state layout. *)
Lemma nth_unary_block_columns (counts states : list nat) (y : list (list Z))
  (acc t i : nat) :
  length states = length counts -> length y = length counts ->
  t < length counts -> i < nth t counts 0 ->
  nth (list_sum (firstn t counts) + i)
      (flat_map unary_block_columns (zip3 counts (offsets_from acc states) y)) 0
  = acc + list_sum (firstn t states) + Z.to_nat (nth i (nth t y []) 0%Z).
Proof.
  revert states y acc t.
  induction counts as [| n counts IH]; intros [| s states] [| y_typ y] acc t
    Hs Hy Ht Hi; try discriminate; [simpl in Ht; lia |].
  cbn [zip3 offsets_from flat_map unary_block_columns].
  destruct t as [| t].
  - cbn [firstn nth] in *. simpl list_sum. rewrite Nat.add_0_l, Nat.add_0_r.
    rewrite app_nth1 by now rewrite length_map, length_seq.
    rewrite (nth_indep _ 0 (acc + Z.to_nat (nth 0 y_typ 0%Z)))
      by now rewrite length_map, length_seq.
    rewrite (map_nth (fun i => acc + Z.to_nat (nth i y_typ 0%Z))).
    now rewrite seq_nth.
  - cbn [firstn nth length] in *. rewrite !list_sum_cons.
    rewrite app_nth2 by (rewrite length_map, length_seq; lia).
    rewrite length_map, length_seq.
    replace (n + list_sum (firstn t counts) + i - n)
      with (list_sum (firstn t counts) + i) by lia.
    rewrite IH by lia. lia.
Qed.

(** The column of edge [i] of the [k]-th type pair in the state-product
    layout. *)
Lemma nth_pairwise_block_columns (pairs : list (nat * nat))
  (edges : list (option (matrix Z))) (y : list (list Z))
  (g : nat * nat -> nat) (acc k i : nat) (e : matrix Z) :
  length edges = length pairs ->
  nth_error edges k = Some (Some e) -> i < nrows e ->
  nth (list_sum (firstn k (map edge_rows edges)) + i)
      (flat_map (pairwise_block_columns self y)
                (zip3 pairs edges (offsets_from acc (map g pairs)))) 0
  = acc + list_sum (firstn k (map g pairs))
    + nth (snd (nth k pairs (0, 0))) (l_n_states self) 0
      * label y (fst (nth k pairs (0, 0))) (mget 0%Z e i 0)
    + label y (snd (nth k pairs (0, 0))) (mget 0%Z e i 1).
Proof.
  revert edges acc k.
  induction pairs as [| [t1 t2] pairs IH]; intros [| oe edges] acc k
    Hlen Hk Hi; try discriminate; [destruct k; discriminate |].
  cbn [zip3 offsets_from map flat_map].
  destruct k as [| k].
  - inversion Hk; subst oe. cbn [firstn nth fst snd pairwise_block_columns].
    simpl list_sum. rewrite Nat.add_0_l, Nat.add_0_r.
    rewrite app_nth1 by now rewrite length_map, length_seq.
    match goal with
    | |- nth i (map ?f _) 0 = _ =>
        rewrite (nth_indep _ 0 (f 0)) by (now rewrite length_map, length_seq);
        rewrite (map_nth f)
    end.
    now rewrite seq_nth.
  - cbn [nth_error firstn nth] in *. rewrite !list_sum_cons.
    assert (Hlen0 : length (pairwise_block_columns self y (t1, t2, oe, acc))
                    = edge_rows oe).
    { destruct oe as [e0 |]; simpl; [| reflexivity].
      now rewrite length_map, length_seq. }
    rewrite app_nth2 by (rewrite Hlen0; lia). rewrite Hlen0.
    replace (edge_rows oe + list_sum (firstn k (map edge_rows edges)) + i
             - edge_rows oe)
      with (list_sum (firstn k (map edge_rows edges)) + i) by lia.
    rewrite IH by (assumption || (simpl in Hlen; lia)). lia.
Qed.

End Columns.

Section BlockSums.

Context {R : Type} `{Scalar R}.

Hypothesis add_zero_r : forall x : R, add x zero = x.
Hypothesis mul_zero_r : forall x : R, mul x zero = zero.
Hypothesis mul_zero_l : forall x : R, mul zero x = zero.

Variable self : NodeTypeEdgeFeatureGraphCRF.

Lemma absent_counts_zero (D : list nat) (efs : list (option (ndarray R)))
  (k : nat) :
  forallb (fun '(d, o) =>
             match o : option (ndarray R) with
             | None => d =? 0
             | Some _ => true
             end) (combine D efs) = true ->
  list_sum (map (fun '(d, o) =>
                   match o : option (ndarray R) with
                   | None => d
                   | Some _ => 0
                   end) (firstn k (combine D efs))) = 0.
Proof.
  revert D k. induction efs as [| o efs IH]; intros [| d D] [| k] Hall;
    try reflexivity.
  cbn [combine forallb] in Hall. apply andb_true_iff in Hall as [Ho Hall].
  cbn [combine firstn map]. rewrite list_sum_cons, IH by assumption.
  destruct o; [reflexivity | apply Nat.eqb_eq in Ho; lia].
Qed.

Lemma present_declare_nothing (x : instance R) :
  edge_features_present x = true ->
  absent_pairs_declare_nothing self x = true.
Proof.
  unfold edge_features_present, absent_pairs_declare_nothing.
  generalize (ravel (a_n_edge_features self)) as D.
  induction (x_edge_features x) as [| o efs IH]; intros [| d D] Hall;
    try reflexivity.
  cbn [forallb] in Hall. apply andb_true_iff in Hall as [Ho Hall].
  cbn [combine forallb]. rewrite IH by assumption.
  destruct o; [reflexivity | discriminate].
Qed.

(** From the marginals on: the entries of the joint feature as sums over
    the nodes of one type and over the edges of one type pair. *)
Lemma assemble_block_entries (x : instance R) (unary_marginals pw : matrix R) :
  wf_model self = true ->
  l_n_features self <> [] ->
  layout_fits self = true ->
  valid_nodes self x = true ->
  nodes_present x = true ->
  valid_edges self x = true ->
  valid_edge_features self x = true ->
  nrows unary_marginals = list_sum (node_counts x) ->
  ncols unary_marginals = _n_states self ->
  nrows pw = list_sum (map edge_rows (x_edges x)) ->
  ncols pw = _n_states self ^ 2 ->
  exists u p,
    assemble self x (list_sum (node_counts x))
      (list_sum (map edge_rows (x_edges x))) unary_marginals pw = OK (u ++ p)
    /\ size_unaries self = OK (length u)
    /\ (forall t blk s f,
           nth_error (x_node_features x) t = Some (Some blk) ->
           s < nth t (l_n_states self) 0 -> f < nth t (l_n_features self) 0 ->
           nth (unary_offset self t + (s * nth t (l_n_features self) 0 + f))
               u zero
           = dot_column (count_of (Some blk))
               (fun i => mget zero unary_marginals
                           (list_sum (firstn t (node_counts x)) + i)
                           (list_sum (firstn t (l_n_states self)) + s))
               (fun i => entry blk i f))
    /\ (absent_pairs_declare_nothing self x = true ->
        forall t1 t2 blk a s,
          t1 < n_types self -> t2 < n_types self ->
          nth_error (x_edge_features x) (t1 * n_types self + t2)
          = Some (Some blk) ->
          a < mget 0 (a_n_edge_features self) t1 t2 ->
          s < nth t1 (l_n_states self) 0 * nth t2 (l_n_states self) 0 ->
          nth (pairwise_offset self (t1 * n_types self + t2)
               + (a * (nth t1 (l_n_states self) 0 * nth t2 (l_n_states self) 0)
                  + s)) p zero
          = dot_column (count_of (Some blk))
              (fun e => entry blk e a)
              (fun e => mget zero pw
                          (list_sum (firstn (t1 * n_types self + t2)
                                            (map edge_rows (x_edges x))) + e)
                          (list_sum (firstn (t1 * n_types self + t2)
                                            (pair_state_counts self)) + s))).
Proof.
  intros Hwf Hne Hfit Hnodes Hpresent Hedges Hefs Hur Huc Hpr Hpc.
  pose proof (valid_nodes_spec self x Hwf Hnodes) as [Hn Hok].
  pose proof (valid_edges_spec self x Hedges) as [He _].
  pose proof (valid_edge_features_items self x Hwf Hefs) as [Hf Hitems].
  pose proof (wf_model_spec self Hwf) as (Hs & Hfe & Har & Hac & Hal).
  pose proof (present_nodes_shapes self x Hnodes Hpresent) as Hshapes.
  assert (Hlen : length (x_node_features x) = length (l_n_features self))
    by congruence.
  pose proof (present_nodes_widths (x_node_features x) (l_n_features self)
                Hlen Hshapes) as Hwidths.
  assert (HD : length (ravel (a_n_edge_features self))
               = length (x_edge_features x))
    by (unfold ravel; rewrite Hal, Hf; simpl; lia).
  destruct (edge_items_shapes (ravel (a_n_edge_features self)) (x_edges x)
              (x_edge_features x)) as (H2d & Hcount & Hwidth);
    [congruence | assumption | assumption |].
  destruct (assemble_entries self x unary_marginals pw)
    as (u & p & Hv & Hu & Hp & Hue & Hpe); try assumption.
  exists u, p. split; [exact Hv |]. split; [exact Hu |]. split.
  - intros t blk s f Ht Hs' Hf'.
    assert (Ht' : t < n_types self)
      by (rewrite <- Hn; apply nth_error_Some; congruence).
    assert (Hw : width_of (Some blk) = nth t (l_n_features self) 0).
    { rewrite <- Hwidths at 1.
      rewrite (nth_indep _ 0 (width_of (R := R) None))
        by (rewrite length_map; apply nth_error_Some; congruence).
      now rewrite map_nth, (nth_error_nth _ _ None Ht). }
    rewrite Hue by assumption. unfold node_counts.
    rewrite (dot_column_stacked_r add_zero_r (x_node_features x) _ _ t blk)
      by (try assumption; rewrite <- firstn_map, Hwidths; lia).
    rewrite <- !firstn_map, Hwidths.
    apply dot_column_ext; [reflexivity |]. intros i Hi. f_equal. lia.
  - intros Hallp t1 t2 blk a s Ht1 Ht2 Hk Ha Hs'.
    set (k := t1 * n_types self + t2) in *.
    assert (Hk' : k < n_types self ^ 2) by (unfold k; simpl; nia).
    assert (Hpsc : nth k (pair_state_counts self) 0
                   = nth t1 (l_n_states self) 0 * nth t2 (l_n_states self) 0).
    { unfold pair_state_counts. apply nth_error_nth.
      now rewrite (map_nth_error _ _ _
                     (nth_error_iter_type_pairs self t1 t2 Ht1 Ht2)). }
    assert (HA : nth k (ravel (a_n_edge_features self)) 0
                 = mget 0 (a_n_edge_features self) t1 t2).
    { unfold mget, ravel. now rewrite Hac. }
    assert (Hw : width_of (Some blk) = nth k (ravel (a_n_edge_features self)) 0).
    { pose proof (forallb_combine_nth _ _ _ k 0 (None, None) Hitems) as Hit.
      rewrite length_combine, HD, He, Hf, Nat.min_id in Hit.
      specialize (Hit Hk' Hk').
      rewrite combine_nth in Hit by congruence.
      rewrite (nth_error_nth _ _ None Hk) in Hit. cbn [edge_item_ok] in Hit.
      destruct (nth k (x_edges x) None) as [e |]; [| discriminate].
      simpl. destruct (shape blk) as [| n [| c [| ? ?]]]; try discriminate.
      apply andb_true_iff in Hit as [_ Hc]. now apply Nat.eqb_eq in Hc. }
    assert (Hcol : list_sum (map width_of (firstn k (x_edge_features x)))
                   = list_sum (firstn k (ravel (a_n_edge_features self)))).
    { pose proof (Hwidth k) as Hwk.
      unfold absent_pairs_declare_nothing in Hallp.
      rewrite absent_counts_zero in Hwk by assumption. lia. }
    rewrite <- Hpsc.
    rewrite Hpe by (try assumption; lia).
    rewrite <- Hcount.
    rewrite (dot_column_stacked_l add_zero_r (x_edge_features x) _ _ k blk)
      by (try assumption; rewrite Hcol; lia).
    rewrite Hcol, <- !firstn_map.
    apply dot_column_ext; [| reflexivity]. intros e He'. f_equal. lia.
Qed.

End BlockSums.

Lemma mget_onehot {R : Type} `{Scalar R} (cols : list nat) (n w i j : nat) :
  i < n -> j < w ->
  mget zero (onehot cols n w) i j
  = if (i <? length cols) && (nth i cols 0 =? j) then one else zero.
Proof. intros Hi Hj. unfold onehot. now rewrite mget_mk_matrix. Qed.

Lemma eqb_add_l (a b c : nat) : (a + b =? a + c) = (b =? c).
Proof.
  destruct (Nat.eqb_spec b c) as [-> | Hne]; [apply Nat.eqb_refl |].
  apply Nat.eqb_neq. lia.
Qed.

(** X10: The entries of the joint feature of marginals.  For a scalar type in
    which zero is neutral for the sum and absorbing for the product, a
    model whose layout fits the [int64] range, a valid instance whose node-feature blocks are all present and
    marginals that fit it: the unary part holds, for each type [t], each
    state [s] of the type and each feature [f] of the type, at
    [unary_offset t + s * features(t) + f], the sum over the nodes of
    type [t] of the marginal of state [s] times feature [f] of the node.
    When every edge-feature block is present, the pairwise part holds,
    for each type pair, each edge feature [a] of the pair and each state
    pair [s], at [pairwise_offset + a * state pairs + s], the sum over
    the edges of the pair of feature [a] of the edge times the marginal
    of the state pair [s]. *)
Theorem joint_feature_relaxed_entries :
  forall (R : Type) (SR : Scalar R),
    (forall r : R, add r zero = r) ->
    (forall r : R, mul r zero = zero) ->
    (forall r : R, mul zero r = zero) ->
    forall (self : NodeTypeEdgeFeatureGraphCRF)
           (cx : instance R -> result unit)
           (cy : instance R -> labeling R -> result unit)
           (x : instance R) (unary_marginals : ndarray R) (pw : matrix R),
      wf_model self = true ->
      l_n_features self <> [] ->
      layout_fits self = true ->
      valid_nodes self x = true ->
      nodes_present x = true ->
      valid_edges self x = true ->
      valid_edge_features self x = true ->
      labeling_fits self x (Relaxed unary_marginals pw) = true ->
      cx x = OK tt ->
      cy x (Relaxed unary_marginals pw) = OK tt ->
      exists u p,
        joint_feature self cx cy x (Relaxed unary_marginals pw) = OK (u ++ p)
        /\ size_unaries self = OK (length u)
        /\ (forall t blk s f,
               nth_error (x_node_features x) t = Some (Some blk) ->
               s < nth t (l_n_states self) 0 ->
               f < nth t (l_n_features self) 0 ->
               nth (unary_offset self t + (s * nth t (l_n_features self) 0 + f))
                   u zero
               = dot_column (count_of (Some blk))
                   (fun i =>
                      nth ((list_sum (firstn t (node_counts x)) + i)
                           * _n_states self
                           + (list_sum (firstn t (l_n_states self)) + s))
                          (adata unary_marginals) zero)
                   (fun i => entry blk i f))
        /\ (edge_features_present x = true ->
            forall t1 t2 blk a s,
              t1 < n_types self -> t2 < n_types self ->
              nth_error (x_edge_features x) (t1 * n_types self + t2)
              = Some (Some blk) ->
              a < mget 0 (a_n_edge_features self) t1 t2 ->
              s < nth t1 (l_n_states self) 0 * nth t2 (l_n_states self) 0 ->
              nth (pairwise_offset self (t1 * n_types self + t2)
                   + (a * (nth t1 (l_n_states self) 0
                           * nth t2 (l_n_states self) 0) + s)) p zero
              = dot_column (count_of (Some blk))
                  (fun e => entry blk e a)
                  (fun e =>
                     mget zero pw
                       (list_sum (firstn (t1 * n_types self + t2)
                                         (map edge_rows (x_edges x))) + e)
                       (list_sum (firstn (t1 * n_types self + t2)
                                         (pair_state_counts self)) + s))).
Proof.
  intros R SR Hadd Hmulr Hmull self cx cy x um pw
    Hwf Hne Hlay Hnodes Hpresent Hedges Hefs Hfit Hcx Hcy.
  destruct (marginals_fit self x (Relaxed um pw) Hwf Hnodes Hedges Hfit)
    as (um' & pw' & Hm & Hur & Huc & Hpr & Hpc & Hum & Hpw).
  subst um' pw'.
  rewrite (joint_feature_assemble self cx cy x (Relaxed um pw) _ pw)
    by eassumption.
  destruct (assemble_block_entries Hadd Hmulr Hmull self x _ pw Hwf Hne Hlay
              Hnodes Hpresent Hedges Hefs Hur Huc Hpr Hpc)
    as (u & p & Hv & Hu & Hue & Hpe).
  exists u, p. split; [exact Hv |]. split; [exact Hu |]. split.
  - intros t blk s f Ht Hs Hf. rewrite (Hue t blk s f Ht Hs Hf). reflexivity.
  - intros Hallp. apply Hpe. now apply present_declare_nothing.
Qed.

Lemma joint_feature_relaxed_entries_witness :
  exists u p,
    joint_feature example_model (spec_check_size_x example_model)
      (spec_check_size_y example_model) example_instance_all_pairs
      example_marginals = OK (u ++ p)
    /\ nth (0 + (1 * 3 + 2)) u 0%Z = (2 * 3 + 4 * 6)%Z
    /\ nth (1 * 4 + (1 * 6 + 5)) p 0%Z = (21 * 1 + 23 * 1)%Z.
Proof.
  destruct (joint_feature_relaxed_entries Z Scalar_Z
              (fun r => Z.add_0_r r) (fun r => Z.mul_0_r r)
              (fun r => Z.mul_0_l r)
              example_model
              (spec_check_size_x example_model)
              (spec_check_size_y example_model)
              example_instance_all_pairs
              (NDArray [3; 5] [1; 2; 0; 0; 0; 3; 4; 0; 0; 0; 0; 0; 5; 6; 7]%Z)
              (Matrix 3 25 (repeat 1%Z 75))
              eq_refl ltac:(discriminate) eq_refl eq_refl eq_refl eq_refl
              eq_refl eq_refl eq_refl eq_refl)
    as (u & p & Hv & _ & Hu & Hp).
  exists u, p. split; [exact Hv |]. split.
  - exact (Hu 0 (NDArray [2; 3] [1; 2; 3; 4; 5; 6]%Z) 1 2 eq_refl
              ltac:(simpl; lia) ltac:(simpl; lia)).
  - exact (Hp eq_refl 0 1 (NDArray [2; 2] [20; 21; 22; 23]%Z) 1 5
              ltac:(simpl; lia) ltac:(simpl; lia) eq_refl
              ltac:(vm_compute; lia) ltac:(simpl; lia)).
Defined.

(** X11: The entries of the joint feature of a discrete labeling.  For a
    scalar type in which zero is neutral for the sum and absorbing for
    the product, a model whose layout fits the [int64] range, a valid
    instance whose node-feature blocks are all present and a valid
    labeling: the unary part holds, for each type
    [t], each state [s] and each feature [f] of the type, at
    [unary_offset t + s * features(t) + f], the sum of feature [f] over
    the nodes of type [t] that are labelled [s].  When every
    edge-feature block is present, the pairwise part holds, for each
    type pair [(t1, t2)], each edge feature [a] of the pair and each
    state pair [s], at [pairwise_offset + a * state pairs + s], the sum
    of feature [a] over the edges of the pair whose end points are
    labelled [l1] and [l2] with [states(t2) * l1 + l2 = s]. *)
Theorem joint_feature_discrete_entries :
  forall (R : Type) (SR : Scalar R),
    (forall r : R, add r zero = r) ->
    (forall r : R, mul r zero = zero) ->
    (forall r : R, mul zero r = zero) ->
    forall (self : NodeTypeEdgeFeatureGraphCRF)
           (cx : instance R -> result unit)
           (cy : instance R -> labeling R -> result unit)
           (x : instance R) (y : list (list Z)),
      wf_model self = true ->
      l_n_features self <> [] ->
      layout_fits self = true ->
      valid_nodes self x = true ->
      nodes_present x = true ->
      valid_edges self x = true ->
      valid_edge_features self x = true ->
      valid_labels self x y = true ->
      cx x = OK tt ->
      cy x (Discrete y) = OK tt ->
      exists u p,
        joint_feature self cx cy x (Discrete y) = OK (u ++ p)
        /\ size_unaries self = OK (length u)
        /\ (forall t blk s f,
               nth_error (x_node_features x) t = Some (Some blk) ->
               s < nth t (l_n_states self) 0 ->
               f < nth t (l_n_features self) 0 ->
               nth (unary_offset self t + (s * nth t (l_n_features self) 0 + f))
                   u zero
               = dot_column (count_of (Some blk))
                   (fun i => if label y t (Z.of_nat i) =? s then one else zero)
                   (fun i => entry blk i f))
        /\ (edge_features_present x = true ->
            forall t1 t2 edges blk a s,
              t1 < n_types self -> t2 < n_types self ->
              nth_error (x_edges x) (t1 * n_types self + t2)
              = Some (Some edges) ->
              nth_error (x_edge_features x) (t1 * n_types self + t2)
              = Some (Some blk) ->
              a < mget 0 (a_n_edge_features self) t1 t2 ->
              s < nth t1 (l_n_states self) 0 * nth t2 (l_n_states self) 0 ->
              nth (pairwise_offset self (t1 * n_types self + t2)
                   + (a * (nth t1 (l_n_states self) 0
                           * nth t2 (l_n_states self) 0) + s)) p zero
              = dot_column (count_of (Some blk))
                  (fun e => entry blk e a)
                  (fun e =>
                     if nth t2 (l_n_states self) 0
                        * label y t1 (mget 0%Z edges e 0)
                        + label y t2 (mget 0%Z edges e 1) =? s
                     then one else zero)).
Proof.
  intros R SR Hadd Hmulr Hmull self cx cy x y
    Hwf Hne Hlay Hnodes Hpresent Hedges Hefs Hlab Hcx Hcy.
  pose proof (valid_nodes_spec self x Hwf Hnodes) as [Hn Hok].
  pose proof (valid_edges_spec self x Hedges) as [He _].
  pose proof (valid_edge_features_items self x Hwf Hefs) as [Hf Hitems].
  pose proof (valid_labels_spec self x y Hwf Hnodes Hlab) as [Hy _].
  pose proof (wf_model_spec self Hwf) as (Hs & Hfe & Har & Hac & Hal).
  assert (HD : length (ravel (a_n_edge_features self))
               = length (x_edge_features x))
    by (unfold ravel; rewrite Hal, Hf; simpl; lia).
  destruct (edge_items_shapes (ravel (a_n_edge_features self)) (x_edges x)
              (x_edge_features x)) as (_ & Hcount & _);
    [congruence | assumption | assumption |].
  destruct (marginals_fit self x (Discrete y) Hwf Hnodes Hedges Hlab)
    as (um & pw & Hm & Hur & Huc & Hpr & Hpc & Hum & Hpw).
  rewrite (joint_feature_assemble self cx cy x (Discrete y) um pw)
    by assumption.
  destruct (assemble_block_entries Hadd Hmulr Hmull self x um pw Hwf Hne
              Hlay Hnodes Hpresent Hedges Hefs Hur Huc Hpr Hpc)
    as (u & p & Hv & Hu & Hue & Hpe).
  exists u, p. split; [exact Hv |]. split; [exact Hu |]. split.
  - intros t blk s f Ht Hs' Hf'. rewrite (Hue t blk s f Ht Hs' Hf').
    assert (Ht' : t < n_types self)
      by (rewrite <- Hn; apply nth_error_Some; congruence).
    assert (Hcnt : nth t (node_counts x) 0 = count_of (Some blk)).
    { unfold node_counts.
      rewrite (nth_indep _ 0 (count_of (R := R) None))
        by (rewrite length_map; lia).
      now rewrite map_nth, (nth_error_nth _ _ None Ht). }
    apply dot_column_ext; [| reflexivity]. intros i Hi.
    pose proof (list_sum_firstn_nth (node_counts x) t) as Hrow.
    pose proof (list_sum_firstn_nth (l_n_states self) t) as Hcol.
    subst um. rewrite mget_onehot by (unfold _n_states; lia).
    rewrite length_unary_columns by assumption.
    replace (list_sum (firstn t (node_counts x)) + i
             <? list_sum (node_counts x)) with true
      by (symmetry; apply Nat.ltb_lt; lia).
    cbn [andb]. unfold unary_columns, _l_type_startindex.
    rewrite nth_unary_block_columns
      by (unfold node_counts in *; rewrite ?length_map; lia).
    rewrite Nat.add_0_l, eqb_add_l. unfold label. now rewrite Nat2Z.id.
  - intros Hallp t1 t2 edges blk a s Ht1 Ht2 Hke Hk Ha Hs'.
    rewrite (Hpe (present_declare_nothing self x Hallp)
               t1 t2 blk a s Ht1 Ht2 Hk Ha Hs').
    set (k := t1 * n_types self + t2) in *.
    assert (Hk' : k < n_types self ^ 2) by (unfold k; simpl; nia).
    assert (Hcnt : count_of (Some blk) = nrows edges).
    { pose proof (f_equal (fun l => nth k l 0) Hcount) as Hnth.
      cbv beta in Hnth.
      rewrite (nth_indep _ 0 (count_of (R := R) None)) in Hnth
        by (rewrite length_map; lia).
      rewrite (nth_indep (map edge_rows _) 0 (edge_rows None)) in Hnth
        by (rewrite length_map; lia).
      rewrite !map_nth in Hnth.
      now rewrite (nth_error_nth _ _ None Hk),
                  (nth_error_nth _ _ None Hke) in Hnth. }
    apply dot_column_ext; [reflexivity |]. intros e He'.
    pose proof (list_sum_firstn_nth (map edge_rows (x_edges x)) k) as Hrow.
    rewrite (nth_indep _ 0 (edge_rows None)) in Hrow
      by (rewrite length_map; lia).
    rewrite map_nth, (nth_error_nth _ _ None Hke) in Hrow.
    cbn [edge_rows] in Hrow.
    pose proof (list_sum_firstn_nth (pair_state_counts self) k) as Hcol.
    assert (Hpsc : nth k (pair_state_counts self) 0
                   = nth t1 (l_n_states self) 0 * nth t2 (l_n_states self) 0).
    { unfold pair_state_counts. apply nth_error_nth.
      now rewrite (map_nth_error _ _ _
                     (nth_error_iter_type_pairs self t1 t2 Ht1 Ht2)). }
    unfold pair_state_counts in Hcol at 3.
    rewrite sum_state_products in Hcol by assumption.
    subst pw. rewrite mget_onehot by lia.
    rewrite length_pairwise_columns by assumption.
    replace (list_sum (firstn k (map edge_rows (x_edges x))) + e
             <? list_sum (map edge_rows (x_edges x))) with true
      by (symmetry; apply Nat.ltb_lt; lia).
    cbn [andb]. unfold pairwise_columns, _l_edgetype_start_index.
    rewrite (nth_pairwise_block_columns self (_iter_type_pairs self)
               (x_edges x) y _ 0 k e edges)
      by (rewrite ?length_iter_type_pairs; assumption || lia).
    unfold k.
    rewrite (nth_error_nth _ _ (0, 0)
               (nth_error_iter_type_pairs self t1 t2 Ht1 Ht2)).
    cbn [fst snd]. fold (pair_state_counts self).
    rewrite Nat.add_0_l, <- Nat.add_assoc, eqb_add_l. reflexivity.
Qed.

Lemma joint_feature_discrete_entries_witness :
  exists u p,
    joint_feature example_model (spec_check_size_x example_model)
      (spec_check_size_y example_model) example_instance_all_pairs
      (Discrete example_labels) = OK (u ++ p)
    /\ nth (0 + (1 * 3 + 2)) u 0%Z = (1 * 3 + 0 * 6)%Z
    /\ nth (1 * 4 + (1 * 6 + 5)) p 0%Z = (21 * 1 + 23 * 0)%Z.
Proof.
  destruct (joint_feature_discrete_entries Z Scalar_Z
              (fun r => Z.add_0_r r) (fun r => Z.mul_0_r r)
              (fun r => Z.mul_0_l r)
              example_model
              (spec_check_size_x example_model)
              (spec_check_size_y example_model)
              example_instance_all_pairs example_labels
              eq_refl ltac:(discriminate) eq_refl eq_refl eq_refl eq_refl
              eq_refl eq_refl eq_refl eq_refl)
    as (u & p & Hv & _ & Hu & Hp).
  exists u, p. split; [exact Hv |]. split.
  - exact (Hu 0 (NDArray [2; 3] [1; 2; 3; 4; 5; 6]%Z) 1 2 eq_refl
              ltac:(simpl; lia) ltac:(simpl; lia)).
  - exact (Hp eq_refl 0 1 (Matrix 2 2 [0; 0; 1; 0]%Z)
              (NDArray [2; 2] [20; 21; 22; 23]%Z) 1 5
              ltac:(simpl; lia) ltac:(simpl; lia) eq_refl eq_refl
              ltac:(vm_compute; lia) ltac:(simpl; lia)).
Defined.

(** ** Type pairs without edges in the joint feature *)




